(** * Winter Pacman multiplayer server: a shallow embedding of [server.py]

    The development follows [WebSocketPacmanServer]: the player registry is
    the Python dict [self.players] (an association list in insertion order,
    because the code iterates over it and draws from [list(keys())]), every
    method that mutates [self] is a computation in a small state / exception /
    output monad, the random module is a tape of uniform variates, and
    [datetime.now()] is an argument of the operations that read the clock. *)

From Stdlib Require Import ZArith QArith Qround List String Ascii Bool Lia ListSet.
From Stdlib Require Import DecimalString DecimalNat.
Import ListNotations.
Local Open Scope string_scope.
Local Open Scope list_scope.
Local Open Scope Z_scope.

(** ** Decoded JSON payloads *)

(** The value [json.loads] returns.  Numbers are integers (the annotations of
    the source say [int]); a Python dict decoded from an object is the
    association list of its members. *)
#[warnings="-register-all"]
Inductive json : Type :=
| JNull
| JBool (b : bool)
| JInt (z : Z)
| JStr (s : string)
| JList (l : list json)
| JDict (d : list (string * json)).

(** What arrives on the socket, seen through [json.loads(message)]: either the
    call raises [json.JSONDecodeError] or it returns a value. *)
Inductive payload : Type :=
| Undecodable
| Decoded (data : json).

Inductive Exn : Type := KeyError | TypeError | IndexError.

Inductive Res (A : Type) : Type :=
| Ok (a : A)
| Raise (e : Exn).
Arguments Ok {A} a.
Arguments Raise {A} e.

Fixpoint assoc {A : Type} (k : string) (d : list (string * A)) : option A :=
  match d with
  | [] => None
  | (k', v) :: d' => if String.eqb k k' then Some v else assoc k d'
  end.

(** [data[key]] for a string key. *)
Definition subscript (data : json) (key : string) : Res json :=
  match data with
  | JDict d => match assoc key d with Some v => Ok v | None => Raise KeyError end
  | _ => Raise TypeError
  end.

(** [key in data]; at both uses in the source the operand has already been
    subscripted by a string, so it is a dict. *)
Definition key_in (key : string) (data : json) : bool :=
  match data with
  | JDict d => match assoc key d with Some _ => true | None => false end
  | _ => false
  end.

(** [data['type'] == 'position'] and the like. *)
Definition is_str (j : json) (s : string) : bool :=
  match j with JStr t => String.eqb t s | _ => false end.

(** Python truth value of a decoded JSON value. *)
Definition truthy (j : json) : bool :=
  match j with
  | JNull => false
  | JBool b => b
  | JInt z => negb (z =? 0)
  | JStr s => negb (String.eqb s "")
  | JList l => match l with [] => false | _ => true end
  | JDict d => match d with [] => false | _ => true end
  end.

(** A JSON value used in integer arithmetic or an ordering test: [bool] is a
    subclass of [int]; [None], strings, lists and dicts raise [TypeError]. *)
Definition as_int (j : json) : Res Z :=
  match j with
  | JInt z => Ok z
  | JBool b => Ok (if b then 1 else 0)
  | _ => Raise TypeError
  end.

(** ** Content of an arena *)

Definition Color : Type := list Z.

Definition Color_eq_dec : forall a b : Color, {a = b} + {a <> b} :=
  list_eq_dec Z.eq_dec.

Record Wall : Type := mkWall {
  w_x : Z; w_y : Z; w_width : Z; w_height : Z; w_color : Color }.

Inductive DotType : Type := regular | crystal | star.

(** A collectible.  The generator creates it without an ['eaten'] key and the
    code reads the key with [.get('eaten', False)]. *)
Record Dot : Type := mkDot {
  d_x : Z; d_y : Z; d_size : Z; d_brightness : Q; d_type : DotType;
  d_eaten : option bool }.

Record Icicle : Type := mkIcicle { i_x : Z; i_y : Z; i_eaten : bool }.

(** Falling snow, decoration only. *)
Record Snowflake : Type := mkSnowflake {
  s_x : Z; s_y : Z; s_size : Z; s_speed : Q; s_brightness : Q }.

Record Map : Type := mkMap {
  m_name : string;
  m_walls : list Wall;
  m_dots : list Dot;
  m_power_pellets : list Icicle;
  m_snowflakes : list Snowflake;
  m_pacman_spawn : Z * Z;
  m_ghost_spawns : list (Z * Z);
  m_background : string }.

(** ** Players *)

Inductive Role : Type := ghost | pacman.

Definition Role_eqb (a b : Role) : bool :=
  match a, b with ghost, ghost | pacman, pacman => true | _, _ => false end.

(** The dict stored under [self.players[player_id]].  The four keys the code
    tests with [in] / [not in] are optional; the others are always read
    directly.  ['voice_chat'] and ['muted'] hold whatever JSON value the
    client sent and are used through their truth value; ['name'] is whatever
    the client sent. *)
Record Player : Type := mkPlayer {
  p_x : Z;
  p_y : Z;
  p_role : Role;
  p_color : option Color;
  p_score : option Z;
  p_power_mode : bool;
  p_power_timer : Z;
  p_lives : option Z;
  p_websocket : nat;
  p_name : option json;
  p_voice_chat : json;
  p_muted : json;
  p_total_score : Z;
  p_games_played : Z;
  p_wins : Z }.

Definition set_pos (vx vy : Z) (p : Player) : Player :=
  mkPlayer vx vy (p_role p) (p_color p) (p_score p) (p_power_mode p)
    (p_power_timer p) (p_lives p) (p_websocket p) (p_name p) (p_voice_chat p)
    (p_muted p) (p_total_score p) (p_games_played p) (p_wins p).

Definition set_role (v : Role) (p : Player) : Player :=
  mkPlayer (p_x p) (p_y p) v (p_color p) (p_score p) (p_power_mode p)
    (p_power_timer p) (p_lives p) (p_websocket p) (p_name p) (p_voice_chat p)
    (p_muted p) (p_total_score p) (p_games_played p) (p_wins p).

Definition set_color (v : option Color) (p : Player) : Player :=
  mkPlayer (p_x p) (p_y p) (p_role p) v (p_score p) (p_power_mode p)
    (p_power_timer p) (p_lives p) (p_websocket p) (p_name p) (p_voice_chat p)
    (p_muted p) (p_total_score p) (p_games_played p) (p_wins p).

Definition set_score (v : option Z) (p : Player) : Player :=
  mkPlayer (p_x p) (p_y p) (p_role p) (p_color p) v (p_power_mode p)
    (p_power_timer p) (p_lives p) (p_websocket p) (p_name p) (p_voice_chat p)
    (p_muted p) (p_total_score p) (p_games_played p) (p_wins p).

Definition set_power (mode : bool) (timer : Z) (p : Player) : Player :=
  mkPlayer (p_x p) (p_y p) (p_role p) (p_color p) (p_score p) mode
    timer (p_lives p) (p_websocket p) (p_name p) (p_voice_chat p)
    (p_muted p) (p_total_score p) (p_games_played p) (p_wins p).

Definition set_lives (v : option Z) (p : Player) : Player :=
  mkPlayer (p_x p) (p_y p) (p_role p) (p_color p) (p_score p) (p_power_mode p)
    (p_power_timer p) v (p_websocket p) (p_name p) (p_voice_chat p)
    (p_muted p) (p_total_score p) (p_games_played p) (p_wins p).

Definition set_name (v : option json) (p : Player) : Player :=
  mkPlayer (p_x p) (p_y p) (p_role p) (p_color p) (p_score p) (p_power_mode p)
    (p_power_timer p) (p_lives p) (p_websocket p) v (p_voice_chat p)
    (p_muted p) (p_total_score p) (p_games_played p) (p_wins p).

Definition set_voice_chat (v : json) (p : Player) : Player :=
  mkPlayer (p_x p) (p_y p) (p_role p) (p_color p) (p_score p) (p_power_mode p)
    (p_power_timer p) (p_lives p) (p_websocket p) (p_name p) v
    (p_muted p) (p_total_score p) (p_games_played p) (p_wins p).

Definition set_muted (v : json) (p : Player) : Player :=
  mkPlayer (p_x p) (p_y p) (p_role p) (p_color p) (p_score p) (p_power_mode p)
    (p_power_timer p) (p_lives p) (p_websocket p) (p_name p) (p_voice_chat p)
    v (p_total_score p) (p_games_played p) (p_wins p).

(** ** The server object *)

(** The fields of [WebSocketPacmanServer] that the game logic reads or writes,
    together with [rnd], the uniform variates the [random] module will hand
    out next.  [self.dots], [self.power_pellets], [self.walls] and
    [self.snowflakes] are not fields here: in the source they are always the
    very list objects stored in [self.maps[self.current_map]], so an item
    marked eaten is marked in the map itself (see [dots] and [set_dots]). *)
Record Server : Type := mkServer {
  connected_clients : list nat;
  players : list (string * Player);
  pacman_player_id : option string;
  player_counter : nat;
  used_ghost_colors : list Color;
  current_map : nat;
  maps : list Map;
  last_respawn_time : Z;
  rnd : list Q }.

Definition set_connected_clients (v : list nat) (s : Server) : Server :=
  mkServer v (players s) (pacman_player_id s) (player_counter s)
    (used_ghost_colors s) (current_map s) (maps s) (last_respawn_time s) (rnd s).

Definition set_players (v : list (string * Player)) (s : Server) : Server :=
  mkServer (connected_clients s) v (pacman_player_id s) (player_counter s)
    (used_ghost_colors s) (current_map s) (maps s) (last_respawn_time s) (rnd s).

Definition set_pacman_player_id (v : option string) (s : Server) : Server :=
  mkServer (connected_clients s) (players s) v (player_counter s)
    (used_ghost_colors s) (current_map s) (maps s) (last_respawn_time s) (rnd s).

Definition set_player_counter (v : nat) (s : Server) : Server :=
  mkServer (connected_clients s) (players s) (pacman_player_id s) v
    (used_ghost_colors s) (current_map s) (maps s) (last_respawn_time s) (rnd s).

Definition set_used_ghost_colors (v : list Color) (s : Server) : Server :=
  mkServer (connected_clients s) (players s) (pacman_player_id s) (player_counter s)
    v (current_map s) (maps s) (last_respawn_time s) (rnd s).

Definition set_current_map (v : nat) (s : Server) : Server :=
  mkServer (connected_clients s) (players s) (pacman_player_id s) (player_counter s)
    (used_ghost_colors s) v (maps s) (last_respawn_time s) (rnd s).

Definition set_maps (v : list Map) (s : Server) : Server :=
  mkServer (connected_clients s) (players s) (pacman_player_id s) (player_counter s)
    (used_ghost_colors s) (current_map s) v (last_respawn_time s) (rnd s).

Definition set_last_respawn_time (v : Z) (s : Server) : Server :=
  mkServer (connected_clients s) (players s) (pacman_player_id s) (player_counter s)
    (used_ghost_colors s) (current_map s) (maps s) v (rnd s).

Definition set_rnd (v : list Q) (s : Server) : Server :=
  mkServer (connected_clients s) (players s) (pacman_player_id s) (player_counter s)
    (used_ghost_colors s) (current_map s) (maps s) (last_respawn_time s) v.

(** ** Effects visible outside the server object *)

(** One entry of [players_data] in a snapshot. *)
Record PlayerView : Type := mkPlayerView {
  v_x : Z; v_y : Z; v_role : Role; v_color : Color; v_score : Z;
  v_power_mode : bool; v_lives : Z; v_name : json; v_voice_chat : json;
  v_muted : json }.

(** The dict built by [prepare_game_state]. *)
Record Snapshot : Type := mkSnapshot {
  sn_players : list (string * PlayerView);
  sn_dots : list Dot;
  sn_power_pellets : list Icicle;
  sn_walls : list Wall;
  sn_snowflakes : list Snowflake;
  sn_current_map : nat;
  sn_map_name : string;
  sn_map_theme : string;
  sn_your_role : Role;
  sn_your_id : string;
  sn_pacman_id : option string }.

Inductive OutMsg : Type :=
| game_state (snapshot : Snapshot)
| leaderboard
| player_stats (username : json)
| voice_audio (sender_id : string) (sender_name : json) (audio_data sequence : json).

Inductive Level : Type := info | error.

(** Calls that leave the server object: the logger, the rating database
    ([DatabaseManager], whose storage is outside this development) and
    [websocket.send], recorded in the order they are made. *)
Inductive Effect : Type :=
| Log (lvl : Level)
| update_player_rating (username : json) (score : Z) (is_win : bool)
| get_leaderboard
| get_player_rating (username : json)
| Send (ws : nat) (msg : OutMsg).

(** ** The monad of the methods

    A method runs on the server object, may raise, and leaves a list of
    effects.  An exception keeps the mutations made before it, as in
    Python. *)
Definition M (A : Type) : Type := Server -> Res A * Server * list Effect.

Definition ret {A : Type} (a : A) : M A := fun s => (Ok a, s, []).

Definition bind {A B : Type} (m : M A) (f : A -> M B) : M B :=
  fun s =>
    match m s with
    | (Ok a, s1, e1) =>
        match f a s1 with (r, s2, e2) => (r, s2, e1 ++ e2) end
    | (Raise x, s1, e1) => (Raise x, s1, e1)
    end.

Declare Scope monad_scope.
Delimit Scope monad_scope with monad.
Notation "x <- m ;; k" := (bind m (fun x => k))
  (at level 61, m at next level, right associativity) : monad_scope.
Notation "m ;; k" := (bind m (fun _ => k))
  (at level 61, right associativity) : monad_scope.
Local Open Scope monad_scope.

Definition raise {A : Type} (x : Exn) : M A := fun s => (Raise x, s, []).

Definition lift {A : Type} (r : Res A) : M A := fun s => (r, s, []).

Definition get_state : M Server := fun s => (Ok s, s, []).

Definition modify (f : Server -> Server) : M unit := fun s => (Ok tt, f s, []).

Definition emit (e : Effect) : M unit := fun s => (Ok tt, s, [e]).

Definition when (b : bool) (m : M unit) : M unit := if b then m else ret tt.

(** [for a in l: body(a)] *)
Fixpoint for_each {A : Type} (l : list A) (body : A -> M unit) : M unit :=
  match l with
  | [] => ret tt
  | a :: l' => body a ;; for_each l' body
  end.

(** The state, result and effects of a run. *)
Definition post {A : Type} (m : M A) (s : Server) : Server := snd (fst (m s)).
Definition result {A : Type} (m : M A) (s : Server) : Res A := fst (fst (m s)).
Definition effects {A : Type} (m : M A) (s : Server) : list Effect := snd (m s).

(** ** The [players] dict *)

Fixpoint upd (k : string) (f : Player -> Player) (d : list (string * Player))
  : list (string * Player) :=
  match d with
  | [] => []
  | (k', v) :: d' =>
      if String.eqb k k' then (k', f v) :: d' else (k', v) :: upd k f d'
  end.

(** [d[k] = v]: an existing key keeps its place. *)
Fixpoint dict_set (k : string) (v : Player) (d : list (string * Player))
  : list (string * Player) :=
  match d with
  | [] => [(k, v)]
  | (k', v') :: d' =>
      if String.eqb k k' then (k, v) :: d' else (k', v') :: dict_set k v d'
  end.

(** [del d[k]] *)
Fixpoint dict_del (k : string) (d : list (string * Player))
  : list (string * Player) :=
  match d with
  | [] => []
  | (k', v) :: d' =>
      if String.eqb k k' then d' else (k', v) :: dict_del k d'
  end.

Definition keys (d : list (string * Player)) : list string := map fst d.

Definition has_key (k : string) (d : list (string * Player)) : bool :=
  match assoc k d with Some _ => true | None => false end.

(** [self.players[player_id]] *)
Definition get_player (player_id : string) : M Player :=
  fun s =>
    match assoc player_id (players s) with
    | Some p => (Ok p, s, [])
    | None => (Raise KeyError, s, [])
    end.

(** [self.players[player_id][field] = value], for the field [f] sets. *)
Definition update_player (player_id : string) (f : Player -> Player) : M unit :=
  fun s =>
    match assoc player_id (players s) with
    | Some _ => (Ok tt, set_players (upd player_id f (players s)) s, [])
    | None => (Raise KeyError, s, [])
    end.

(** Reading a key that may be absent from a player's dict. *)
Definition field {A : Type} (o : option A) : M A :=
  match o with Some a => ret a | None => raise KeyError end.

(** ** The [random] module *)

(** The index [random.choice] picks in a sequence of [n] items for the
    variate [u]. *)
Definition choice_index (u : Q) (n : nat) : nat :=
  (Z.to_nat (Qfloor (u * inject_Z (Z.of_nat n))) mod n)%nat.

Arguments choice_index : simpl never.

(** [random.random()] *)
Definition random_random : M Q :=
  fun s =>
    match rnd s with
    | [] => (Ok 0%Q, s, [])
    | u :: t => (Ok u, set_rnd t s, [])
    end.

(** [random.choice(seq)] *)
Definition random_choice {A : Type} (seq : list A) : M A :=
  match seq with
  | [] => raise IndexError
  | a :: _ =>
      u <- random_random ;;
      ret (nth (choice_index u (List.length seq)) seq a)
  end.

(** ** The active arena *)

Definition no_map : Map := mkMap "" [] [] [] [] (0, 0) [] "".

Definition cur (s : Server) : Map := nth (current_map s) (maps s) no_map.

(** [self.maps[self.current_map]] *)
Definition current_map_data : M Map :=
  fun s =>
    match nth_error (maps s) (current_map s) with
    | Some m => (Ok m, s, [])
    | None => (Raise IndexError, s, [])
    end.

Definition walls (s : Server) : list Wall := m_walls (cur s).
Definition dots (s : Server) : list Dot := m_dots (cur s).
Definition power_pellets (s : Server) : list Icicle := m_power_pellets (cur s).
Definition snowflakes (s : Server) : list Snowflake := m_snowflakes (cur s).

Fixpoint set_nth {A : Type} (n : nat) (f : A -> A) (l : list A) {struct l}
  : list A :=
  match l, n with
  | [], _ => []
  | a :: l', O => f a :: l'
  | a :: l', S n' => a :: set_nth n' f l'
  end.

Definition with_dots (v : list Dot) (m : Map) : Map :=
  mkMap (m_name m) (m_walls m) v (m_power_pellets m) (m_snowflakes m)
    (m_pacman_spawn m) (m_ghost_spawns m) (m_background m).

Definition with_power_pellets (v : list Icicle) (m : Map) : Map :=
  mkMap (m_name m) (m_walls m) (m_dots m) v (m_snowflakes m)
    (m_pacman_spawn m) (m_ghost_spawns m) (m_background m).

(** Mutating the items of [self.dots] mutates the active map. *)
Definition set_dots (v : list Dot) (s : Server) : Server :=
  set_maps (set_nth (current_map s) (with_dots v) (maps s)) s.

Definition set_power_pellets (v : list Icicle) (s : Server) : Server :=
  set_maps (set_nth (current_map s) (with_power_pellets v) (maps s)) s.

(** ** Walls *)

Definition check_wall_collision (walls : list Wall) (x y player_size : Z) : bool :=
  let left := x - player_size / 2 in
  let right := x + player_size / 2 in
  let top := y - player_size / 2 in
  let bottom := y + player_size / 2 in
  existsb (fun wall =>
    (w_x wall <? right) && (left <? w_x wall + w_width wall) &&
    (w_y wall <? bottom) && (top <? w_y wall + w_height wall)) walls.

Definition get_valid_position (walls : list Wall)
  (old_x old_y new_x new_y player_size : Z) : Z * Z :=
  if negb (check_wall_collision walls new_x new_y player_size) then (new_x, new_y)
  else if negb (check_wall_collision walls new_x old_y player_size) then (new_x, old_y)
  else if negb (check_wall_collision walls old_x new_y player_size) then (old_x, new_y)
  else (old_x, old_y).

(** ** Colours and roles *)

Definition ghost_colors_available : list Color :=
  [ [173; 216; 230]; [255; 182; 193]; [152; 251; 152]; [221; 160; 221];
    [240; 248; 255]; [176; 224; 230]; [255; 250; 205] ].

Definition pacman_color : Color := [255; 255; 0].

Definition color_used (c : Color) (s : Server) : bool :=
  set_mem Color_eq_dec c (used_ghost_colors s).

Definition get_ghost_color : M Color :=
  s <- get_state ;;
  let available_colors :=
    filter (fun c => negb (color_used c s)) ghost_colors_available in
  match available_colors with
  | color :: _ =>
      modify (set_used_ghost_colors (set_add Color_eq_dec color (used_ghost_colors s))) ;;
      ret color
  | [] => random_choice ghost_colors_available
  end.

Definition is_pacman_id (player_id : string) (s : Server) : bool :=
  match pacman_player_id s with
  | Some h => String.eqb player_id h
  | None => false
  end.

(** The body of the loop of [assign_roles]. *)
Definition assign_role (player_id : string) : M unit :=
  s <- get_state ;;
  if is_pacman_id player_id s then
    update_player player_id (set_role pacman) ;;
    update_player player_id (set_color (Some pacman_color)) ;;
    p <- get_player player_id ;;
    when (match p_lives p with None => true | Some _ => false end)
      (update_player player_id (set_lives (Some 3))) ;;
    p <- get_player player_id ;;
    when (match p_score p with None => true | Some _ => false end)
      (update_player player_id (set_score (Some 0)))
  else
    update_player player_id (set_role ghost) ;;
    p <- get_player player_id ;;
    match p_color p with
    | None =>
        c <- get_ghost_color ;;
        update_player player_id (set_color (Some c))
    | Some _ => ret tt
    end.

Definition pacman_missing (s : Server) : bool :=
  match pacman_player_id s with
  | None => true
  | Some h => negb (has_key h (players s))
  end.

Definition assign_roles : M unit :=
  s <- get_state ;;
  match players s with
  | [] => ret tt
  | _ :: _ =>
      let player_ids := keys (players s) in
      when (pacman_missing s)
        (match player_ids with
         | [] => ret tt
         | _ :: _ =>
             h <- random_choice player_ids ;;
             modify (set_pacman_player_id (Some h)) ;;
             emit (Log info)
         end) ;;
      for_each player_ids assign_role
  end.

(** ** Arena content: [generate_winter_maps] *)

(** [range(start, stop, step)] for a positive step. *)
Definition py_range (start stop step : Z) : list Z :=
  map (fun i => start + step * Z.of_nat i)
      (seq 0 (Z.to_nat ((stop - start + step - 1) / step))).

Definition rect (color : Color) (r : Z * Z * Z * Z) : Wall :=
  match r with (x, y, width, height) => mkWall x y width height color end.

Definition generate_forest_walls : list Wall :=
  flat_map (fun x => [mkWall x 50 50 25 [240; 248; 255];
                      mkWall x 650 50 25 [240; 248; 255]]) (py_range 50 950 60)
  ++ flat_map (fun y => [mkWall 50 y 25 50 [240; 248; 255];
                         mkWall 925 y 25 50 [240; 248; 255]]) (py_range 50 650 60)
  ++ map (rect [34; 139; 34])
       [(200, 150, 40, 80); (600, 150, 40, 80); (300, 400, 40, 80);
        (700, 400, 40, 80); (150, 300, 30, 60); (750, 300, 30, 60)].

Definition generate_ice_maze_walls : list Wall :=
  flat_map (fun x => [mkWall x 50 40 20 [173; 216; 230];
                      mkWall x 650 40 20 [173; 216; 230]]) (py_range 50 950 50)
  ++ flat_map (fun y => [mkWall 50 y 20 40 [173; 216; 230];
                         mkWall 930 y 20 40 [173; 216; 230]]) (py_range 50 650 50)
  ++ map (rect [135; 206; 250])
       [(200, 100, 300, 15); (600, 100, 15, 200); (100, 300, 250, 15);
        (650, 300, 250, 15); (300, 400, 15, 150); (500, 400, 15, 150);
        (200, 500, 200, 15); (600, 500, 200, 15)].

(** The twelve ring walls of the aurora arena are computed with [math.cos],
    [math.sin] and random colours; they are taken as given ([ring]). *)
Definition generate_aurora_walls (ring : list Wall) : list Wall :=
  ring
  ++ map (rect [72; 61; 139])
       [(350, 250, 15, 80); (550, 250, 15, 80); (350, 450, 15, 80);
        (550, 450, 15, 80); (400, 300, 100, 15); (400, 400, 100, 15)].

Definition generate_village_walls : list Wall :=
  flat_map (fun r => match r with (x, y, width, height) =>
               [mkWall x y width height [139; 69; 19];
                mkWall (x - 10) (y - 15) (width + 20) 15 [240; 248; 255]] end)
       [(100, 100, 120, 100); (700, 100, 120, 100); (100, 450, 120, 100);
        (700, 450, 120, 100); (350, 280, 150, 120)]
  ++ map (rect [34; 139; 34])
       [(250, 150, 25, 60); (550, 150, 25, 60); (250, 500, 25, 60);
        (550, 500, 25, 60)].

Definition spiral_coords : list (Z * Z * Z * Z) :=
  [(100, 100, 700, 15); (100, 100, 15, 500); (100, 600, 700, 15);
   (800, 100, 15, 500); (150, 150, 600, 15); (150, 150, 15, 400);
   (150, 550, 600, 15); (750, 150, 15, 400); (200, 200, 500, 15);
   (200, 200, 15, 300); (200, 500, 500, 15); (700, 200, 15, 300)].

Definition generate_ice_spiral_walls : list Wall :=
  map (fun ir => rect [173; 216; 230 - Z.of_nat (fst ir) * 15] (snd ir))
      (combine (seq 0 (List.length spiral_coords)) spiral_coords).

Definition generate_icicles_for_map (map_id : nat) : list Icicle :=
  let positions :=
    match map_id with
    | 1%nat => [(120, 120); (880, 120); (120, 580); (880, 580)]
    | 2%nat => [(180, 180); (820, 180); (180, 520); (820, 520)]
    | 3%nat => [(200, 200); (700, 200); (200, 500); (700, 500)]
    | 4%nat => [(250, 250); (750, 250); (250, 450); (750, 450)]
    | _ => [(200, 200); (700, 200); (200, 500); (700, 500)]
    end in
  map (fun xy => mkIcicle (fst xy) (snd xy) false) positions.

(** What the random generators of the constructor produced:
    [generate_snowflakes_for_map(i)] (the collectibles of arena [i]),
    [generate_snowflakes(count)] (the decoration of arena [i]) and the ring of
    the aurora arena. *)
Record Content : Type := mkContent {
  c_dots : nat -> list Dot;
  c_snowflakes : nat -> list Snowflake;
  c_ring : list Wall }.

Definition generate_winter_maps (c : Content) : list Map :=
  [ mkMap "Winter Forest" generate_forest_walls (c_dots c 1)
      (generate_icicles_for_map 1) (c_snowflakes c 1) (400, 500)
      [(400, 300); (300, 300); (500, 300); (400, 200)] "night_forest";
    mkMap "Ice Maze" generate_ice_maze_walls (c_dots c 2)
      (generate_icicles_for_map 2) (c_snowflakes c 2) (100, 100)
      [(800, 600); (800, 100); (100, 600); (450, 350)] "ice_cave";
    mkMap "Aurora Circle" (generate_aurora_walls (c_ring c)) (c_dots c 3)
      (generate_icicles_for_map 3) (c_snowflakes c 3) (100, 350)
      [(800, 350); (450, 100); (450, 600); (450, 350)] "aurora";
    mkMap "Snow Village" generate_village_walls (c_dots c 4)
      (generate_icicles_for_map 4) (c_snowflakes c 4) (150, 150)
      [(750, 550); (750, 150); (150, 550); (450, 350)] "snow_village";
    mkMap "Ice Spiral" generate_ice_spiral_walls (c_dots c 5)
      (generate_icicles_for_map 5) (c_snowflakes c 5) (450, 450)
      [(100, 100); (800, 100); (100, 600); (800, 600)] "frozen_lake" ].

(** [WebSocketPacmanServer.__init__], started at time [now] (microseconds)
    with the variates [tape] still to come. *)
Definition init (c : Content) (now : Z) (tape : list Q) : Server :=
  mkServer [] [] None 0 [] 0 (generate_winter_maps c) now tape.

(** ** Snapshots and sending *)

Definition get_eaten (d : Dot) : bool :=
  match d_eaten d with Some b => b | None => false end.

Definition with_eaten (b : bool) (d : Dot) : Dot :=
  mkDot (d_x d) (d_y d) (d_size d) (d_brightness d) (d_type d) (Some b).

Definition with_i_eaten (b : bool) (i : Icicle) : Icicle :=
  mkIcicle (i_x i) (i_y i) b.

Definition player_view (pid : string) (p : Player) : Res PlayerView :=
  match p_color p with
  | None => Raise KeyError
  | Some c =>
      Ok (mkPlayerView (p_x p) (p_y p) (p_role p) c
            (match p_score p with Some v => v | None => 0 end)
            (p_power_mode p)
            (match p_lives p with Some v => v | None => 3 end)
            (match p_name p with Some v => v | None => JStr ("Player" ++ pid) end)
            (p_voice_chat p) (p_muted p))
  end.

(** [for a in l: out.append(body(a))] *)
Fixpoint map_m {A B : Type} (body : A -> M B) (l : list A) : M (list B) :=
  match l with
  | [] => ret []
  | a :: l' => b <- body a ;; bs <- map_m body l' ;; ret (b :: bs)
  end.

Definition prepare_game_state (player_id : string) : M Snapshot :=
  s <- get_state ;;
  players_data <-
    map_m (fun kp => v <- lift (player_view (fst kp) (snd kp)) ;; ret (fst kp, v))
          (players s) ;;
  m <- current_map_data ;;
  me <- get_player player_id ;;
  ret (mkSnapshot players_data
         (filter (fun d => negb (get_eaten d)) (dots s))
         (filter (fun i => negb (i_eaten i)) (power_pellets s))
         (walls s) (snowflakes s) (current_map s) (m_name m) (m_background m)
         (p_role me) player_id (pacman_player_id s)).


Definition send_leaderboard (player_id : string) : M unit :=
  s <- get_state ;;
  when (has_key player_id (players s))
    (me <- get_player player_id ;; emit (Send (p_websocket me) leaderboard)).

Definition send_player_stats (player_id : string) (username : json) : M unit :=
  s <- get_state ;;
  when (has_key player_id (players s))
    (me <- get_player player_id ;;
     emit (Send (p_websocket me) (player_stats username))).

Definition voice_recipient (s : Server) (sender_id : string)
  (kp : string * Player) : bool :=
  negb (String.eqb (fst kp) sender_id)
  && truthy (p_voice_chat (snd kp))
  && negb (truthy (p_muted (snd kp)))
  && existsb (Nat.eqb (p_websocket (snd kp))) (connected_clients s).

Definition broadcast_voice_audio (sender_id : string) (audio_data sequence : json)
  : M unit :=
  s <- get_state ;;
  tasks <-
    map_m (fun kp =>
             sender <- get_player sender_id ;;
             sender_name <- field (p_name sender) ;;
             ret (Send (p_websocket (snd kp))
                       (voice_audio sender_id sender_name audio_data sequence)))
          (filter (voice_recipient s sender_id) (players s)) ;;
  for_each tasks emit.

(** ** The respawn scheduler *)

Definition dot_respawn_interval : Z := 30.

(** [(now - last).total_seconds()], times being in microseconds. *)
Definition total_seconds (delta : Z) : Q := delta # 1000000.

Definition respawn_due (now : Z) (s : Server) : bool :=
  Qle_bool (inject_Z dot_respawn_interval)
           (total_seconds (now - last_respawn_time s)).

(** One iteration of the first loop: the item and whether it was restored. *)
Definition respawn_snowflake (snowflake : Dot) : M (Dot * bool) :=
  if get_eaten snowflake then
    u <- random_random ;;
    if negb (Qle_bool u (7 # 10)) then ret (with_eaten false snowflake, true)
    else ret (snowflake, false)
  else ret (snowflake, false).

Definition respawn_icicle (icicle : Icicle) : M (Icicle * bool) :=
  if i_eaten icicle then
    u <- random_random ;;
    if negb (Qle_bool u (5 # 10)) then ret (with_i_eaten false icicle, true)
    else ret (icicle, false)
  else ret (icicle, false).

Definition count_true {A : Type} (l : list (A * bool)) : Z :=
  Z.of_nat (List.length (filter snd l)).

(** No statement of the two loops can raise, so the items are written back
    once each loop is over. *)
Definition check_snowflake_respawn (now : Z) : M unit :=
  s <- get_state ;;
  when (respawn_due now s)
    (ds <- map_m respawn_snowflake (dots s) ;;
     modify (set_dots (map fst ds)) ;;
     s1 <- get_state ;;
     ps <- map_m respawn_icicle (power_pellets s1) ;;
     modify (set_power_pellets (map fst ps)) ;;
     let respawned := count_true ds + count_true ps in
     when (0 <? respawned)
       (emit (Log info) ;; modify (set_last_respawn_time now))).

Definition broadcast_game_state (now : Z) : M unit :=
  check_snowflake_respawn now ;;
  s <- get_state ;;
  tasks <-
    map_m (fun kp =>
             g <- prepare_game_state (fst kp) ;;
             me <- get_player (fst kp) ;;
             ret (Send (p_websocket me) (game_state g)))
          (players s) ;;
  for_each tasks emit.

(** ** Collisions of the hunter *)

(** The 30-pixel box of a player at [(x, y)] against a box given by its
    four sides. *)
Definition boxes_overlap (x y left right top bottom : Z) : bool :=
  (x - 15 <? right) && (left <? x + 15) && (y - 15 <? bottom) && (top <? y + 15).

Definition snowflake_hit (x y : Z) (d : Dot) : bool :=
  boxes_overlap x y (d_x d - d_size d) (d_x d + d_size d)
                    (d_y d - d_size d) (d_y d + d_size d).

Definition icicle_hit (x y : Z) (i : Icicle) : bool :=
  boxes_overlap x y (i_x i - 5) (i_x i + 5) (i_y i - 5) (i_y i + 5).

Definition ghost_hit (x y : Z) (g : Player) : bool :=
  boxes_overlap x y (p_x g - 15) (p_x g + 15) (p_y g - 15) (p_y g + 15).

Definition points_of (t : DotType) : Z :=
  match t with regular => 10 | crystal => 15 | star => 20 end.

(** [self.players[player_id]['score'] += points] *)
Definition add_score (player_id : string) (points : Z) : M unit :=
  p <- get_player player_id ;;
  v <- field (p_score p) ;;
  update_player player_id (set_score (Some (v + points))).

Definition check_snowflake_collision (player_id : string) (x y : Z) : M unit :=
  s <- get_state ;;
  for_each (seq 0 (List.length (dots s))) (fun i =>
    s <- get_state ;;
    match nth_error (dots s) i with
    | None => raise IndexError
    | Some snowflake =>
        when (negb (get_eaten snowflake) && snowflake_hit x y snowflake)
          (modify (fun s => set_dots (set_nth i (with_eaten true) (dots s)) s) ;;
           add_score player_id (points_of (d_type snowflake)) ;;
           emit (Log info))
    end).

Definition check_icicle_collision (player_id : string) (x y : Z) : M unit :=
  s <- get_state ;;
  for_each (seq 0 (List.length (power_pellets s))) (fun i =>
    s <- get_state ;;
    match nth_error (power_pellets s) i with
    | None => raise IndexError
    | Some icicle =>
        when (negb (i_eaten icicle) && icicle_hit x y icicle)
          (modify (fun s =>
             set_power_pellets (set_nth i (with_i_eaten true) (power_pellets s)) s) ;;
           update_player player_id (set_power true 300) ;;
           emit (Log info))
    end).

(** The hunter has no life left: the branch [lives <= 0]. *)
Definition pacman_died (player_id : string) : M unit :=
  emit (Log info) ;;
  let old_pacman := player_id in
  modify (set_pacman_player_id None) ;;
  p <- get_player old_pacman ;;
  match p_name p with
  | Some username =>
      score <- field (p_score p) ;;
      emit (update_player_rating username score false)
  | None => ret tt
  end ;;
  assign_roles ;;
  s <- get_state ;;
  when (has_key old_pacman (players s))
    (current_map <- current_map_data ;;
     spawn_pos <- random_choice (m_ghost_spawns current_map) ;;
     update_player old_pacman (set_pos (fst spawn_pos) (snd spawn_pos)) ;;
     c <- get_ghost_color ;;
     update_player old_pacman (set_color (Some c))).

(** The body of the loop of [check_ghost_collision]; [power_mode] was read
    before the loop. *)
Definition ghost_collision (player_id : string) (x y : Z) (power_mode : bool)
  (ghost_id : string) : M unit :=
  ghost_data <- get_player ghost_id ;;
  when (negb (String.eqb ghost_id player_id)
        && Role_eqb (p_role ghost_data) ghost
        && ghost_hit x y ghost_data)
    (if power_mode then
       emit (Log info) ;;
       current_map <- current_map_data ;;
       spawn_pos <- random_choice (m_ghost_spawns current_map) ;;
       update_player ghost_id (set_pos (fst spawn_pos) (snd spawn_pos)) ;;
       add_score player_id 200
     else
       emit (Log info) ;;
       p <- get_player player_id ;;
       lives <- field (p_lives p) ;;
       update_player player_id (set_lives (Some (lives - 1))) ;;
       if lives - 1 <=? 0 then pacman_died player_id
       else
         current_map <- current_map_data ;;
         update_player player_id
           (set_pos (fst (m_pacman_spawn current_map))
                    (snd (m_pacman_spawn current_map))) ;;
         emit (Log info)).

Definition check_ghost_collision (player_id : string) (x y : Z) : M unit :=
  p <- get_player player_id ;;
  let power_mode := p_power_mode p in
  s <- get_state ;;
  for_each (keys (players s)) (ghost_collision player_id x y power_mode).

(** ** Dispatch: [handle_message] *)

(** Lines 579-595: read the target, rename, clamp against the walls and store
    the position.  Returns the stored position. *)
Definition move_player (player_id : string) (data : json) : M (Z * Z) :=
  position <- lift (subscript data "position") ;;
  new_x <- lift (subscript position "x") ;;
  new_y <- lift (subscript position "y") ;;
  when (key_in "name" position)
    (name <- lift (subscript position "name") ;;
     update_player player_id (set_name (Some name))) ;;
  p <- get_player player_id ;;
  let old_x := p_x p in
  let old_y := p_y p in
  new_x <- lift (as_int new_x) ;;
  new_y <- lift (as_int new_y) ;;
  s <- get_state ;;
  let valid := get_valid_position (walls s) old_x old_y new_x new_y 30 in
  update_player player_id (set_pos (fst valid) (snd valid)) ;;
  ret valid.

Definition handle_position (player_id : string) (data : json) : M unit :=
  valid <- move_player player_id data ;;
  p <- get_player player_id ;;
  when (Role_eqb (p_role p) pacman)
    (check_snowflake_collision player_id (fst valid) (snd valid) ;;
     check_icicle_collision player_id (fst valid) (snd valid) ;;
     check_ghost_collision player_id (fst valid) (snd valid)) ;;
  p <- get_player player_id ;;
  when (p_power_mode p)
    (update_player player_id (set_power true (p_power_timer p - 1)) ;;
     when (p_power_timer p - 1 <=? 0)
       (update_player player_id (set_power false (p_power_timer p - 1)))).

Definition handle_voice_chat (player_id : string) (data : json) : M unit :=
  enabled <- lift (subscript data "enabled") ;;
  update_player player_id (set_voice_chat enabled) ;;
  emit (Log info).

Definition handle_voice_audio (player_id : string) (data : json) : M unit :=
  p <- get_player player_id ;;
  when (truthy (p_voice_chat p) && negb (truthy (p_muted p)))
    (audio_data <- lift (subscript data "audio_data") ;;
     sequence <- lift (subscript data "sequence") ;;
     broadcast_voice_audio player_id audio_data sequence).

(** [target_player in self.players]: a list or a dict is unhashable, a value
    that is not a string is no key of the registry. *)
Definition in_players (target_player : json) (s : Server) : Res (option string) :=
  match target_player with
  | JStr t => Ok (if has_key t (players s) then Some t else None)
  | JList _ | JDict _ => Raise TypeError
  | _ => Ok None
  end.

Definition handle_mute_player (player_id : string) (data : json) : M unit :=
  target_player <- lift (subscript data "player_id") ;;
  s <- get_state ;;
  found <- lift (in_players target_player s) ;;
  match found with
  | Some t =>
      muted <- lift (subscript data "muted") ;;
      update_player t (set_muted muted) ;;
      emit (Log info)
  | None => ret tt
  end.

(** The body of the loop that moves every player to a spawn point. *)
Definition respawn_player (current_map_data : Map) (pid : string) : M unit :=
  player <- get_player pid ;;
  if Role_eqb (p_role player) pacman then
    update_player pid (set_pos (fst (m_pacman_spawn current_map_data))
                               (snd (m_pacman_spawn current_map_data)))
  else
    spawn_pos <- random_choice (m_ghost_spawns current_map_data) ;;
    update_player pid (set_pos (fst spawn_pos) (snd spawn_pos)).

Definition handle_change_map (data : json) : M unit :=
  new_map <- lift (subscript data "map_id") ;;
  new_map <- lift (as_int new_map) ;;
  s <- get_state ;;
  when ((0 <=? new_map) && (new_map <? Z.of_nat (List.length (maps s))))
    (modify (set_current_map (Z.to_nat new_map)) ;;
     current_map_data <- current_map_data ;;
     s <- get_state ;;
     for_each (keys (players s)) (respawn_player current_map_data) ;;
     emit (Log info)).

Definition handle_get_leaderboard (player_id : string) : M unit :=
  emit get_leaderboard ;;
  send_leaderboard player_id.

Definition handle_get_player_stats (player_id : string) (data : json) : M unit :=
  when (key_in "username" data)
    (username <- lift (subscript data "username") ;;
     emit (get_player_rating username) ;;
     send_player_stats player_id username).

(** The [if] / [elif] chain on [data['type']]. *)
Definition dispatch (player_id : string) (data : json) : M unit :=
  type <- lift (subscript data "type") ;;
  if is_str type "position" then handle_position player_id data
  else if is_str type "voice_chat" then handle_voice_chat player_id data
  else if is_str type "voice_audio" then handle_voice_audio player_id data
  else if is_str type "mute_player" then handle_mute_player player_id data
  else if is_str type "change_map" then handle_change_map data
  else if is_str type "get_leaderboard" then handle_get_leaderboard player_id
  else if is_str type "get_player_stats" then handle_get_player_stats player_id data
  else ret tt.

(** [handle_message]: the only exception caught here is the one of
    [json.loads]; every other one leaves the method. *)
Definition handle_message (player_id : string) (message : payload) (now : Z)
  : M unit :=
  match message with
  | Undecodable => emit (Log error)
  | Decoded data =>
      dispatch player_id data ;;
      broadcast_game_state now
  end.

(** ** Connections: [handle_client] and [cleanup_player] *)

Definition cleanup_player (player_id : string) : M unit :=
  s <- get_state ;;
  when (has_key player_id (players s))
    (p <- get_player player_id ;;
     when (is_pacman_id player_id s
           && match p_name p with Some _ => true | None => false end)
       (username <- field (p_name p) ;;
        score <- field (p_score p) ;;
        emit (update_player_rating username score true) ;;
        emit (Log info)) ;;
     when (Role_eqb (p_role p) ghost)
       (color <- field (p_color p) ;;
        s <- get_state ;;
        when (color_used color s)
          (modify (set_used_ghost_colors
                     (set_remove Color_eq_dec color (used_ghost_colors s))))) ;;
     when (is_pacman_id player_id s)
       (modify (set_pacman_player_id None) ;; emit (Log info)) ;;
     s <- get_state ;;
     when (existsb (Nat.eqb (p_websocket p)) (connected_clients s))
       (modify (set_connected_clients
                  (set_remove Nat.eq_dec (p_websocket p) (connected_clients s)))) ;;
     modify (fun s => set_players (dict_del player_id (players s)) s) ;;
     assign_roles).

(** [str(self.player_counter)] *)
Definition str (n : nat) : string := NilEmpty.string_of_uint (Nat.to_uint n).

(** The dict [handle_client] stores for a new connection. *)
Definition new_player (current_map : Map) (color : Color) (websocket : nat)
  (player_id : string) : Player :=
  mkPlayer (fst (m_pacman_spawn current_map)) (snd (m_pacman_spawn current_map))
    ghost (Some color) (Some 0) false 0 (Some 3) websocket
    (Some (JStr ("Player" ++ player_id))) (JBool true) (JBool false) 0 0 0.

(** [handle_client] up to the [try]: registration. *)
Definition register (websocket : nat) : M string :=
  modify (fun s => set_player_counter (S (player_counter s)) s) ;;
  s <- get_state ;;
  let player_id := str (player_counter s) in
  modify (fun s => set_connected_clients
                     (set_add Nat.eq_dec websocket (connected_clients s)) s) ;;
  current_map <- current_map_data ;;
  color <- get_ghost_color ;;
  modify (fun s => set_players
                     (dict_set player_id
                        (new_player current_map color websocket player_id)
                        (players s)) s) ;;
  assign_roles ;;
  emit (Log info) ;;
  ret player_id.

(** [try: ... except: ...] *)
Definition catch {A : Type} (m : M A) (handler : Exn -> M A) : M A :=
  fun s =>
    match m s with
    | (Ok a, s1, e1) => (Ok a, s1, e1)
    | (Raise x, s1, e1) =>
        match handler x s1 with (r, s2, e2) => (r, s2, e1 ++ e2) end
    end.




(** The socket closes ([ConnectionClosed]). *)
Definition disconnect (player_id : string) : M unit :=
  emit (Log info) ;; cleanup_player player_id.

(** ** Reachable states *)

Inductive Event : Type :=
| Register (websocket : nat)
| Dispatch (player_id : string) (message : payload) (now : Z)
| Unregister (player_id : string).

Definition step (e : Event) : M unit :=
  match e with
  | Register websocket => register websocket ;; ret tt
  | Dispatch player_id message now => handle_message player_id message now
  | Unregister player_id => cleanup_player player_id
  end.

(** States the server can be in: after the constructor and after any sequence
    of registrations, dispatches and unregistrations, whatever the random
    module returns ([reach_rnd] replaces the variates still to come). *)
Inductive reachable : Server -> Prop :=
| reach_init : forall c now tape, reachable (init c now tape)
| reach_step : forall s e, reachable s -> reachable (post (step e) s)
| reach_rnd : forall s tape, reachable s -> reachable (set_rnd tape s).

(** Running a list of events from a state. *)
Fixpoint run (es : list Event) (s : Server) : Server :=
  match es with
  | [] => s
  | e :: es' => run es' (post (step e) s)
  end.

(** ** Well-formed registries *)

Fixpoint nodup_keys (d : list (string * Player)) : bool :=
  match d with
  | [] => true
  | (k, _) :: d' => negb (has_key k d') && nodup_keys d'
  end.

(** The role a player must have, given who the hunter is. *)
Definition expected_role (s : Server) (player_id : string) : Role :=
  if is_pacman_id player_id s then pacman else ghost.

Definition roles_ok (s : Server) : bool :=
  forallb (fun kp => Role_eqb (p_role (snd kp)) (expected_role s (fst kp)))
          (players s)
  && match players s with [] => true | _ :: _ => negb (pacman_missing s) end.

Definition is_some {A : Type} (o : option A) : bool :=
  match o with Some _ => true | None => false end.

(** Every key of a player's dict that the code tests for is there. *)
Definition complete (p : Player) : bool :=
  is_some (p_color p) && is_some (p_score p) && is_some (p_lives p)
  && is_some (p_name p).

Definition fields_ok (s : Server) : bool :=
  forallb (fun kp => complete (snd kp)) (players s).

Definition wf (s : Server) : bool :=
  nodup_keys (players s) && fields_ok s && roles_ok s.

(** The number of players whose role is ['pacman']. *)
Definition hunters (s : Server) : nat :=
  List.length (filter (fun kp => Role_eqb (p_role (snd kp)) pacman) (players s)).

(** ** Specifications of computations *)

(** [hoare P m Q E]: run from a state satisfying [P], [m] either returns [a]
    in a state satisfying [Q a] or raises in a state satisfying [E]. *)
Definition hoare {A : Type} (P : Server -> Prop) (m : M A)
  (Q : A -> Server -> Prop) (E : Server -> Prop) : Prop :=
  forall s, P s ->
    match m s with
    | (Ok a, s', _) => Q a s'
    | (Raise _, s', _) => E s'
    end.

(** [m] keeps [I], however it ends. *)
Definition keeps {A : Type} (I : Server -> Prop) (m : M A) : Prop :=
  hoare I m (fun _ => I) I.

(** [m] returns (it does not raise) from a state satisfying [P]. *)
Definition returns {A : Type} (P : Server -> Prop) (m : M A)
  (Q : A -> Server -> Prop) : Prop :=
  hoare P m Q (fun _ => False).

(** ** The wall test, as geometry *)



(** ** A concrete server *)

(** One outcome of the random generators of the constructor: every
    collectible of every arena is a regular snowflake of size 3 at
    [(400, 500)], the hunter's spawn point of the first arena. *)
Definition sample_content : Content :=
  mkContent
    (fun i => repeat (mkDot 400 500 3 (4 # 5) regular None)
                     (nth (i - 1) [120; 100; 150; 110; 130]%nat 0%nat))
    (fun i => repeat (mkSnowflake 500 300 3 1 (9 # 10))
                     (nth (i - 1) [80; 60; 100; 70; 90]%nat 0%nat))
    (map (fun xy => mkWall (fst xy) (snd xy) 40 20 [50; 200; 200])
       [(730, 340); (690, 440); (580, 513); (430, 540); (280, 513); (170, 440);
        (130, 340); (170, 240); (280, 167); (430, 140); (580, 167); (690, 240)]).

(** The server right after start-up, at time 0. *)
Definition server0 : Server := init sample_content 0 [].

(** Decoded client messages. *)
Definition position_message (x y : Z) : payload :=
  Decoded (JDict [("type", JStr "position");
                  ("position", JDict [("x", JInt x); ("y", JInt y)])]).

Definition change_map_message (map_id : Z) : payload :=
  Decoded (JDict [("type", JStr "change_map"); ("map_id", JInt map_id)]).

Definition mute_message (target : string) (muted : bool) : payload :=
  Decoded (JDict [("type", JStr "mute_player"); ("player_id", JStr target);
                  ("muted", JBool muted)]).

Definition voice_audio_message (audio : string) (sequence : Z) : payload :=
  Decoded (JDict [("type", JStr "voice_audio"); ("audio_data", JStr audio);
                  ("sequence", JInt sequence)]).

(** ** What role assignment writes *)

(** The record of the hunter after its iteration of the loop of
    [assign_roles]. *)
Definition as_pacman (p : Player) : Player :=
  let p1 := set_color (Some pacman_color) (set_role pacman p) in
  let p2 := match p_lives p1 with None => set_lives (Some 3) p1 | Some _ => p1 end in
  match p_score p2 with None => set_score (Some 0) p2 | Some _ => p2 end.

(** A player on which another call of [assign_roles] has nothing to do. *)
Definition settled_player (s : Server) (k : string) (p : Player) : Prop :=
  p_role p = expected_role s k
  /\ p_color p <> None
  /\ (is_pacman_id k s = true ->
      p_color p = Some pacman_color /\ p_lives p <> None /\ p_score p <> None).

Definition settled (s : Server) : Prop :=
  (forall k p, assoc k (players s) = Some p -> settled_player s k p)
  /\ (players s = [] \/ pacman_missing s = false).

(** ** One draw from the random tape *)

(** The variate the next call of the [random] module uses and the server
    after that call. *)
Definition draw (s : Server) : Q :=
  match rnd s with [] => 0%Q | u :: _ => u end.

Definition pop (s : Server) : Server :=
  match rnd s with [] => s | _ :: t => set_rnd t s end.

(** The item [random.choice] picks in the state [s]. *)
Definition chosen {A : Type} (seq : list A) (dflt : A) (s : Server) : A :=
  nth (choice_index (draw s) (List.length seq)) seq dflt.

(** What a call of [assign_roles] may change in a player's dict: the role and
    the colour, and it adds ['lives'] and ['score'] if they are missing. *)
Definition reassigned (p p' : Player) : Prop :=
  p_x p' = p_x p /\ p_y p' = p_y p
  /\ p_power_mode p' = p_power_mode p /\ p_power_timer p' = p_power_timer p
  /\ p_websocket p' = p_websocket p /\ p_name p' = p_name p
  /\ p_voice_chat p' = p_voice_chat p /\ p_muted p' = p_muted p
  /\ (p_lives p <> None -> p_lives p' = p_lives p)
  /\ (p_score p <> None -> p_score p' = p_score p)
  /\ (complete p = true -> complete p' = true)
  /\ (p_color p <> None ->
      p_color p' = p_color p \/ p_color p' = Some pacman_color).

(** The set of used colours and the random tape are the same. *)
Definition same_pool (s s' : Server) : Prop :=
  used_ghost_colors s' = used_ghost_colors s /\ rnd s' = rnd s.

(** Every registered player has a colour. *)
Definition coloured (s : Server) : Prop :=
  forall k p, assoc k (players s) = Some p -> p_color p <> None.

(** The fields of the server that role assignment never writes. *)
Definition same_arena (s s' : Server) : Prop :=
  maps s' = maps s /\ current_map s' = current_map s
  /\ connected_clients s' = connected_clients s
  /\ last_respawn_time s' = last_respawn_time s
  /\ player_counter s' = player_counter s.

(** ** Invariants of the registry, as propositions *)

(** Keys are unique and every player's dict is complete. *)
Definition registry_ok (s : Server) : Prop :=
  nodup_keys (players s) = true
  /\ forall k p, assoc k (players s) = Some p -> complete p = true.

(** Roles agree with [pacman_player_id], which names a registered player
    unless nobody is registered. *)
Definition roles_assigned (s : Server) : Prop :=
  (forall k p, assoc k (players s) = Some p -> p_role p = expected_role s k)
  /\ (players s = [] \/ pacman_missing s = false).

Definition WF (s : Server) : Prop := registry_ok s /\ roles_assigned s.

(** ** The respawn pass, item by item *)

(** The [n]-th variate the random module will return. *)
Definition variate (s : Server) (n : nat) : Q := nth n (rnd s) 0%Q.

(** How many of the first [i] collectibles (power items) are consumed. *)
Definition eaten_dots_before (s : Server) (i : nat) : nat :=
  List.length (filter get_eaten (firstn i (dots s))).

Definition eaten_icicles_before (s : Server) (i : nat) : nat :=
  List.length (filter i_eaten (firstn i (power_pellets s))).

Definition eaten_dots (s : Server) : nat :=
  List.length (filter get_eaten (dots s)).

(** [u > threshold] *)
Definition exceeds (u threshold : Q) : bool := negb (Qle_bool u threshold).

(** A pass over the state [s] restores the [i]-th collectible: it is consumed
    and its own variate exceeds 0.7. *)
Definition dot_restored (s : Server) (i : nat) (d : Dot) : bool :=
  get_eaten d && exceeds (variate s (eaten_dots_before s i)) (7 # 10).

(** A pass restores the [i]-th power item: it is consumed and its own variate
    exceeds 0.5.  The power items draw after all the collectibles. *)
Definition icicle_restored (s : Server) (i : nat) (p : Icicle) : bool :=
  i_eaten p
  && exceeds (variate s (eaten_dots s + eaten_icicles_before s i)) (5 # 10).

(** A pass over [s] restores at least one item. *)
Definition restores_some (s : Server) : Prop :=
  (exists i d, nth_error (dots s) i = Some d /\ dot_restored s i d = true)
  \/ (exists i p, nth_error (power_pellets s) i = Some p
                  /\ icicle_restored s i p = true).

(** The server after [n] calls of the random module. *)
Definition drop (n : nat) (s : Server) : Server := set_rnd (skipn n (rnd s)) s.


(** A loop of the pass, as a function of the items and of the tape: a
    consumed item takes the next variate and is restored if the variate
    exceeds the threshold. *)
Fixpoint restore {A : Type} (eaten : A -> bool) (clear : A -> A) (threshold : Q)
  (items : list A) (tape : list Q) : list (A * bool) :=
  match items with
  | [] => []
  | a :: l =>
      if eaten a then
        (if exceeds (nth 0 tape 0%Q) threshold then (clear a, true) else (a, false))
        :: restore eaten clear threshold l (tl tape)
      else (a, false) :: restore eaten clear threshold l tape
  end.


(** ** Spawn points *)

(** The player stands on a spawn point of arena [m] that fits its role. *)
Definition at_spawn (m : Map) (p : Player) : Prop :=
  match p_role p with
  | pacman => (p_x p, p_y p) = m_pacman_spawn m
  | ghost => In (p_x p, p_y p) (m_ghost_spawns m)
  end.

(** Only the registry and the random tape differ. *)
Definition same_but_players (s s' : Server) : Prop :=
  pacman_player_id s' = pacman_player_id s
  /\ maps s' = maps s /\ current_map s' = current_map s
  /\ used_ghost_colors s' = used_ghost_colors s
  /\ connected_clients s' = connected_clients s
  /\ player_counter s' = player_counter s
  /\ last_respawn_time s' = last_respawn_time s.

(** [p'] is [p] at another position. *)
Definition moved (p p' : Player) : Prop := p' = set_pos (p_x p') (p_y p') p.

(** ** Reading the effects *)

Definition is_voice (e : Effect) : bool :=
  match e with Send _ (voice_audio _ _ _ _) => true | _ => false end.

(** The relayed audio messages among the effects, in order. *)
Definition voice_sends (es : list Effect) : list Effect := filter is_voice es.

Definition is_rating_update (e : Effect) : bool :=
  match e with update_player_rating _ _ _ => true | _ => false end.

(** The calls of [db.update_player_rating] among the effects, in order. *)
Definition rating_updates (es : list Effect) : list Effect :=
  filter is_rating_update es.

(** A log line or a snapshot sent to a player. *)
Definition routine (e : Effect) : Prop :=
  match e with
  | Log _ => True
  | Send _ (game_state _) => True
  | _ => False
  end.

(** ** Malformed messages *)



(** ** The colour pool *)

(** Some colour of the pool is not marked as used. *)
Definition unused_remains (s : Server) : Prop :=
  exists c, In c ghost_colors_available /\ color_used c s = false.

Definition exhausted (s : Server) : Prop :=
  forall c, In c ghost_colors_available -> color_used c s = true.

(** Every colour of the pool that a connected player wears is marked. *)
Definition held_marked (s : Server) : Prop :=
  forall k p c,
    assoc k (players s) = Some p -> p_color p = Some c ->
    In c ghost_colors_available -> color_used c s = true.

(** No two connected players wear the same colour of the pool. *)
Definition held_distinct (s : Server) : Prop :=
  forall k1 k2 p1 p2 c,
    assoc k1 (players s) = Some p1 -> assoc k2 (players s) = Some p2 ->
    p_color p1 = Some c -> p_color p2 = Some c ->
    In c ghost_colors_available -> k1 = k2.

Definition colors_ok (s : Server) : Prop :=
  NoDup (used_ghost_colors s) /\ held_marked s /\ held_distinct s.

(** What registrations and dispatches keep: the pool is sound unless it has
    been exhausted. *)
Definition pool_inv (s : Server) : Prop :=
  registry_ok s /\ NoDup (used_ghost_colors s)
  /\ (exhausted s \/ (held_marked s /\ held_distinct s)).

(** ** Auxiliary states and functions of the proofs *)

(** While the hunter's dict is in the registry. *)
Definition WF_with (pid : string) (s : Server) : Prop :=
  WF s /\ has_key pid (players s) = true.

(** The two loops of a pass. *)
Definition pass_dots (s : Server) : list (Dot * bool) :=
  restore get_eaten (with_eaten false) (7 # 10) (dots s) (rnd s).

Definition pass_icicles (s : Server) : list (Icicle * bool) :=
  restore i_eaten (with_i_eaten false) (5 # 10) (power_pellets s)
          (skipn (eaten_dots s) (rnd s)).

Definition after_pass (s : Server) : Server :=
  set_power_pellets (map fst (pass_icicles s))
    (drop (List.length (filter i_eaten (power_pellets s)))
       (set_dots (map fst (pass_dots s)) (drop (eaten_dots s) s))).

(** The first player has eaten every snowflake of the first arena at time 0;
    the next variate is 0.9. *)
Definition server_eaten : Server :=
  set_rnd [9 # 10]
    (run [Register 1%nat; Dispatch "1" (position_message 400 500) 0] server0).

(** Three players; the second mutes the third. *)
Definition server_muted : Server :=
  run [Register 1%nat; Register 2%nat; Register 3%nat;
       Dispatch "2" (mute_message "3" true) 0] server0.

(** Two players on the sample server; the hunter has been caught twice by
    the evader standing on its spawn point and has one life left. *)
Definition server_last_life : Server :=
  run [Register 1%nat; Register 2%nat;
       Dispatch "1" (position_message 400 500) 0;
       Dispatch "1" (position_message 400 500) 0] server0.

(** ** The layout of the arenas *)

(** What is fixed in a collectible and in a power item: everything but the
    ['eaten'] flag. *)
Definition dot_shape (d : Dot) : Dot :=
  mkDot (d_x d) (d_y d) (d_size d) (d_brightness d) (d_type d) None.

Definition icicle_shape (i : Icicle) : Icicle := mkIcicle (i_x i) (i_y i) false.

(** An arena without the ['eaten'] flags of its items. *)
Definition map_layout (m : Map) : Map :=
  mkMap (m_name m) (m_walls m) (map dot_shape (m_dots m))
    (map icicle_shape (m_power_pellets m))
    (m_snowflakes m) (m_pacman_spawn m) (m_ghost_spawns m) (m_background m).

Definition layout (s : Server) : list Map := map map_layout (maps s).

(** The arenas are those the constructor built from [c], up to the flags,
    and the index of the active one is in range. *)
Definition arenas_of (c : Content) (s : Server) : Prop :=
  layout s = map map_layout (generate_winter_maps c)
  /\ (current_map s < 5)%nat.

(** ** Player ids *)

(** Every registered id is the decimal numeral of a counter value already
    used. *)
Definition ids_bounded (ks : list string) (n : nat) : Prop :=
  forall k, In k ks -> exists m, k = str m /\ (1 <= m <= n)%nat.

(** Everything but the set of used colours and the random tape. *)
Definition same_but_pool (s s' : Server) : Prop :=
  players s' = players s
  /\ pacman_player_id s' = pacman_player_id s
  /\ player_counter s' = player_counter s
  /\ maps s' = maps s /\ current_map s' = current_map s
  /\ connected_clients s' = connected_clients s
  /\ last_respawn_time s' = last_respawn_time s.

(** ** Role assignment, player by player *)


(** ** Snapshots *)

(** The snapshot [g] is the one [prepare_game_state] builds for player
    [pid], whose dict is [p], in the state [s]: one view per registered
    player in the order of the registry, the items not eaten, the active
    arena, and the recipient's own id and role. *)
Definition snapshot_for (s : Server) (pid : string) (p : Player) (g : Snapshot)
  : Prop :=
  Forall2 (fun kp kv => fst kv = fst kp /\ player_view (fst kp) (snd kp) = Ok (snd kv))
          (players s) (sn_players g)
  /\ sn_dots g = filter (fun d => negb (get_eaten d)) (dots s)
  /\ sn_power_pellets g = filter (fun i => negb (i_eaten i)) (power_pellets s)
  /\ sn_walls g = walls s /\ sn_snowflakes g = snowflakes s
  /\ sn_current_map g = current_map s
  /\ sn_map_name g = m_name (cur s) /\ sn_map_theme g = m_background (cur s)
  /\ sn_your_role g = p_role p /\ sn_your_id g = pid
  /\ sn_pacman_id g = pacman_player_id s.

(** A call of the logger. *)
Definition log_only (e : Effect) : Prop :=
  match e with Log _ => True | _ => False end.

Definition is_send (e : Effect) : bool :=
  match e with Send _ _ => true | _ => false end.

(** The messages written to sockets among the effects, in order. *)
Definition sends (es : list Effect) : list Effect := filter is_send es.

(** ** What the hunter collects *)

(** The hunter at [(x, y)] collects the snowflake: it is not eaten and its
    box meets the hunter's. *)
Definition collectable (x y : Z) (d : Dot) : bool :=
  negb (get_eaten d) && snowflake_hit x y d.

Definition collect (x y : Z) (d : Dot) : Dot :=
  if collectable x y d then with_eaten true d else d.

(** The points of the snowflakes of [ds] the hunter collects at [(x, y)]. *)
Definition points_collected (x y : Z) (ds : list Dot) : Z :=
  fold_right Z.add 0
    (map (fun d => points_of (d_type d)) (filter (collectable x y) ds)).

(** The hunter at [(x, y)] breaks the icicle. *)
Definition breakable (x y : Z) (i : Icicle) : bool :=
  negb (i_eaten i) && icicle_hit x y i.

Definition break (x y : Z) (i : Icicle) : Icicle :=
  if breakable x y i then with_i_eaten true i else i.

(** The bodies of the loops of [check_snowflake_collision] and
    [check_icicle_collision], for the item of index [i]. *)
Definition snowflake_body (player_id : string) (x y : Z) (i : nat) : M unit :=
  s <- get_state ;;
  match nth_error (dots s) i with
  | None => raise IndexError
  | Some snowflake =>
      when (negb (get_eaten snowflake) && snowflake_hit x y snowflake)
        (modify (fun s => set_dots (set_nth i (with_eaten true) (dots s)) s) ;;
         add_score player_id (points_of (d_type snowflake)) ;;
         emit (Log info))
  end.

Definition icicle_body (player_id : string) (x y : Z) (i : nat) : M unit :=
  s <- get_state ;;
  match nth_error (power_pellets s) i with
  | None => raise IndexError
  | Some icicle =>
      when (negb (i_eaten icicle) && icicle_hit x y icicle)
        (modify (fun s =>
           set_power_pellets (set_nth i (with_i_eaten true) (power_pellets s)) s) ;;
         update_player player_id (set_power true 300) ;;
         emit (Log info))
  end.

(** ** A position message, field by field *)

(** The dict after lines 583-584: the name of the message, if it has one. *)
Definition renamed (position : json) (p : Player) : Player :=
  match position with
  | JDict d =>
      match assoc "name" d with
      | Some name => set_name (Some name) p
      | None => p
      end
  | _ => p
  end.

(** The dict after lines 604-607: in power mode the timer goes down by one
    and the mode ends when it reaches zero. *)
Definition tick (p : Player) : Player :=
  if p_power_mode p
  then set_power (negb (p_power_timer p - 1 <=? 0)) (p_power_timer p - 1) p
  else p.

(** ** Scores and lives over time *)

(** If player [k] is registered, its score is at least [sc] and its lives
    at most [l]. *)
Definition score_lives_bound (k : string) (sc l : Z) (s : Server) : Prop :=
  forall p, assoc k (players s) = Some p ->
    exists sc' l',
      p_score p = Some sc' /\ sc <= sc' /\ p_lives p = Some l' /\ l' <= l.

(** The former hunter has lost its last life and the other player has been
    drawn as the hunter. *)
Definition server_after_death : Server :=
  run [Dispatch "1" (position_message 400 500) 0] (set_rnd [1 # 2] server_last_life).

(** ** Power mode *)



(** * Proofs *)

(** ** Rules for the monad *)

Section Rules.

Context {A B : Type}.
Implicit Types (P : Server -> Prop) (E : Server -> Prop).

Lemma hoare_ret P (a : A) (Q : A -> Server -> Prop) E :
  (forall s, P s -> Q a s) -> hoare P (ret a) Q E.
Proof. intros H s Hs. simpl. auto. Qed.

Lemma hoare_raise P (x : Exn) (Q : A -> Server -> Prop) E :
  (forall s, P s -> E s) -> hoare P (raise x) Q E.
Proof. intros H s Hs. simpl. auto. Qed.

Lemma hoare_bind P (m : M A) (f : A -> M B) (Q : A -> Server -> Prop)
  (R : B -> Server -> Prop) E :
  hoare P m Q E -> (forall a, hoare (Q a) (f a) R E) -> hoare P (bind m f) R E.
Proof.
  intros Hm Hf s Hs. unfold bind. specialize (Hm s Hs).
  destruct (m s) as [[[a | x] s1] e1]; auto.
  specialize (Hf a s1 Hm). destruct (f a s1) as [[[b | y] s2] e2]; auto.
Qed.

Lemma hoare_conseq P P' (m : M A) (Q Q' : A -> Server -> Prop) E E' :
  hoare P' m Q' E' ->
  (forall s, P s -> P' s) -> (forall a s, Q' a s -> Q a s) ->
  (forall s, E' s -> E s) ->
  hoare P m Q E.
Proof.
  intros H HP HQ HE s Hs. specialize (H s (HP s Hs)).
  destruct (m s) as [[[a | x] s1] e1]; auto.
Qed.

Lemma hoare_lift P (r : Res A) (Q : A -> Server -> Prop) E :
  (forall s, P s -> match r with Ok a => Q a s | Raise _ => E s end) ->
  hoare P (lift r) Q E.
Proof. intros H s Hs. specialize (H s Hs). destruct r; simpl; auto. Qed.

Lemma hoare_field P (o : option A) (Q : A -> Server -> Prop) E :
  (forall s, P s -> match o with Some a => Q a s | None => E s end) ->
  hoare P (field o) Q E.
Proof. intros H s Hs. specialize (H s Hs). destruct o; simpl; auto. Qed.

Lemma hoare_catch P (m : M A) (h : Exn -> M A) (Q : A -> Server -> Prop)
  (E' : Server -> Prop) E :
  hoare P m Q E' -> (forall x, hoare E' (h x) Q E) -> hoare P (catch m h) Q E.
Proof.
  intros Hm Hh s Hs. unfold catch. specialize (Hm s Hs).
  destruct (m s) as [[[a | x] s1] e1]; auto.
  specialize (Hh x s1 Hm). destruct (h x s1) as [[[b | y] s2] e2]; auto.
Qed.

End Rules.

Lemma hoare_get_state P (Q : Server -> Server -> Prop) E :
  (forall s, P s -> Q s s) -> hoare P get_state Q E.
Proof. intros H s Hs. simpl. auto. Qed.

Lemma hoare_modify P f (Q : unit -> Server -> Prop) E :
  (forall s, P s -> Q tt (f s)) -> hoare P (modify f) Q E.
Proof. intros H s Hs. simpl. auto. Qed.

Lemma hoare_emit P e (Q : unit -> Server -> Prop) E :
  (forall s, P s -> Q tt s) -> hoare P (emit e) Q E.
Proof. intros H s Hs. simpl. auto. Qed.

Lemma hoare_when P b m (Q : unit -> Server -> Prop) E :
  (b = true -> hoare P m Q E) -> (b = false -> forall s, P s -> Q tt s) ->
  hoare P (when b m) Q E.
Proof.
  intros H1 H2. destruct b; simpl; auto. intros s Hs. simpl. auto.
Qed.

Lemma hoare_get_player P pid (Q : Player -> Server -> Prop) E :
  (forall s p, P s -> assoc pid (players s) = Some p -> Q p s) ->
  (forall s, P s -> assoc pid (players s) = None -> E s) ->
  hoare P (get_player pid) Q E.
Proof.
  intros H1 H2 s Hs. unfold get_player.
  destruct (assoc pid (players s)) eqn:Ha; auto.
Qed.

Lemma hoare_update_player P pid f (Q : unit -> Server -> Prop) E :
  (forall s p, P s -> assoc pid (players s) = Some p ->
     Q tt (set_players (upd pid f (players s)) s)) ->
  (forall s, P s -> assoc pid (players s) = None -> E s) ->
  hoare P (update_player pid f) Q E.
Proof.
  intros H1 H2 s Hs. unfold update_player.
  destruct (assoc pid (players s)) eqn:Ha; eauto.
Qed.

Lemma hoare_random_random P (Q : Q -> Server -> Prop) E :
  (forall s u, P s -> Q u s) -> (forall s u t, P s -> Q u (set_rnd t s)) ->
  hoare P random_random Q E.
Proof.
  intros H1 H2 s Hs. unfold random_random. destruct (rnd s); auto.
Qed.

Lemma nth_in_or_default {A : Type} (n : nat) (l : list A) (d : A) :
  In d l -> In (nth n l d) l.
Proof.
  intros Hd. destruct (nth_in_or_default n l d) as [H | H]; auto.
  rewrite H. exact Hd.
Qed.

Lemma hoare_random_choice {A : Type} P (l : list A) (Q : A -> Server -> Prop) E :
  (forall s a, P s -> In a l -> Q a s) ->
  (forall s a t, P s -> In a l -> Q a (set_rnd t s)) ->
  (forall s, P s -> l = [] -> E s) ->
  hoare P (random_choice l) Q E.
Proof.
  intros H1 H2 H3. destruct l as [| a l']; simpl.
  - apply hoare_raise. auto.
  - eapply hoare_bind.
    + apply hoare_random_random with (Q := fun _ s => P s \/ exists t s0, P s0 /\ s = set_rnd t s0).
      * auto.
      * intros s u t Hs. right. eauto.
    + intros u. apply hoare_ret. intros s Hs.
      assert (Hin : In (nth (choice_index u (S (List.length l'))) (a :: l') a) (a :: l'))
        by (apply nth_in_or_default; left; reflexivity).
      destruct Hs as [Hs | (t & s0 & Hs & Heq)]; [auto | rewrite Heq; auto].
Qed.

Lemma hoare_current_map_data P (Q : Map -> Server -> Prop) E :
  (forall s m, P s -> nth_error (maps s) (current_map s) = Some m -> Q m s) ->
  (forall s, P s -> E s) ->
  hoare P current_map_data Q E.
Proof.
  intros H1 H2 s Hs. unfold current_map_data.
  destruct (nth_error (maps s) (current_map s)) eqn:Hn; auto.
Qed.

(** A loop whose invariant is indexed by the items still to be visited. *)
Lemma hoare_for_each {A : Type} (I : list A -> Server -> Prop) (l : list A)
  (body : A -> M unit) E :
  (forall a rest, hoare (I (a :: rest)) (body a) (fun _ => I rest) E) ->
  hoare (I l) (for_each l body) (fun _ => I []) E.
Proof.
  intros Hb. induction l as [| a l IH]; simpl.
  - apply hoare_ret. auto.
  - eapply hoare_bind; [apply Hb | intros u; apply IH].
Qed.

Lemma keeps_for_each {A : Type} (I : Server -> Prop) (l : list A)
  (body : A -> M unit) :
  (forall a, keeps I (body a)) -> keeps I (for_each l body).
Proof.
  intros Hb. unfold keeps.
  apply (hoare_for_each (fun _ => I) l body I). intros a _. apply Hb.
Qed.

Lemma hoare_map_m {A B : Type} (I : Server -> Prop) (l : list A)
  (body : A -> M B) E :
  (forall a, hoare I (body a) (fun _ => I) E) ->
  hoare I (map_m body l) (fun _ => I) E.
Proof.
  intros Hb. induction l as [| a l IH]; simpl.
  - apply hoare_ret. auto.
  - eapply hoare_bind; [apply Hb |]. intros b.
    eapply hoare_bind; [apply IH |]. intros bs. apply hoare_ret. auto.
Qed.

(** ** The registry as a dict *)

Section Dict.

Implicit Types (k : string) (d : list (string * Player)) (f : Player -> Player).

Lemma assoc_upd_eq k f d : assoc k (upd k f d) = option_map f (assoc k d).
Proof.
  induction d as [| [k' v] d IH]; simpl; auto.
  destruct (String.eqb k k') eqn:Hk; simpl; rewrite Hk; auto.
Qed.

Lemma assoc_upd_neq k k' f d : k <> k' -> assoc k (upd k' f d) = assoc k d.
Proof.
  intros Hne. induction d as [| [k0 v] d IH]; simpl; auto.
  destruct (String.eqb k' k0) eqn:Hk; simpl.
  - apply String.eqb_eq in Hk. subst k0.
    destruct (String.eqb k k') eqn:Hk'; auto.
    apply String.eqb_eq in Hk'. contradiction.
  - destruct (String.eqb k k0); auto.
Qed.

Lemma assoc_upd k k' f d :
  assoc k (upd k' f d)
  = if String.eqb k k' then option_map f (assoc k d) else assoc k d.
Proof.
  destruct (String.eqb k k') eqn:Hk.
  - apply String.eqb_eq in Hk. subst. apply assoc_upd_eq.
  - apply String.eqb_neq in Hk. apply assoc_upd_neq; auto.
Qed.

Lemma keys_upd k f d : keys (upd k f d) = keys d.
Proof.
  induction d as [| [k' v] d IH]; simpl; auto.
  destruct (String.eqb k k'); simpl; auto. f_equal. exact IH.
Qed.

Lemma upd_id k f d :
  (forall p, assoc k d = Some p -> f p = p) -> upd k f d = d.
Proof.
  induction d as [| [k' v] d IH]; simpl; auto. intros H.
  destruct (String.eqb k k') eqn:Hk.
  - rewrite (H v); auto.
  - rewrite IH; auto.
Qed.

Lemma has_key_In k d : has_key k d = true <-> In k (keys d).
Proof.
  unfold has_key. induction d as [| [k' v] d IH]; simpl.
  - split; [discriminate | tauto].
  - destruct (String.eqb k k') eqn:Hk.
    + apply String.eqb_eq in Hk. subst. tauto.
    + apply String.eqb_neq in Hk. rewrite IH. split; [tauto |].
      intros [H | H]; [congruence | exact H].
Qed.

Lemma has_key_assoc k d : has_key k d = true <-> exists p, assoc k d = Some p.
Proof.
  unfold has_key. destruct (assoc k d).
  - split; eauto.
  - split; [discriminate | intros [p Hp]; discriminate].
Qed.

Lemma has_key_upd k k' f d : has_key k (upd k' f d) = has_key k d.
Proof.
  unfold has_key. rewrite assoc_upd.
  destruct (String.eqb k k'); auto. destruct (assoc k d); auto.
Qed.

Lemma assoc_In k p d : assoc k d = Some p -> In (k, p) d.
Proof.
  induction d as [| [k' v] d IH]; simpl; [discriminate |].
  destruct (String.eqb k k') eqn:Hk.
  - apply String.eqb_eq in Hk. intros [= ->]. subst. auto.
  - auto.
Qed.

Lemma nodup_keys_NoDup d : nodup_keys d = true <-> NoDup (keys d).
Proof.
  induction d as [| [k v] d IH]; simpl.
  - split; [constructor | reflexivity].
  - rewrite andb_true_iff, negb_true_iff, IH. split.
    + intros [Hk Hd]. constructor; auto.
      rewrite <- has_key_In. congruence.
    + intros H. inversion H as [| ? ? Hn Hd]; subst. split; auto.
      destruct (has_key k d) eqn:Hk; auto.
      apply has_key_In in Hk. contradiction.
Qed.

Lemma In_assoc k p d : nodup_keys d = true -> In (k, p) d -> assoc k d = Some p.
Proof.
  induction d as [| [k' v] d IH]; simpl; [tauto |].
  rewrite andb_true_iff, negb_true_iff. intros [Hk Hd] [H | H].
  - inversion H; subst. rewrite String.eqb_refl. reflexivity.
  - destruct (String.eqb k k') eqn:Hkk.
    + apply String.eqb_eq in Hkk. subst k'.
      assert (has_key k d = true) by (apply has_key_In; apply (in_map fst _ _ H)).
      congruence.
    + auto.
Qed.

Lemma nodup_keys_upd k f d : nodup_keys (upd k f d) = nodup_keys d.
Proof.
  induction d as [| [k' v] d IH]; simpl; auto.
  destruct (String.eqb k k') eqn:Hk; simpl; auto.
  rewrite has_key_upd, IH. reflexivity.
Qed.

Lemma assoc_dict_set k k' v d :
  assoc k (dict_set k' v d) = if String.eqb k k' then Some v else assoc k d.
Proof.
  induction d as [| [k0 v0] d IH]; simpl.
  - destruct (String.eqb k k'); auto.
  - destruct (String.eqb k' k0) eqn:Hk0; simpl.
    + apply String.eqb_eq in Hk0. subst k0. destruct (String.eqb k k'); auto.
    + rewrite IH. destruct (String.eqb k k') eqn:Hk; auto.
      apply String.eqb_eq in Hk. subst k. rewrite Hk0. reflexivity.
Qed.

Lemma has_key_dict_set k k' v d :
  has_key k (dict_set k' v d) = String.eqb k k' || has_key k d.
Proof.
  unfold has_key. rewrite assoc_dict_set. destruct (String.eqb k k'); auto.
Qed.

Lemma nodup_keys_dict_set k v d :
  nodup_keys d = true -> nodup_keys (dict_set k v d) = true.
Proof.
  induction d as [| [k' v'] d IH]; simpl; auto.
  rewrite andb_true_iff, negb_true_iff. intros [Hk Hd].
  destruct (String.eqb k k') eqn:Hkk; simpl.
  - apply String.eqb_eq in Hkk. subst k'. rewrite Hk. auto.
  - rewrite has_key_dict_set, Hk, IH; auto.
    rewrite String.eqb_sym, Hkk. reflexivity.
Qed.

Lemma assoc_dict_del k k' d :
  nodup_keys d = true ->
  assoc k (dict_del k' d) = if String.eqb k k' then None else assoc k d.
Proof.
  induction d as [| [k0 v0] d IH]; simpl.
  - destruct (String.eqb k k'); auto.
  - rewrite andb_true_iff, negb_true_iff. intros [Hk0 Hd].
    destruct (String.eqb k' k0) eqn:Hkk; simpl.
    + apply String.eqb_eq in Hkk. subst k0.
      destruct (String.eqb k k') eqn:Hk; auto.
      apply String.eqb_eq in Hk. subst k. unfold has_key in Hk0.
      destruct (assoc k' d); [discriminate | reflexivity].
    + rewrite IH; auto. destruct (String.eqb k k') eqn:Hk; auto.
      apply String.eqb_eq in Hk. subst k. rewrite Hkk. reflexivity.
Qed.

Lemma has_key_dict_del k k' d :
  nodup_keys d = true ->
  has_key k (dict_del k' d) = negb (String.eqb k k') && has_key k d.
Proof.
  intros Hd. unfold has_key. rewrite assoc_dict_del; auto.
  destruct (String.eqb k k'); auto.
Qed.

Lemma nodup_keys_dict_del k d :
  nodup_keys d = true -> nodup_keys (dict_del k d) = true.
Proof.
  induction d as [| [k' v'] d IH]; simpl; auto.
  rewrite andb_true_iff, negb_true_iff. intros [Hk Hd].
  destruct (String.eqb k k') eqn:Hkk; simpl; auto.
  rewrite has_key_dict_del, Hk, IH; auto. rewrite andb_false_r. reflexivity.
Qed.

Lemma In_dict_del k kp d : In kp (dict_del k d) -> In kp d.
Proof.
  induction d as [| [k' v'] d IH]; simpl; auto.
  destruct (String.eqb k k'); simpl; tauto.
Qed.

End Dict.

Lemma set_players_same s : set_players (players s) s = s.
Proof. destruct s; reflexivity. Qed.

(** ** Walls *)








Example clamp_into_tree :
  result (move_player "1"
            (JDict [("type", JStr "position");
                    ("position", JDict [("x", JInt 350); ("y", JInt 470)])]))
         (run [Register 1%nat] server0)
  = Ok (350, 500).
Proof. reflexivity. Qed.

(** ** Role assignment *)

Lemma upd_upd k f g d : upd k g (upd k f d) = upd k (fun p => g (f p)) d.
Proof.
  induction d as [| [k' v] d IH]; simpl; auto.
  destruct (String.eqb k k') eqn:Hk; simpl; rewrite Hk; auto.
  f_equal. exact IH.
Qed.

Lemma upd_ext k f g d :
  (forall p, assoc k d = Some p -> f p = g p) -> upd k f d = upd k g d.
Proof.
  induction d as [| [k' v] d IH]; simpl; auto. intros H.
  destruct (String.eqb k k') eqn:Hk.
  - rewrite (H v); auto.
  - rewrite IH; auto.
Qed.

Lemma random_random_run s : random_random s = (Ok (draw s), pop s, []).
Proof. unfold random_random, draw, pop. destruct (rnd s); reflexivity. Qed.

Lemma random_choice_run {A : Type} (a : A) (l : list A) s :
  random_choice (a :: l) s = (Ok (chosen (a :: l) a s), pop s, []).
Proof.
  unfold random_choice, bind. rewrite random_random_run. reflexivity.
Qed.

Lemma chosen_In {A : Type} (a : A) (l : list A) s : In (chosen (a :: l) a s) (a :: l).
Proof. unfold chosen. apply nth_in_or_default. left. reflexivity. Qed.

Lemma pop_set_players d s : pop (set_players d s) = set_players d (pop s).
Proof. unfold pop. simpl. destruct (rnd s); reflexivity. Qed.

Lemma players_pop s : players (pop s) = players s.
Proof. unfold pop. destruct (rnd s); reflexivity. Qed.

Lemma pacman_player_id_pop s : pacman_player_id (pop s) = pacman_player_id s.
Proof. unfold pop. destruct (rnd s); reflexivity. Qed.

Lemma maps_pop s : maps (pop s) = maps s.
Proof. unfold pop. destruct (rnd s); reflexivity. Qed.

Lemma current_map_pop s : current_map (pop s) = current_map s.
Proof. unfold pop. destruct (rnd s); reflexivity. Qed.

Lemma connected_clients_pop s : connected_clients (pop s) = connected_clients s.
Proof. unfold pop. destruct (rnd s); reflexivity. Qed.

Lemma used_ghost_colors_pop s : used_ghost_colors (pop s) = used_ghost_colors s.
Proof. unfold pop. destruct (rnd s); reflexivity. Qed.

Lemma last_respawn_time_pop s : last_respawn_time (pop s) = last_respawn_time s.
Proof. unfold pop. destruct (rnd s); reflexivity. Qed.

(** The colours of the pool that are not marked as used. *)
Lemma get_ghost_color_eq s :
  get_ghost_color s =
    match filter (fun c => negb (color_used c s)) ghost_colors_available with
    | color :: _ =>
        (Ok color,
         set_used_ghost_colors (set_add Color_eq_dec color (used_ghost_colors s)) s,
         [])
    | [] => (Ok (chosen ghost_colors_available [173; 216; 230] s), pop s, [])
    end.
Proof.
  unfold get_ghost_color, bind, get_state.
  destruct (filter (fun c => negb (color_used c s)) ghost_colors_available)
    as [| c l] eqn:Hf.
  - unfold ghost_colors_available at 1. rewrite random_choice_run. reflexivity.
  - reflexivity.
Qed.

(** [get_ghost_color] returns a colour of the pool, touches only the set of
    used colours and the random tape, and is blind to the registry. *)
Lemma get_ghost_color_run s :
  exists c s1,
    get_ghost_color s = (Ok c, s1, [])
    /\ In c ghost_colors_available
    /\ players s1 = players s
    /\ pacman_player_id s1 = pacman_player_id s
    /\ maps s1 = maps s /\ current_map s1 = current_map s
    /\ connected_clients s1 = connected_clients s
    /\ forall d, get_ghost_color (set_players d s) = (Ok c, set_players d s1, []).
Proof.
  assert (Hd : forall d,
            filter (fun c => negb (color_used c (set_players d s))) ghost_colors_available
            = filter (fun c => negb (color_used c s)) ghost_colors_available)
    by reflexivity.
  pose proof (get_ghost_color_eq s) as He.
  destruct (filter (fun c => negb (color_used c s)) ghost_colors_available)
    as [| c l] eqn:Hf.
  - eexists. exists (pop s). split; [exact He |]. split; [apply chosen_In |].
    rewrite players_pop, pacman_player_id_pop, maps_pop, current_map_pop,
      connected_clients_pop.
    repeat split; auto. intros d. rewrite get_ghost_color_eq, Hd.
    rewrite pop_set_players. reflexivity.
  - exists c. eexists. split; [exact He |]. split.
    { assert (In c (c :: l)) as Hin by (left; reflexivity).
      rewrite <- Hf in Hin. apply filter_In in Hin. tauto. }
    repeat split; auto. intros d. rewrite get_ghost_color_eq, Hd. reflexivity.
Qed.

Lemma update_player_run s a f p :
  assoc a (players s) = Some p ->
  update_player a f s = (Ok tt, set_players (upd a f (players s)) s, []).
Proof. intros Hp. unfold update_player. rewrite Hp. reflexivity. Qed.

Lemma get_player_run s a p :
  assoc a (players s) = Some p -> get_player a s = (Ok p, s, []).
Proof. intros Hp. unfold get_player. rewrite Hp. reflexivity. Qed.

Lemma as_pacman_cases p :
  as_pacman p =
    match p_lives p, p_score p with
    | Some _, Some _ => set_color (Some pacman_color) (set_role pacman p)
    | None, Some _ => set_lives (Some 3) (set_color (Some pacman_color) (set_role pacman p))
    | Some _, None => set_score (Some 0) (set_color (Some pacman_color) (set_role pacman p))
    | None, None =>
        set_score (Some 0)
          (set_lives (Some 3) (set_color (Some pacman_color) (set_role pacman p)))
    end.
Proof.
  unfold as_pacman. simpl. destruct (p_lives p); simpl; destruct (p_score p); reflexivity.
Qed.

(** One iteration of the loop of [assign_roles] on a registered player. *)
Lemma assign_role_run s a p :
  assoc a (players s) = Some p ->
  assign_role a s =
    if is_pacman_id a s then
      (Ok tt, set_players (upd a as_pacman (players s)) s, [])
    else
      match p_color p with
      | Some _ => (Ok tt, set_players (upd a (set_role ghost) (players s)) s, [])
      | None =>
          match get_ghost_color s with
          | (Ok c, s1, e) =>
              (Ok tt,
               set_players
                 (upd a (fun p => set_color (Some c) (set_role ghost p)) (players s)) s1,
               e)
          | (Raise x, s1, e) =>
              (Raise x, set_players (upd a (set_role ghost) (players s)) s1, e)
          end
      end.
Proof.
  intros Hp. unfold assign_role, bind at 1, get_state.
  destruct (is_pacman_id a s) eqn:Hh.
  - rewrite (upd_ext a as_pacman _ (players s) (fun q _ => as_pacman_cases q)).
    unfold bind, update_player, get_player, when, ret.
    destruct (p_lives p) eqn:Hl; destruct (p_score p) eqn:Hs;
      repeat (simpl; first [rewrite Hp | rewrite assoc_upd_eq | rewrite upd_upd
                           | rewrite Hl | rewrite Hs]);
      (do 2 f_equal); apply (f_equal (fun d => set_players d s));
      apply upd_ext; intros q Hq; rewrite Hp in Hq; injection Hq as <-;
      rewrite Hl, Hs; reflexivity.
  - unfold bind, update_player, get_player. simpl. rewrite Hp. simpl.
    rewrite !assoc_upd_eq, Hp. simpl.
    destruct (p_color p) eqn:Hc; simpl; [reflexivity |].
    destruct (get_ghost_color_run s) as (c & s1 & Hg & _ & Hpl & _ & _ & _ & _ & Hgd).
    rewrite Hgd, Hg. simpl. rewrite !assoc_upd_eq, Hp. simpl.
    rewrite !upd_upd. reflexivity.
Qed.

Lemma same_arena_refl s : same_arena s s.
Proof. repeat split. Qed.

Lemma same_arena_trans s1 s2 s3 :
  same_arena s1 s2 -> same_arena s2 s3 -> same_arena s1 s3.
Proof.
  unfold same_arena. intros (A1 & A2 & A3 & A4 & A5) (B1 & B2 & B3 & B4 & B5).
  repeat split; congruence.
Qed.

Lemma same_arena_pop s : same_arena s (pop s).
Proof.
  unfold same_arena.
  rewrite maps_pop, current_map_pop, connected_clients_pop, last_respawn_time_pop.
  repeat split. unfold pop. destruct (rnd s); reflexivity.
Qed.

Lemma get_ghost_color_same_arena s :
  same_arena s (post get_ghost_color s).
Proof.
  unfold post. rewrite get_ghost_color_eq.
  destruct (filter _ ghost_colors_available); simpl.
  - apply same_arena_pop.
  - repeat split.
Qed.

Lemma reassigned_refl p : reassigned p p.
Proof. unfold reassigned. repeat split; auto. Qed.

Lemma settled_player_fixed s k p :
  settled_player s k p ->
  (if is_pacman_id k s then as_pacman p else set_role ghost p) = p.
Proof.
  unfold settled_player, expected_role. intros (Hr & Hc & Hh).
  destruct (is_pacman_id k s).
  - destruct (Hh eq_refl) as (Hy & Hl & Hs). rewrite as_pacman_cases.
    destruct p; simpl in *. subst.
    destruct p_lives0; [| congruence]. destruct p_score0; [| congruence].
    reflexivity.
  - destruct p; simpl in *. subst. reflexivity.
Qed.

(** One iteration of the loop: it returns, settles the player it visits and
    touches no other; on a settled player it does nothing at all. *)
Lemma assign_role_spec s a p :
  assoc a (players s) = Some p ->
  exists s1 p1,
    assign_role a s = (Ok tt, s1, [])
    /\ players s1 = upd a (fun _ => p1) (players s)
    /\ pacman_player_id s1 = pacman_player_id s
    /\ same_arena s s1
    /\ settled_player s a p1
    /\ reassigned p p1
    /\ (settled_player s a p -> s1 = s)
    /\ (p_color p <> None -> same_pool s s1).
Proof.
  intros Hp. rewrite (assign_role_run s a p Hp).
  assert (Hupd : forall f, upd a f (players s) = upd a (fun _ => f p) (players s)).
  { intros f. apply upd_ext. intros q Hq. congruence. }
  destruct (is_pacman_id a s) eqn:Hh.
  - exists (set_players (upd a as_pacman (players s)) s), (as_pacman p).
    split; [reflexivity |]. split; [simpl; apply Hupd |].
    split; [reflexivity |]. split; [repeat split |].
    split; [| split; [| split]].
    + unfold settled_player, expected_role. rewrite Hh, as_pacman_cases.
      destruct (p_lives p) eqn:Hl, (p_score p) eqn:Hs; simpl; rewrite ?Hl, ?Hs;
        repeat split; congruence.
    + rewrite as_pacman_cases. unfold reassigned, complete.
      destruct (p_lives p) eqn:Hl, (p_score p) eqn:Hs, (p_name p) eqn:Hn; simpl;
        rewrite ?Hl, ?Hs, ?Hn; simpl; repeat split; auto;
        rewrite ?andb_false_r; congruence.
    + intros Hs. pose proof (settled_player_fixed s a p Hs) as Hf.
      rewrite Hh in Hf. rewrite (upd_id a as_pacman).
      * apply set_players_same.
      * intros q Hq. congruence.
    + intros _. split; reflexivity.
  - destruct (p_color p) as [c0 |] eqn:Hc.
    + exists (set_players (upd a (set_role ghost) (players s)) s), (set_role ghost p).
      split; [reflexivity |]. split; [simpl; apply Hupd |].
      split; [reflexivity |]. split; [repeat split |].
      split; [| split; [| split]].
      * unfold settled_player, expected_role. rewrite Hh. simpl.
        repeat split; congruence.
      * unfold reassigned, complete. simpl. repeat split; auto.
      * intros Hs. pose proof (settled_player_fixed s a p Hs) as Hf.
        rewrite Hh in Hf. rewrite (upd_id a (set_role ghost)).
        -- apply set_players_same.
        -- intros q Hq. congruence.
      * intros _. split; reflexivity.
    + destruct (get_ghost_color_run s) as (c & s1 & Hg & _ & Hpl & Hpid & _ & _ & _ & _).
      pose proof (get_ghost_color_same_arena s) as Hsa. unfold post in Hsa.
      rewrite Hg in *. simpl in Hsa.
      exists (set_players
                (upd a (fun p => set_color (Some c) (set_role ghost p)) (players s)) s1),
             (set_color (Some c) (set_role ghost p)).
      split; [reflexivity |]. split; [simpl; apply Hupd |].
      split; [exact Hpid |]. split; [exact Hsa |].
      split; [| split; [| split]].
      * unfold settled_player, expected_role. rewrite Hh. simpl.
        repeat split; congruence.
      * unfold reassigned, complete. simpl. rewrite Hc. simpl.
        repeat split; auto; try discriminate. congruence.
      * intros (_ & Hne & _). congruence.
      * congruence.
Qed.

Lemma reassigned_trans p1 p2 p3 :
  reassigned p1 p2 -> reassigned p2 p3 -> reassigned p1 p3.
Proof.
  unfold reassigned.
  intros (A1 & A2 & A3 & A4 & A5 & A6 & A7 & A8 & A9 & A10 & A11 & A12)
         (B1 & B2 & B3 & B4 & B5 & B6 & B7 & B8 & B9 & B10 & B11 & B12).
  repeat split; try congruence; auto.
  - intros H. rewrite B9; auto. rewrite A9; auto.
  - intros H. rewrite B10; auto. rewrite A10; auto.
  - intros H. destruct (A12 H) as [E | E].
    + destruct B12 as [E' | E']; [congruence | left; congruence | right; exact E'].
    + destruct B12 as [E' | E']; [congruence | right; congruence | right; exact E'].
Qed.

Lemma same_pool_refl s : same_pool s s.
Proof. split; reflexivity. Qed.

Lemma same_pool_trans s1 s2 s3 : same_pool s1 s2 -> same_pool s2 s3 -> same_pool s1 s3.
Proof. unfold same_pool. intros [A1 A2] [B1 B2]. split; congruence. Qed.

Lemma settled_player_ext s s' k p :
  pacman_player_id s' = pacman_player_id s ->
  settled_player s k p -> settled_player s' k p.
Proof.
  unfold settled_player, expected_role, is_pacman_id. intros ->. auto.
Qed.

(** The loop of [assign_roles] over a list of registered players. *)
Lemma assign_loop_spec ks : forall s,
  (forall k, In k ks -> has_key k (players s) = true) ->
  exists s',
    for_each ks assign_role s = (Ok tt, s', [])
    /\ pacman_player_id s' = pacman_player_id s
    /\ keys (players s') = keys (players s)
    /\ same_arena s s'
    /\ (forall k p, assoc k (players s) = Some p ->
          exists p', assoc k (players s') = Some p' /\ reassigned p p'
                     /\ (In k ks -> settled_player s k p')
                     /\ (~ In k ks -> p' = p))
    /\ ((forall k p, In k ks -> assoc k (players s) = Some p -> settled_player s k p)
        -> s' = s)
    /\ (coloured s -> same_pool s s').
Proof.
  induction ks as [| a ks IH]; intros s Hks.
  - exists s. simpl. split; [reflexivity |]. repeat split; auto.
    intros k p Hp. exists p. split; [exact Hp |]. split; [apply reassigned_refl |].
    split; [intros [] | reflexivity].
  - assert (Ha : has_key a (players s) = true) by (apply Hks; left; reflexivity).
    apply has_key_assoc in Ha. destruct Ha as [p Hp].
    destruct (assign_role_spec s a p Hp)
      as (s1 & p1 & Hrun & Hpl & Hpid & Hsa & Hset & Hre & Hfix & Hpool).
    destruct (IH s1) as (s' & Hrun' & Hpid' & Hkeys' & Hsa' & Hall & Hfix' & Hpool').
    { intros k Hk. rewrite Hpl, has_key_upd. apply Hks. right. exact Hk. }
    exists s'. split.
    { simpl. unfold bind. rewrite Hrun, Hrun'. reflexivity. }
    split; [congruence |]. split.
    { rewrite Hkeys', Hpl. apply keys_upd. }
    split; [eapply same_arena_trans; eauto |]. split; [| split].
    3: { intros Hcol. eapply same_pool_trans; [apply Hpool; eapply Hcol; eauto |].
         apply Hpool'. intros k q. rewrite Hpl, assoc_upd.
         destruct (String.eqb k a) eqn:Hka.
         - apply String.eqb_eq in Hka. subst k. rewrite Hp. simpl. intros [= <-].
           destruct Hset as (_ & Hne & _). exact Hne.
         - apply Hcol. }
    + intros k q Hq. destruct (String.eqb k a) eqn:Hka.
      * apply String.eqb_eq in Hka. subst k.
        assert (q = p) by congruence. subst q.
        destruct (Hall a p1) as (p' & Hp' & Hre' & Hin' & Hnin').
        { rewrite Hpl, assoc_upd_eq, Hp. reflexivity. }
        exists p'. split; [exact Hp' |]. split; [eapply reassigned_trans; eauto |].
        split.
        -- intros _. destruct (in_dec string_dec a ks) as [Hi | Hi].
           ++ apply (settled_player_ext s1); auto.
           ++ rewrite (Hnin' Hi). exact Hset.
        -- intros Hn. exfalso. apply Hn. left. reflexivity.
      * apply String.eqb_neq in Hka.
        destruct (Hall k q) as (p' & Hp' & Hre' & Hin' & Hnin').
        { rewrite Hpl, assoc_upd_neq; auto. }
        exists p'. split; [exact Hp' |]. split; [exact Hre' |]. split.
        -- intros [Hi | Hi]; [congruence |]. apply (settled_player_ext s1); auto.
        -- intros Hn. apply Hnin'. intros Hi. apply Hn. right. exact Hi.
    + intros Hs. assert (s1 = s) by (apply Hfix; apply (Hs a p); auto; left; reflexivity).
      subst s1. rewrite Hfix'; auto. intros k q Hk Hq. apply Hs; auto. right. exact Hk.
Qed.

Lemma assign_roles_eq s :
  assign_roles s =
    match players s with
    | [] => (Ok tt, s, [])
    | kp :: _ =>
        if pacman_missing s then
          let h := chosen (keys (players s)) (fst kp) s in
          match for_each (keys (players s)) assign_role
                  (set_pacman_player_id (Some h) (pop s)) with
          | (r, s2, e) => (r, s2, Log info :: e)
          end
        else for_each (keys (players s)) assign_role s
    end.
Proof.
  unfold assign_roles, bind at 1, get_state.
  destruct (players s) as [| kp d] eqn:Hd; [reflexivity |].
  destruct (pacman_missing s) eqn:Hm; unfold when.
  - change (keys (kp :: d)) with (fst kp :: keys d). cbv beta iota zeta.
    unfold bind. rewrite random_choice_run. unfold modify, emit.
    destruct (for_each _ assign_role _) as [[r s2] e]. reflexivity.
  - unfold bind, ret.
    destruct (for_each _ assign_role s) as [[r s2] e]. reflexivity.
Qed.

Lemma pacman_missing_ext s s' :
  pacman_player_id s' = pacman_player_id s ->
  keys (players s') = keys (players s) ->
  pacman_missing s' = pacman_missing s.
Proof.
  unfold pacman_missing. intros -> Hk. destruct (pacman_player_id s); auto.
  f_equal. destruct (has_key s0 (players s)) eqn:H.
  - apply has_key_In. rewrite Hk. apply has_key_In. exact H.
  - destruct (has_key s0 (players s')) eqn:H'; auto.
    apply has_key_In in H'. rewrite Hk in H'. apply has_key_In in H'. congruence.
Qed.

(** [assign_roles] always returns; afterwards every player is settled and,
    unless the registry is empty, the hunter is a registered player. *)
Lemma assign_roles_spec s :
  exists s' e,
    assign_roles s = (Ok tt, s', e)
    /\ keys (players s') = keys (players s)
    /\ same_arena s s'
    /\ settled s'
    /\ (forall k p, assoc k (players s) = Some p ->
          exists p', assoc k (players s') = Some p' /\ reassigned p p')
    /\ (pacman_missing s = false ->
          pacman_player_id s' = pacman_player_id s /\ e = [])
    /\ (pacman_missing s = true -> forall kp d, players s = kp :: d ->
          pacman_player_id s' = Some (chosen (keys (players s)) (fst kp) s)
          /\ e = [Log info])
    /\ (coloured s ->
        same_pool (match players s with
                   | [] => s
                   | _ :: _ => if pacman_missing s then pop s else s
                   end) s').
Proof.
  rewrite assign_roles_eq. destruct (players s) as [| kp d] eqn:Hd.
  - exists s, []. split; [reflexivity |]. split; [rewrite Hd; reflexivity |].
    split; [apply same_arena_refl |]. split.
    { split; [| left; exact Hd]. intros k p. rewrite Hd. discriminate. }
    split; [intros k p; rewrite Hd; discriminate |].
    split; [auto |]. split; [intros _ kp d; discriminate |].
    intros _. apply same_pool_refl.
  - destruct (pacman_missing s) eqn:Hm.
    + cbv zeta. set (h := chosen (keys (kp :: d)) (fst kp) s).
      set (s1 := set_pacman_player_id (Some h) (pop s)).
      assert (Hpl1 : players s1 = players s) by (unfold s1; simpl; apply players_pop).
      destruct (assign_loop_spec (keys (kp :: d)) s1)
        as (s' & Hrun & Hpid & Hkeys & Hsa & Hall & _ & Hpool).
      { intros k Hk. rewrite Hpl1, Hd. apply has_key_In. exact Hk. }
      rewrite Hrun. exists s', [Log info]. split; [reflexivity |].
      split; [rewrite Hkeys, Hpl1, Hd; reflexivity |].
      split.
      { eapply same_arena_trans; [| exact Hsa].
        eapply same_arena_trans; [apply same_arena_pop | repeat split]. }
      split; [| split; [| split; [| split]]].
      5: { intros Hcol.
           assert (Hc1 : coloured s1) by (intros k p; rewrite Hpl1; apply Hcol).
           destruct (Hpool Hc1) as [P1 P2]. split; [rewrite P1 | rewrite P2]; reflexivity. }
      * split.
        -- intros k p' Hp'.
           assert (Hk : has_key k (players s1) = true).
           { apply has_key_In. rewrite <- Hkeys. apply has_key_In.
             apply has_key_assoc. eauto. }
           apply has_key_assoc in Hk. destruct Hk as [p Hp].
           destruct (Hall k p Hp) as (q & Hq & _ & Hin & _).
           assert (q = p') by congruence. subst q.
           apply (settled_player_ext s1); auto. apply Hin.
           apply has_key_In. rewrite <- Hd, <- Hpl1. apply has_key_assoc. eauto.
        -- right. rewrite (pacman_missing_ext s1 s'); auto.
           unfold pacman_missing, s1. simpl. rewrite players_pop, Hd.
           assert (Hin : In h (keys (kp :: d))) by apply chosen_In.
           apply has_key_In in Hin. rewrite Hin. reflexivity.
      * intros k p Hp. rewrite <- Hd, <- Hpl1 in Hp.
        destruct (Hall k p Hp) as (q & Hq & Hre & _). eauto.
      * discriminate.
      * intros _ kp' d' [= <- <-]. split; [| reflexivity]. rewrite Hpid. reflexivity.
    + destruct (assign_loop_spec (keys (kp :: d)) s)
        as (s' & Hrun & Hpid & Hkeys & Hsa & Hall & _ & Hpool).
      { intros k Hk. rewrite Hd. apply has_key_In. exact Hk. }
      rewrite Hrun. exists s', []. split; [reflexivity |].
      split; [rewrite Hkeys, Hd; reflexivity |]. split; [exact Hsa |].
      split; [| split; [| split; [| split]]].
      5: { intros Hcol. apply Hpool. exact Hcol. }
      * split.
        -- intros k p' Hp'.
           assert (Hk : has_key k (players s) = true).
           { apply has_key_In. rewrite <- Hkeys. apply has_key_In.
             apply has_key_assoc. eauto. }
           apply has_key_assoc in Hk. destruct Hk as [p Hp].
           destruct (Hall k p Hp) as (q & Hq & _ & Hin & _).
           assert (q = p') by congruence. subst q.
           apply (settled_player_ext s); auto. apply Hin.
           apply has_key_In. rewrite <- Hd. apply has_key_assoc. eauto.
        -- right. rewrite (pacman_missing_ext s s'); auto.
      * intros k p Hp. rewrite <- Hd in Hp.
        destruct (Hall k p Hp) as (q & Hq & Hre & _). eauto.
      * auto.
      * discriminate.
Qed.

(** On a settled registry [assign_roles] does nothing. *)
Lemma assign_roles_settled s : settled s -> assign_roles s = (Ok tt, s, []).
Proof.
  intros [Hall Hm]. rewrite assign_roles_eq.
  destruct (players s) as [| kp d] eqn:Hd; [reflexivity |].
  destruct Hm as [Hm | Hm]; [discriminate |]. rewrite Hm.
  destruct (assign_loop_spec (keys (kp :: d)) s)
    as (s' & Hrun & _ & _ & _ & _ & Hfix & _).
  { intros k Hk. rewrite Hd. apply has_key_In. exact Hk. }
  rewrite Hrun, Hfix; auto. intros k p _ Hp. apply Hall. rewrite <- Hd. exact Hp.
Qed.

(** C9 -- reassignment is idempotent.  Whatever the registry, [assign_roles]
    returns, and a second call right after it returns too, changes nothing in
    the server (no role, no colour, nothing else) and has no effect. *)
Theorem assign_roles_idempotent s :
  result assign_roles s = Ok tt
  /\ assign_roles (post assign_roles s) = (Ok tt, post assign_roles s, []).
Proof.
  destruct (assign_roles_spec s) as (s' & e & Hrun & _ & _ & Hset & _).
  unfold result, post. rewrite Hrun. simpl. split; [reflexivity |].
  apply assign_roles_settled. exact Hset.
Qed.

(** ** Invariant-style rules *)

Section Keeps.

Variable I : Server -> Prop.

Lemma keeps_ret {A : Type} (a : A) : keeps I (ret a).
Proof. apply hoare_ret. auto. Qed.

Lemma keeps_raise {A : Type} (x : Exn) : keeps I (@raise A x).
Proof. apply hoare_raise. auto. Qed.

Lemma keeps_bind {A B : Type} (m : M A) (f : A -> M B) :
  keeps I m -> (forall a, keeps I (f a)) -> keeps I (bind m f).
Proof. intros Hm Hf. eapply hoare_bind; [apply Hm | apply Hf]. Qed.

Lemma keeps_lift {A : Type} (r : Res A) : keeps I (lift r).
Proof. apply hoare_lift. intros s Hs. destruct r; auto. Qed.

Lemma keeps_field {A : Type} (o : option A) : keeps I (field o).
Proof. apply hoare_field. intros s Hs. destruct o; auto. Qed.

Lemma keeps_get_state : keeps I get_state.
Proof. apply hoare_get_state. auto. Qed.

Lemma keeps_emit e : keeps I (emit e).
Proof. apply hoare_emit. auto. Qed.

Lemma keeps_get_player pid : keeps I (get_player pid).
Proof. apply hoare_get_player; auto. Qed.

Lemma keeps_current_map_data : keeps I current_map_data.
Proof. apply hoare_current_map_data; auto. Qed.

Lemma keeps_when b m : keeps I m -> keeps I (when b m).
Proof. intros H. destruct b; simpl; auto. apply keeps_ret. Qed.

Lemma keeps_modify f : (forall s, I s -> I (f s)) -> keeps I (modify f).
Proof. intros H. apply hoare_modify. auto. Qed.

Lemma keeps_update_player pid f :
  (forall s p, I s -> assoc pid (players s) = Some p ->
     I (set_players (upd pid f (players s)) s)) ->
  keeps I (update_player pid f).
Proof. intros H. apply hoare_update_player; auto. Qed.

Lemma keeps_map_m {A B : Type} (body : A -> M B) (l : list A) :
  (forall a, keeps I (body a)) -> keeps I (map_m body l).
Proof. intros H. apply hoare_map_m. exact H. Qed.

Lemma keeps_catch {A : Type} (m : M A) (h : Exn -> M A) :
  keeps I m -> (forall x, keeps I (h x)) -> keeps I (catch m h).
Proof. intros Hm Hh. eapply hoare_catch; [apply Hm | apply Hh]. Qed.

(** The random tape plays no part in [I]. *)
Hypothesis I_rnd : forall s t, I s -> I (set_rnd t s).

Lemma keeps_random_random : keeps I random_random.
Proof. apply hoare_random_random; auto. Qed.

Lemma keeps_random_choice {A : Type} (l : list A) : keeps I (random_choice l).
Proof. apply hoare_random_choice; auto. Qed.

End Keeps.

(** Splits a computation along its structure, leaving the writes. *)
Ltac keeps_step :=
  match goal with
  | |- keeps _ (bind _ _) => apply keeps_bind; [| intro]
  | |- keeps _ (ret _) => apply keeps_ret
  | |- keeps _ (raise _) => apply keeps_raise
  | |- keeps _ (lift _) => apply keeps_lift
  | |- keeps _ (field _) => apply keeps_field
  | |- keeps _ get_state => apply keeps_get_state
  | |- keeps _ (emit _) => apply keeps_emit
  | |- keeps _ (get_player _) => apply keeps_get_player
  | |- keeps _ current_map_data => apply keeps_current_map_data
  | |- keeps _ (when _ _) => apply keeps_when
  | |- keeps _ (for_each _ _) => apply keeps_for_each; intro
  | |- keeps _ (map_m _ _) => apply keeps_map_m; intro
  | |- keeps _ (catch _ _) => apply keeps_catch; [| intro]
  | |- keeps _ (if ?b then _ else _) => destruct b
  | |- keeps _ (match ?o with Some _ => _ | None => _ end) => destruct o
  | |- keeps _ (match ?o with Ok _ => _ | Raise _ => _ end) => destruct o
  end.

(** ** The registry invariant *)

Lemma nodup_keys_ext d d' : keys d = keys d' -> nodup_keys d = nodup_keys d'.
Proof.
  intros H.
  destruct (nodup_keys d) eqn:H1, (nodup_keys d') eqn:H2; auto.
  - apply nodup_keys_NoDup in H1. rewrite H in H1.
    apply nodup_keys_NoDup in H1. congruence.
  - apply nodup_keys_NoDup in H2. rewrite <- H in H2.
    apply nodup_keys_NoDup in H2. congruence.
Qed.

Lemma expected_role_ext s s' k :
  pacman_player_id s' = pacman_player_id s ->
  expected_role s' k = expected_role s k.
Proof. unfold expected_role, is_pacman_id. intros ->. reflexivity. Qed.

(** [WF] reads the registry and the hunter's id only. *)
Lemma WF_ext s s' :
  players s' = players s -> pacman_player_id s' = pacman_player_id s ->
  WF s -> WF s'.
Proof.
  intros Hp Hh [[Hn Hc] [Hr Hm]]. unfold WF, registry_ok, roles_assigned.
  rewrite Hp. repeat split; auto.
  - intros k p Hk. rewrite (expected_role_ext s s'); auto.
  - destruct Hm as [Hm | Hm]; [left; exact Hm | right].
    rewrite (pacman_missing_ext s s'); auto. rewrite Hp. reflexivity.
Qed.

Lemma registry_ok_ext s s' :
  players s' = players s -> registry_ok s -> registry_ok s'.
Proof. unfold registry_ok. intros ->. auto. Qed.

(** Writing a field other than the role keeps [WF]. *)
Lemma WF_upd s pid f :
  (forall p, p_role (f p) = p_role p) ->
  (forall p, complete p = true -> complete (f p) = true) ->
  WF s -> WF (set_players (upd pid f (players s)) s).
Proof.
  intros Hrole Hcomp [[Hn Hc] [Hr Hm]].
  unfold WF, registry_ok, roles_assigned. simpl.
  rewrite nodup_keys_upd. repeat split; auto.
  - intros k p. rewrite assoc_upd. destruct (String.eqb k pid).
    + destruct (assoc k (players s)) as [q |] eqn:Hq; [| discriminate].
      simpl. intros [= <-]. apply Hcomp. eapply Hc; eauto.
    + apply Hc.
  - intros k p. rewrite assoc_upd.
    change (expected_role (set_players (upd pid f (players s)) s) k)
      with (expected_role s k).
    destruct (String.eqb k pid).
    + destruct (assoc k (players s)) as [q |] eqn:Hq; [| discriminate].
      simpl. intros [= <-]. rewrite Hrole. eapply Hr; eauto.
    + apply Hr.
  - destruct Hm as [Hm | Hm]; [left; rewrite Hm; reflexivity | right].
    rewrite (pacman_missing_ext s); auto. simpl. apply keys_upd.
Qed.

Lemma registry_ok_upd s pid f :
  (forall p, complete p = true -> complete (f p) = true) ->
  registry_ok s -> registry_ok (set_players (upd pid f (players s)) s).
Proof.
  intros Hcomp [Hn Hc]. unfold registry_ok. simpl.
  rewrite nodup_keys_upd. split; auto.
  intros k p. rewrite assoc_upd. destruct (String.eqb k pid).
  - destruct (assoc k (players s)) as [q |] eqn:Hq; [| discriminate].
    simpl. intros [= <-]. apply Hcomp. eapply Hc; eauto.
  - apply Hc.
Qed.

(** [assign_roles] turns a sound registry into a well-formed server. *)
Lemma assign_roles_WF :
  hoare registry_ok assign_roles (fun _ => WF) (fun _ => False).
Proof.
  intros s [Hn Hc].
  destruct (assign_roles_spec s) as (s' & e & Hrun & Hkeys & _ & [Hset Hm] & Hall & _).
  rewrite Hrun. split; [split | split]; auto.
  - rewrite (nodup_keys_ext _ (players s)); auto.
  - intros k p' Hp'.
    assert (Hk : has_key k (players s) = true).
    { apply has_key_In. rewrite <- Hkeys. apply has_key_In. apply has_key_assoc. eauto. }
    apply has_key_assoc in Hk. destruct Hk as [p Hp].
    destruct (Hall k p Hp) as (q & Hq & Hre).
    assert (q = p') by congruence. subst q.
    apply Hre. eapply Hc; eauto.
  - intros k p Hp. apply (Hset k p Hp).
Qed.

Lemma WF_registry_ok s : WF s -> registry_ok s.
Proof. intros [H _]. exact H. Qed.

Lemma keeps_assign_roles_WF : keeps WF assign_roles.
Proof.
  eapply hoare_conseq; [apply assign_roles_WF | | |]; simpl; auto using WF_registry_ok.
  tauto.
Qed.

Lemma WF_set_rnd s t : WF s -> WF (set_rnd t s).
Proof. apply WF_ext; reflexivity. Qed.

Lemma keeps_get_ghost_color_WF : keeps WF get_ghost_color.
Proof.
  intros s Hs. destruct (get_ghost_color_run s) as (c & s1 & Hrun & _ & Hp & Hh & _).
  rewrite Hrun. eapply WF_ext; eauto.
Qed.

Ltac complete_tac :=
  unfold complete; simpl; intros;
  repeat match goal with
         | H : _ && _ = true |- _ => apply andb_true_iff in H; destruct H
         end;
  rewrite ?andb_true_iff; auto.

(** Finishes the proof that a computation keeps [WF] when its writes leave
    roles, keys and the hunter's id alone. *)
Ltac keeps_WF :=
  repeat first
    [ keeps_step
    | apply keeps_random_random; exact WF_set_rnd
    | apply keeps_random_choice; exact WF_set_rnd
    | apply keeps_get_ghost_color_WF
    | apply keeps_assign_roles_WF
    | apply keeps_modify; intros ? ?; eapply WF_ext; [| | eassumption]; reflexivity
    | apply keeps_update_player; intros ? ? ? ?; apply WF_upd;
      [ reflexivity
      | complete_tac
      | assumption ] ].

Lemma keeps_prepare_game_state_WF pid : keeps WF (prepare_game_state pid).
Proof. unfold prepare_game_state. keeps_WF. Qed.

Lemma keeps_check_snowflake_respawn_WF now : keeps WF (check_snowflake_respawn now).
Proof.
  unfold check_snowflake_respawn, respawn_snowflake, respawn_icicle. keeps_WF.
Qed.

Lemma keeps_broadcast_game_state_WF now : keeps WF (broadcast_game_state now).
Proof.
  unfold broadcast_game_state. keeps_WF;
    first [apply keeps_check_snowflake_respawn_WF | apply keeps_prepare_game_state_WF].
Qed.

Lemma keeps_add_score_WF pid points : keeps WF (add_score pid points).
Proof. unfold add_score. keeps_WF. Qed.

Lemma keeps_check_snowflake_collision_WF pid x y :
  keeps WF (check_snowflake_collision pid x y).
Proof.
  unfold check_snowflake_collision. keeps_WF. apply keeps_add_score_WF.
Qed.

Lemma keeps_check_icicle_collision_WF pid x y :
  keeps WF (check_icicle_collision pid x y).
Proof. unfold check_icicle_collision. keeps_WF. Qed.

Lemma WF_with_ext pid s s' :
  players s' = players s -> pacman_player_id s' = pacman_player_id s ->
  WF_with pid s -> WF_with pid s'.
Proof.
  intros Hp Hh [Hw Hk]. split; [eapply WF_ext; eauto |]. rewrite Hp. exact Hk.
Qed.

Lemma WF_with_upd pid s k f :
  (forall p, p_role (f p) = p_role p) ->
  (forall p, complete p = true -> complete (f p) = true) ->
  WF_with pid s -> WF_with pid (set_players (upd k f (players s)) s).
Proof.
  intros H1 H2 [Hw Hk]. split; [apply WF_upd; auto |].
  simpl. rewrite has_key_upd. exact Hk.
Qed.

Lemma WF_with_set_rnd pid s t : WF_with pid s -> WF_with pid (set_rnd t s).
Proof. apply WF_with_ext; reflexivity. Qed.

Lemma keeps_get_ghost_color_WF_with pid : keeps (WF_with pid) get_ghost_color.
Proof.
  intros s Hs. destruct (get_ghost_color_run s) as (c & s1 & Hrun & _ & Hp & Hh & _).
  rewrite Hrun. eapply WF_with_ext; eauto.
Qed.

Ltac keeps_WF_with :=
  repeat first
    [ keeps_step
    | apply keeps_random_random; apply WF_with_set_rnd
    | apply keeps_random_choice; apply WF_with_set_rnd
    | apply keeps_get_ghost_color_WF_with
    | apply keeps_modify; intros ? ?; eapply WF_with_ext; [| | eassumption]; reflexivity
    | apply keeps_update_player; intros ? ? ? ?; apply WF_with_upd;
      [ reflexivity
      | complete_tac
      | assumption ] ].

(** The hunter's death: between the moment the role is vacated and the call
    of [assign_roles] nothing can raise, because the hunter's dict is
    registered and complete. *)
Lemma keeps_pacman_died pid : keeps (WF_with pid) (pacman_died pid).
Proof.
  unfold pacman_died, keeps. eapply hoare_bind; [apply keeps_emit |]. intros ?.
  set (Pre := fun s => registry_ok s /\ has_key pid (players s) = true).
  eapply hoare_bind with (Q := fun _ => Pre).
  { apply hoare_modify. intros s [[Hr _] Hk]. split; auto. }
  intros ?.
  eapply hoare_bind with (Q := fun p s => Pre s /\ complete p = true).
  { apply hoare_get_player.
    - intros s p [[Hn Hc] Hk] Hp. repeat split; auto. eapply Hc; eauto.
    - intros s [_ Hk] Hp. unfold has_key in Hk. rewrite Hp in Hk. discriminate. }
  intros p.
  eapply hoare_bind with (Q := fun _ => Pre).
  { destruct (p_name p) as [username |].
    - eapply hoare_bind with (Q := fun _ => Pre).
      + apply hoare_field. intros s [Hs Hc]. unfold complete in Hc.
        destruct (p_score p); [exact Hs |].
        rewrite andb_false_r in Hc. discriminate.
      + intros score. apply hoare_emit. auto.
    - apply hoare_ret. tauto. }
  intros ?.
  eapply hoare_bind with (Q := fun _ => WF_with pid).
  { intros s [Hr Hk]. pose proof (assign_roles_WF s Hr) as Hw.
    destruct (assign_roles_spec s) as (s' & e & Hrun & Hkeys & _).
    rewrite Hrun in *. split; [exact Hw |].
    apply has_key_In. rewrite Hkeys. apply has_key_In. exact Hk. }
  intros ?. fold (keeps (WF_with pid)
    (s <- get_state ;;
     when (has_key pid (players s))
       (current_map <- current_map_data ;;
        spawn_pos <- random_choice (m_ghost_spawns current_map) ;;
        update_player pid (set_pos (fst spawn_pos) (snd spawn_pos)) ;;
        c <- get_ghost_color ;;
        update_player pid (set_color (Some c))))).
  keeps_WF_with.
Qed.

Lemma keeps_ghost_collision pid x y power_mode ghost_id :
  keeps (WF_with pid) (ghost_collision pid x y power_mode ghost_id).
Proof.
  unfold ghost_collision, add_score. keeps_WF_with. apply keeps_pacman_died.
Qed.

Lemma keeps_check_ghost_collision_WF pid x y :
  keeps WF (check_ghost_collision pid x y).
Proof.
  unfold check_ghost_collision, keeps.
  eapply hoare_bind with (Q := fun _ => WF_with pid).
  { apply hoare_get_player; auto. intros s p Hs Hp. split; auto.
    apply has_key_assoc. eauto. }
  intros p.
  eapply hoare_conseq with (P' := WF_with pid) (Q' := fun _ => WF_with pid)
                           (E' := WF_with pid);
    try (unfold WF_with; tauto).
  fold (keeps (WF_with pid)
          (s <- get_state ;;
           for_each (keys (players s)) (ghost_collision pid x y (p_power_mode p)))).
  keeps_step; [keeps_step |]. keeps_step. apply keeps_ghost_collision.
Qed.

Lemma keeps_move_player_WF pid data : keeps WF (move_player pid data).
Proof. unfold move_player. keeps_WF. Qed.

Lemma keeps_handle_position_WF pid data : keeps WF (handle_position pid data).
Proof.
  unfold handle_position. keeps_WF;
    first [ apply keeps_move_player_WF | apply keeps_check_snowflake_collision_WF
          | apply keeps_check_icicle_collision_WF | apply keeps_check_ghost_collision_WF ].
Qed.

Lemma keeps_broadcast_voice_audio_WF pid a q : keeps WF (broadcast_voice_audio pid a q).
Proof. unfold broadcast_voice_audio. keeps_WF. Qed.

Lemma keeps_dispatch_WF pid data : keeps WF (dispatch pid data).
Proof.
  unfold dispatch, handle_voice_chat, handle_voice_audio, handle_mute_player,
    handle_change_map, respawn_player, handle_get_leaderboard,
    handle_get_player_stats, send_leaderboard, send_player_stats.
  keeps_WF;
    first [ apply keeps_handle_position_WF | apply keeps_broadcast_voice_audio_WF ].
Qed.

Lemma keeps_handle_message_WF pid message now :
  keeps WF (handle_message pid message now).
Proof.
  unfold handle_message. destruct message; keeps_WF;
    first [ apply keeps_dispatch_WF | apply keeps_broadcast_game_state_WF ].
Qed.

Lemma complete_new_player m c ws pid : complete (new_player m c ws pid) = true.
Proof. reflexivity. Qed.

Lemma registry_ok_dict_set s pid p :
  complete p = true -> registry_ok s ->
  registry_ok (set_players (dict_set pid p (players s)) s).
Proof.
  intros Hp [Hn Hc]. split; simpl.
  - apply nodup_keys_dict_set. exact Hn.
  - intros k q. rewrite assoc_dict_set. destruct (String.eqb k pid).
    + intros [= <-]. exact Hp.
    + apply Hc.
Qed.

Lemma registry_ok_dict_del s pid :
  registry_ok s -> registry_ok (set_players (dict_del pid (players s)) s).
Proof.
  intros [Hn Hc]. split; simpl.
  - apply nodup_keys_dict_del. exact Hn.
  - intros k q. rewrite assoc_dict_del; auto. destruct (String.eqb k pid).
    + discriminate.
    + apply Hc.
Qed.

Lemma keeps_register_WF websocket : keeps WF (register websocket).
Proof.
  unfold register, keeps.
  eapply hoare_bind with (Q := fun _ => WF).
  { apply hoare_modify. intros s Hs. eapply WF_ext; [| | exact Hs]; reflexivity. }
  intros ?. eapply hoare_bind; [apply keeps_get_state |]. intros s0.
  eapply hoare_bind with (Q := fun _ => WF).
  { apply hoare_modify. intros s Hs. eapply WF_ext; [| | exact Hs]; reflexivity. }
  intros ?. eapply hoare_bind; [apply keeps_current_map_data |]. intros m.
  eapply hoare_bind; [apply keeps_get_ghost_color_WF |]. intros c.
  eapply hoare_bind with (Q := fun _ => registry_ok).
  { apply hoare_modify. intros s [Hs _]. apply registry_ok_dict_set; auto. }
  intros ?. eapply hoare_bind with (Q := fun _ => WF).
  { eapply hoare_conseq; [apply assign_roles_WF | | |]; simpl; auto. tauto. }
  intros ?. eapply hoare_bind; [apply keeps_emit |]. intros ?. apply keeps_ret.
Qed.

Lemma keeps_cleanup_player_WF pid : keeps WF (cleanup_player pid).
Proof.
  unfold cleanup_player, keeps.
  eapply hoare_bind; [apply keeps_get_state |]. intros s0.
  apply hoare_when; [intros _ | auto].
  eapply hoare_bind; [apply keeps_get_player |]. intros p.
  eapply hoare_bind with (Q := fun _ => WF).
  { fold (keeps WF
            (when (is_pacman_id pid s0
                   && match p_name p with Some _ => true | None => false end)
                  (username <- field (p_name p) ;;
                   score <- field (p_score p) ;;
                   emit (update_player_rating username score true) ;;
                   emit (Log info)))).
    keeps_WF. }
  intros ?. eapply hoare_bind with (Q := fun _ => WF).
  { fold (keeps WF
            (when (Role_eqb (p_role p) ghost)
                  (color <- field (p_color p) ;;
                   s <- get_state ;;
                   when (color_used color s)
                     (modify (set_used_ghost_colors
                                (set_remove Color_eq_dec color (used_ghost_colors s))))))).
    keeps_WF. }
  intros ?. eapply hoare_conseq with (P' := registry_ok) (Q' := fun _ => WF)
                                     (E' := fun _ => False);
    [| apply WF_registry_ok | auto | tauto].
  eapply hoare_bind with (Q := fun _ => registry_ok).
  { apply hoare_when; [intros _ | auto].
    eapply hoare_bind with (Q := fun _ => registry_ok).
    - apply hoare_modify. intros s Hs. eapply registry_ok_ext; [| exact Hs]. reflexivity.
    - intros ?. apply hoare_emit. auto. }
  intros ?. eapply hoare_bind with (Q := fun _ => registry_ok).
  { apply hoare_get_state. auto. }
  intros s1. eapply hoare_bind with (Q := fun _ => registry_ok).
  { apply hoare_when; [intros _ | auto]. apply hoare_modify.
    intros s Hs. eapply registry_ok_ext; [| exact Hs]. reflexivity. }
  intros ?. eapply hoare_bind with (Q := fun _ => registry_ok).
  { apply hoare_modify. intros s Hs. apply registry_ok_dict_del. exact Hs. }
  intros ?. apply assign_roles_WF.
Qed.

Lemma keeps_step_WF e : keeps WF (step e).
Proof.
  destruct e; simpl.
  - apply keeps_bind; [apply keeps_register_WF | intro; apply keeps_ret].
  - apply keeps_handle_message_WF.
  - apply keeps_cleanup_player_WF.
Qed.

Lemma keeps_post {A : Type} (I : Server -> Prop) (m : M A) s :
  keeps I m -> I s -> I (post m s).
Proof.
  intros H Hs. specialize (H s Hs). unfold post.
  destruct (m s) as [[[a | x] s'] e]; exact H.
Qed.

Lemma WF_init c now tape : WF (init c now tape).
Proof.
  split; split; simpl; auto; discriminate.
Qed.

(** Every reachable server is well-formed. *)
Lemma reachable_WF s : reachable s -> WF s.
Proof.
  induction 1.
  - apply WF_init.
  - apply keeps_post; [apply keeps_step_WF | assumption].
  - apply WF_set_rnd. assumption.
Qed.


Lemma wf_WF s : wf s = true -> WF s.
Proof.
  unfold wf, fields_ok, roles_ok. rewrite !andb_true_iff.
  intros [[Hn Hc] [Hr Hm]]. rewrite forallb_forall in Hc, Hr.
  split; split; auto.
  - intros k p Hp. apply (Hc (k, p)). apply assoc_In. exact Hp.
  - intros k p Hp. specialize (Hr (k, p) (assoc_In _ _ _ Hp)). simpl in Hr.
    destruct (p_role p), (expected_role s k); auto; discriminate.
  - destruct (players s); [left; reflexivity | right].
    apply negb_true_iff. exact Hm.
Qed.

(** In a well-formed server exactly the hunter's dict has role ['pacman']. *)
Lemma count_key d h :
  nodup_keys d = true -> has_key h d = true ->
  List.length (filter (fun kp => String.eqb (fst kp) h) d) = 1%nat.
Proof.
  induction d as [| [k v] d IH]; simpl; [discriminate |].
  rewrite andb_true_iff, negb_true_iff. intros [Hk Hn].
  unfold has_key. simpl. rewrite String.eqb_sym.
  destruct (String.eqb k h) eqn:Hkh; simpl.
  - intros _. apply String.eqb_eq in Hkh. subst k. f_equal.
    rewrite (proj2 (length_zero_iff_nil _)); auto.
    destruct (filter _ d) as [| [k' v'] l] eqn:Hf; auto.
    assert (Hin : In (k', v') (filter (fun kp => String.eqb (fst kp) h) d))
      by (rewrite Hf; left; reflexivity).
    apply filter_In in Hin. destruct Hin as [Hin Heq]. simpl in Heq.
    apply String.eqb_eq in Heq. subst k'.
    assert (has_key h d = true) by (apply has_key_In; apply (in_map fst _ _ Hin)).
    congruence.
  - intros H. apply IH; auto.
Qed.

Lemma hunters_WF s :
  WF s -> hunters s = match players s with [] => 0%nat | _ :: _ => 1%nat end.
Proof.
  intros [[Hn Hc] [Hr Hm]]. unfold hunters.
  destruct (players s) as [| kp d] eqn:Hd; [reflexivity |].
  destruct Hm as [Hm | Hm]; [discriminate |].
  unfold pacman_missing in Hm. destruct (pacman_player_id s) as [h |] eqn:Hh;
    [| discriminate].
  apply negb_false_iff in Hm. rewrite Hd in Hm.
  rewrite <- (count_key (kp :: d) h); auto.
  f_equal. apply filter_ext_in. intros [k p] Hin. simpl.
  assert (Hp : assoc k (kp :: d) = Some p) by (apply In_assoc; auto).
  rewrite (Hr k p Hp). unfold expected_role, is_pacman_id. rewrite Hh.
  destruct (String.eqb k h); reflexivity.
Qed.

(** C1 -- single hunter.  In every state reachable by registrations,
    dispatches and unregistrations, whatever the random module returns, no
    player has role ['pacman'] when the registry is empty and exactly one has
    it otherwise. *)
Theorem single_hunter s :
  reachable s ->
  hunters s = match players s with [] => 0%nat | _ :: _ => 1%nat end.
Proof. intros H. apply hunters_WF. apply reachable_WF. exact H. Qed.

Lemma reachable_run es : forall s, reachable s -> reachable (run es s).
Proof.
  induction es as [| e es IH]; intros s Hs; simpl; auto.
  apply IH. apply reach_step. exact Hs.
Qed.

(** Two players register on the sample server: one hunter. *)
Lemma single_hunter_witness :
  reachable (run [Register 1%nat; Register 2%nat] server0)
  /\ hunters (run [Register 1%nat; Register 2%nat] server0) = 1%nat.
Proof.
  assert (H : reachable (run [Register 1%nat; Register 2%nat] server0))
    by (apply reachable_run; apply reach_init).
  split; [exact H |]. exact (single_hunter _ H).
Defined.

(** ** The respawn scheduler *)

(** The pass is due from 30 seconds on. *)
Lemma respawn_due_iff now s :
  respawn_due now s = true <-> 30 * 1000000 <= now - last_respawn_time s.
Proof.
  unfold respawn_due, total_seconds, dot_respawn_interval.
  rewrite Qle_bool_iff. unfold Qle. simpl. lia.
Qed.

Lemma drop_0 s : drop 0 s = s.
Proof. destruct s; reflexivity. Qed.

Lemma pop_drop s : pop s = drop 1 s.
Proof. unfold pop, drop. destruct s as [? ? ? ? ? ? ? ? [| u t]]; reflexivity. Qed.

Lemma drop_drop n m s : drop n (drop m s) = drop (m + n) s.
Proof. unfold drop. simpl. rewrite skipn_skipn. rewrite Nat.add_comm. reflexivity. Qed.

Lemma restore_length {A : Type} (eaten : A -> bool) clear threshold items :
  forall tape, List.length (restore eaten clear threshold items tape) = List.length items.
Proof.
  induction items as [| a l IH]; intros tape; simpl; auto.
  destruct (eaten a); simpl; rewrite IH; reflexivity.
Qed.

Lemma nth_tl {A : Type} (n : nat) (l : list A) (d : A) :
  nth n (tl l) d = nth (S n) l d.
Proof. destruct l; simpl; auto. destruct n; reflexivity. Qed.

(** Item [i] meets the variate whose rank is the number of consumed items
    before it. *)
Lemma restore_nth {A : Type} (eaten : A -> bool) clear threshold items :
  forall tape i a,
    nth_error items i = Some a ->
    nth_error (restore eaten clear threshold items tape) i
    = Some (if eaten a
               && exceeds (nth (List.length (filter eaten (firstn i items))) tape 0%Q)
                          threshold
            then (clear a, true) else (a, false)).
Proof.
  induction items as [| b l IH]; intros tape i a Hi.
  - destruct i; discriminate.
  - destruct i as [| i]; simpl in Hi |- *.
    + injection Hi as ->. destruct (eaten a); simpl; reflexivity.
    + destruct (eaten b) eqn:Hb; simpl.
      * rewrite (IH _ _ _ Hi), nth_tl. reflexivity.
      * rewrite (IH _ _ _ Hi). reflexivity.
Qed.

Lemma respawn_snowflake_run s ds :
  map_m respawn_snowflake ds s
  = (Ok (restore get_eaten (with_eaten false) (7 # 10) ds (rnd s)),
     drop (List.length (filter get_eaten ds)) s, []).
Proof.
  revert s. induction ds as [| d l IH]; intros s; simpl.
  - rewrite drop_0. reflexivity.
  - unfold bind at 1. unfold respawn_snowflake at 1.
    destruct (get_eaten d) eqn:Hd.
    + unfold bind at 1. rewrite random_random_run, pop_drop.
      assert (Hdraw : draw s = nth 0 (rnd s) 0%Q)
        by (unfold draw; destruct (rnd s); reflexivity).
      rewrite Hdraw. unfold exceeds.
      destruct (negb (Qle_bool (nth 0 (rnd s) 0%Q) (7 # 10))); unfold ret, bind;
        rewrite IH, drop_drop; reflexivity.
    + unfold ret, bind. rewrite IH. reflexivity.
Qed.

Lemma respawn_icicle_run s ps :
  map_m respawn_icicle ps s
  = (Ok (restore i_eaten (with_i_eaten false) (5 # 10) ps (rnd s)),
     drop (List.length (filter i_eaten ps)) s, []).
Proof.
  revert s. induction ps as [| p l IH]; intros s; simpl.
  - rewrite drop_0. reflexivity.
  - unfold bind at 1. unfold respawn_icicle at 1.
    destruct (i_eaten p) eqn:Hp.
    + unfold bind at 1. rewrite random_random_run, pop_drop.
      assert (Hdraw : draw s = nth 0 (rnd s) 0%Q)
        by (unfold draw; destruct (rnd s); reflexivity).
      rewrite Hdraw. unfold exceeds.
      destruct (negb (Qle_bool (nth 0 (rnd s) 0%Q) (5 # 10))); unfold ret, bind;
        rewrite IH, drop_drop; reflexivity.
    + unfold ret, bind. rewrite IH. reflexivity.
Qed.

Lemma nth_set_nth {A : Type} (f : A -> A) (d : A) (l : list A) :
  forall n, (n < List.length l)%nat -> nth n (set_nth n f l) d = f (nth n l d).
Proof.
  induction l as [| a l IH]; intros n Hn; simpl in Hn; [lia |].
  destruct n; simpl; auto. apply IH. lia.
Qed.

Lemma set_nth_overflow {A : Type} (f : A -> A) (l : list A) :
  forall n, (List.length l <= n)%nat -> set_nth n f l = l.
Proof.
  induction l as [| a l IH]; intros n Hn; simpl in *; auto.
  destruct n; [lia |]. rewrite IH; auto. lia.
Qed.

Lemma length_set_nth {A : Type} (f : A -> A) (l : list A) :
  forall n, List.length (set_nth n f l) = List.length l.
Proof.
  induction l as [| a l IH]; intros n; simpl; auto.
  destruct n; simpl; auto.
Qed.

(** Writing the collectibles of the active arena. *)
Lemma dots_set_dots v s :
  (current_map s < List.length (maps s))%nat -> dots (set_dots v s) = v.
Proof.
  intros H. unfold dots, cur, set_dots. simpl. rewrite nth_set_nth; auto.
Qed.

Lemma power_pellets_set_power_pellets v s :
  (current_map s < List.length (maps s))%nat ->
  power_pellets (set_power_pellets v s) = v.
Proof.
  intros H. unfold power_pellets, cur, set_power_pellets. simpl.
  rewrite nth_set_nth; auto.
Qed.

Lemma power_pellets_set_dots v s : power_pellets (set_dots v s) = power_pellets s.
Proof.
  unfold power_pellets, cur, set_dots. simpl.
  destruct (Nat.lt_ge_cases (current_map s) (List.length (maps s))) as [H | H].
  - rewrite nth_set_nth; auto.
  - rewrite set_nth_overflow; auto.
Qed.

Lemma dots_set_power_pellets v s : dots (set_power_pellets v s) = dots s.
Proof.
  unfold dots, cur, set_power_pellets. simpl.
  destruct (Nat.lt_ge_cases (current_map s) (List.length (maps s))) as [H | H].
  - rewrite nth_set_nth; auto.
  - rewrite set_nth_overflow; auto.
Qed.

Lemma in_range_of_dot s i d :
  nth_error (dots s) i = Some d -> (current_map s < List.length (maps s))%nat.
Proof.
  intros H. destruct (Nat.lt_ge_cases (current_map s) (List.length (maps s))) as [Hl | Hl];
    auto.
  unfold dots, cur in H. rewrite nth_overflow in H; auto. destruct i; discriminate.
Qed.

Lemma in_range_of_icicle s i p :
  nth_error (power_pellets s) i = Some p ->
  (current_map s < List.length (maps s))%nat.
Proof.
  intros H. destruct (Nat.lt_ge_cases (current_map s) (List.length (maps s))) as [Hl | Hl];
    auto.
  unfold power_pellets, cur in H. rewrite nth_overflow in H; auto.
  destruct i; discriminate.
Qed.

Lemma check_snowflake_respawn_eq now s :
  check_snowflake_respawn now s =
    if respawn_due now s then
      if 0 <? (count_true (pass_dots s) + count_true (pass_icicles s)) then
        (Ok tt, set_last_respawn_time now (after_pass s), [Log info])
      else (Ok tt, after_pass s, [])
    else (Ok tt, s, []).
Proof.
  unfold check_snowflake_respawn, bind at 1, get_state.
  destruct (respawn_due now s); [| reflexivity]. unfold when at 1.
  unfold bind at 1. rewrite respawn_snowflake_run.
  unfold bind, modify. rewrite respawn_icicle_run.
  rewrite power_pellets_set_dots.
  change (power_pellets (drop (List.length (filter get_eaten (dots s))) s))
    with (power_pellets s).
  change (rnd (set_dots (map fst (restore get_eaten (with_eaten false) (7 # 10) (dots s) (rnd s)))
                 (drop (List.length (filter get_eaten (dots s))) s)))
    with (skipn (eaten_dots s) (rnd s)).
  fold (pass_dots s). fold (eaten_dots s). fold (pass_icicles s).
  unfold when, emit, ret.
  destruct (0 <? (count_true (pass_dots s) + count_true (pass_icicles s))); reflexivity.
Qed.

Lemma count_true_pos {A : Type} (l : list (A * bool)) :
  (0 <? count_true l) = true <-> exists i a, nth_error l i = Some (a, true).
Proof.
  unfold count_true. rewrite Z.ltb_lt. split.
  - intros H. destruct (filter snd l) as [| [a b] r] eqn:Hf; [simpl in H; lia |].
    assert (Hin : In (a, b) (filter snd l)) by (rewrite Hf; left; reflexivity).
    apply filter_In in Hin. destruct Hin as [Hin Hb]. simpl in Hb. subst b.
    apply In_nth_error in Hin. destruct Hin as [i Hi]. eauto.
  - intros (i & a & Hi). apply nth_error_In in Hi.
    assert (Hin : In (a, true) (filter snd l)) by (apply filter_In; auto).
    destruct (filter snd l); [contradiction | simpl; lia].
Qed.

Lemma pass_dots_nth s i d :
  nth_error (dots s) i = Some d ->
  nth_error (pass_dots s) i
  = Some (if dot_restored s i d then (with_eaten false d, true) else (d, false)).
Proof.
  intros H. unfold pass_dots. rewrite (restore_nth _ _ _ _ _ _ _ H). reflexivity.
Qed.

Lemma pass_icicles_nth s i p :
  nth_error (power_pellets s) i = Some p ->
  nth_error (pass_icicles s) i
  = Some (if icicle_restored s i p then (with_i_eaten false p, true) else (p, false)).
Proof.
  intros H. unfold pass_icicles. rewrite (restore_nth _ _ _ _ _ _ _ H).
  unfold icicle_restored, variate, eaten_icicles_before.
  assert (Hn : forall n, nth n (skipn (eaten_dots s) (rnd s)) 0%Q
                         = nth (eaten_dots s + n) (rnd s) 0%Q).
  { intros n. generalize (eaten_dots s) (rnd s). intros m. induction m as [| m IH];
      intros l; simpl; auto. destruct l; simpl; auto. destruct n; reflexivity. }
  rewrite Hn. reflexivity.
Qed.

Lemma pass_restores_some s :
  (0 <? (count_true (pass_dots s) + count_true (pass_icicles s))) = true
  <-> restores_some s.
Proof.
  assert (Hnn : forall A (l : list (A * bool)), 0 <= count_true l)
    by (intros; unfold count_true; lia).
  split.
  - intros H. apply Z.ltb_lt in H.
    destruct (0 <? count_true (pass_dots s)) eqn:Hd.
    + left. apply count_true_pos in Hd. destruct Hd as (i & a & Hi).
      assert (Hlt : (i < List.length (dots s))%nat).
      { unfold pass_dots in Hi. rewrite <- (restore_length get_eaten (with_eaten false)
          (7 # 10) (dots s) (rnd s)). apply nth_error_Some. congruence. }
      apply nth_error_Some in Hlt.
      destruct (nth_error (dots s) i) as [d |] eqn:Hdi; [| congruence].
      exists i, d. split; auto. rewrite (pass_dots_nth s i d Hdi) in Hi.
      destruct (dot_restored s i d); [reflexivity | discriminate].
    + right. apply Z.ltb_ge in Hd.
      assert (Hp : (0 <? count_true (pass_icicles s)) = true)
        by (apply Z.ltb_lt; pose proof (Hnn _ (pass_dots s)); lia).
      apply count_true_pos in Hp. destruct Hp as (i & a & Hi).
      assert (Hlt : (i < List.length (power_pellets s))%nat).
      { unfold pass_icicles in Hi.
        rewrite <- (restore_length i_eaten (with_i_eaten false) (5 # 10)
                      (power_pellets s) (skipn (eaten_dots s) (rnd s))).
        apply nth_error_Some. congruence. }
      apply nth_error_Some in Hlt.
      destruct (nth_error (power_pellets s) i) as [p |] eqn:Hpi; [| congruence].
      exists i, p. split; auto. rewrite (pass_icicles_nth s i p Hpi) in Hi.
      destruct (icicle_restored s i p); [reflexivity | discriminate].
  - intros [(i & d & Hi & Hr) | (i & p & Hi & Hr)]; apply Z.ltb_lt.
    + assert (Hc : (0 <? count_true (pass_dots s)) = true).
      { apply count_true_pos. exists i, (with_eaten false d).
        rewrite (pass_dots_nth s i d Hi), Hr. reflexivity. }
      apply Z.ltb_lt in Hc. pose proof (Hnn _ (pass_icicles s)). lia.
    + assert (Hc : (0 <? count_true (pass_icicles s)) = true).
      { apply count_true_pos. exists i, (with_i_eaten false p).
        rewrite (pass_icicles_nth s i p Hi), Hr. reflexivity. }
      apply Z.ltb_lt in Hc. pose proof (Hnn _ (pass_dots s)). lia.
Qed.

Lemma dots_after_pass s i d :
  nth_error (dots s) i = Some d ->
  nth_error (dots (after_pass s)) i
  = Some (if dot_restored s i d then with_eaten false d else d).
Proof.
  intros H. pose proof (in_range_of_dot s i d H) as Hr.
  unfold after_pass. rewrite dots_set_power_pellets.
  change (dots (drop (List.length (filter i_eaten (power_pellets s)))
                  (set_dots (map fst (pass_dots s)) (drop (eaten_dots s) s))))
    with (dots (set_dots (map fst (pass_dots s)) (drop (eaten_dots s) s))).
  rewrite dots_set_dots; [| exact Hr].
  rewrite nth_error_map, (pass_dots_nth s i d H). simpl.
  destruct (dot_restored s i d); reflexivity.
Qed.

Lemma power_pellets_after_pass s i p :
  nth_error (power_pellets s) i = Some p ->
  nth_error (power_pellets (after_pass s)) i
  = Some (if icicle_restored s i p then with_i_eaten false p else p).
Proof.
  intros H. pose proof (in_range_of_icicle s i p H) as Hr.
  unfold after_pass. rewrite power_pellets_set_power_pellets;
    [| simpl; rewrite length_set_nth; exact Hr].
  rewrite nth_error_map, (pass_icicles_nth s i p H). simpl.
  destruct (icicle_restored s i p); reflexivity.
Qed.

(** C8 (amended) -- the respawn scheduler.  A pass runs on a broadcast once
    at least 30 seconds have passed since the last pass that restored
    something, and not before.  In a pass every consumed collectible meets a
    variate of its own and is restored exactly when that variate exceeds 0.7
    (probability 0.3 for a uniform variate), every consumed power item meets
    a further variate of its own and is restored exactly when it exceeds 0.5;
    other items are untouched.  The timer is set to the current time when the
    pass restored at least one item and is left alone otherwise, so that after
    an empty pass the pass is due again at any later broadcast. *)
Theorem respawn_pass now s :
  let s' := post (check_snowflake_respawn now) s in
  result (check_snowflake_respawn now) s = Ok tt
  /\ (now - last_respawn_time s < 30 * 1000000 -> s' = s)
  /\ (30 * 1000000 <= now - last_respawn_time s ->
      (forall i d, nth_error (dots s) i = Some d ->
         nth_error (dots s') i
         = Some (if dot_restored s i d then with_eaten false d else d))
      /\ (forall i p, nth_error (power_pellets s) i = Some p ->
            nth_error (power_pellets s') i
            = Some (if icicle_restored s i p then with_i_eaten false p else p))
      /\ (restores_some s -> last_respawn_time s' = now)
      /\ (~ restores_some s ->
          last_respawn_time s' = last_respawn_time s
          /\ forall now', now <= now' -> respawn_due now' s' = true)).
Proof.
  intros s'. unfold s', result, post. rewrite check_snowflake_respawn_eq.
  destruct (respawn_due now s) eqn:Hdue.
  - apply respawn_due_iff in Hdue.
    destruct (0 <? (count_true (pass_dots s) + count_true (pass_icicles s))) eqn:Hc;
      simpl.
    + apply pass_restores_some in Hc.
      split; [reflexivity |]. split; [lia |]. intros _.
      split; [intros i d Hd; apply (dots_after_pass s i d Hd) |].
      split; [intros i p Hp; apply (power_pellets_after_pass s i p Hp) |].
      split; [reflexivity | contradiction].
    + assert (Hn : ~ restores_some s).
      { intros H. apply pass_restores_some in H. congruence. }
      split; [reflexivity |]. split; [lia |]. intros _.
      split; [intros i d Hd; apply (dots_after_pass s i d Hd) |].
      split; [intros i p Hp; apply (power_pellets_after_pass s i p Hp) |].
      split; [contradiction |]. intros _. split; [reflexivity |].
      intros now' Hle. apply respawn_due_iff.
      change (last_respawn_time (after_pass s)) with (last_respawn_time s). lia.
  - simpl. split; [reflexivity |]. split; [reflexivity |].
    intros H. apply respawn_due_iff in H. congruence.
Qed.

Lemma respawn_pass_witness :
  30 * 1000000 <= 40 * 1000000 - last_respawn_time server_eaten
  /\ option_map get_eaten
       (nth_error (dots (post (check_snowflake_respawn (40 * 1000000)) server_eaten)) 0)
     = Some false
  /\ last_respawn_time (post (check_snowflake_respawn (40 * 1000000)) server_eaten)
     = 40 * 1000000.
Proof.
  assert (H : 30 * 1000000 <= 40 * 1000000 - last_respawn_time server_eaten)
    by (vm_compute; discriminate).
  split; [exact H |].
  destruct (respawn_pass (40 * 1000000) server_eaten) as (_ & _ & Hpass).
  destruct (Hpass H) as (Hd & _ & Ht & _).
  split.
  - rewrite (Hd 0%nat (mkDot 400 500 3 (4 # 5) regular (Some true)) eq_refl).
    reflexivity.
  - apply Ht. left. exists 0%nat, (mkDot 400 500 3 (4 # 5) regular (Some true)).
    split; reflexivity.
Defined.

(** Exactly 30 seconds after the last pass the elapsed time does not exceed
    30, and the pass runs all the same: the first snowflake comes back. *)
Lemma respawn_pass_at_30_seconds :
  let now := 30 * 1000000 in
  ~ (inject_Z 30 < total_seconds (now - last_respawn_time server_eaten))%Q
  /\ option_map get_eaten (nth_error (dots server_eaten) 0) = Some true
  /\ option_map get_eaten
       (nth_error (dots (post (check_snowflake_respawn now) server_eaten)) 0)
     = Some false.
Proof.
  split; [| split].
  - vm_compute. intros H. discriminate H.
  - vm_compute. reflexivity.
  - vm_compute. reflexivity.
Qed.

(** ** Broadcasts *)

Lemma bind_run {A B : Type} (m : M A) (f : A -> M B) s a s1 e1 :
  m s = (Ok a, s1, e1) ->
  bind m f s = match f a s1 with (r, s2, e2) => (r, s2, e1 ++ e2) end.
Proof. intros H. unfold bind. rewrite H. reflexivity. Qed.


Lemma In_has_key k p d : In (k, p) d -> has_key k d = true.
Proof. intros H. apply has_key_In. apply (in_map fst _ _ H). Qed.

Lemma current_map_data_run s m :
  nth_error (maps s) (current_map s) = Some m -> current_map_data s = (Ok m, s, []).
Proof. intros H. unfold current_map_data. rewrite H. reflexivity. Qed.

Lemma fields_ok_color s k p :
  fields_ok s = true -> In (k, p) (players s) -> exists c, p_color p = Some c.
Proof.
  unfold fields_ok. rewrite forallb_forall. intros H Hin.
  specialize (H (k, p) Hin). unfold complete in H. simpl in H.
  destruct (p_color p); [eauto | discriminate].
Qed.

Lemma map_m_cons {A B : Type} (body : A -> M B) a l :
  map_m body (a :: l) = (b <- body a ;; bs <- map_m body l ;; ret (b :: bs)).
Proof. reflexivity. Qed.

(** The snapshots of a broadcast are built without raising and without
    touching the server. *)
Lemma players_data_run s d :
  (forall k p, In (k, p) d -> exists c, p_color p = Some c) ->
  exists vs,
    map_m (fun kp => v <- lift (player_view (fst kp) (snd kp)) ;; ret (fst kp, v)) d s
    = (Ok vs, s, []).
Proof.
  induction d as [| [k p] d IH]; intros Hc.
  - eexists. reflexivity.
  - destruct (Hc k p) as [c Hcol]; [left; reflexivity |].
    destruct IH as [vs Hvs]; [intros; eapply Hc; right; eauto |].
    rewrite map_m_cons.
    erewrite bind_run;
      [| unfold bind, lift, player_view; simpl; rewrite Hcol; reflexivity].
    rewrite (bind_run _ _ _ _ _ _ Hvs). eexists. reflexivity.
Qed.

Lemma prepare_game_state_run s pid p m :
  fields_ok s = true ->
  nth_error (maps s) (current_map s) = Some m ->
  assoc pid (players s) = Some p ->
  exists g, prepare_game_state pid s = (Ok g, s, []).
Proof.
  intros Hf Hm Hp. unfold prepare_game_state, bind at 1, get_state.
  destruct (players_data_run s (players s)) as [vs Hvs].
  { intros k q Hin. eapply fields_ok_color; eauto. }
  rewrite (bind_run _ _ _ _ _ _ Hvs).
  rewrite (bind_run _ _ _ _ _ _ (current_map_data_run s m Hm)).
  rewrite (bind_run _ _ _ _ _ _ (get_player_run s pid p Hp)).
  eexists. reflexivity.
Qed.

Lemma broadcast_tasks_run s m (d : list (string * Player)) :
  fields_ok s = true ->
  nth_error (maps s) (current_map s) = Some m ->
  (forall k p, In (k, p) d -> has_key k (players s) = true) ->
  exists tasks,
    map_m (fun kp =>
             g <- prepare_game_state (fst kp) ;;
             me <- get_player (fst kp) ;;
             ret (Send (p_websocket me) (game_state g))) d s
    = (Ok tasks, s, [])
    /\ Forall routine tasks.
Proof.
  intros Hf Hm. induction d as [| [k p] d IH]; intros Hk.
  - eexists. split; [reflexivity | constructor].
  - assert (Hkey : has_key k (players s) = true) by (eapply Hk; left; reflexivity).
    apply has_key_assoc in Hkey. destruct Hkey as [q Hq].
    destruct (prepare_game_state_run s k q m Hf Hm Hq) as [g Hg].
    destruct IH as (tasks & Ht & Hr); [intros; eapply Hk; right; eauto |].
    rewrite map_m_cons.
    erewrite bind_run;
      [| cbn [fst]; rewrite (bind_run _ _ _ _ _ _ Hg);
         rewrite (bind_run _ _ _ _ _ _ (get_player_run s k q Hq)); reflexivity].
    rewrite (bind_run _ _ _ _ _ _ Ht). eexists. split; [reflexivity |].
    constructor; [exact I | exact Hr].
Qed.

Lemma for_each_emit tasks s : for_each tasks emit s = (Ok tt, s, tasks).
Proof.
  revert s. induction tasks as [| t l IH]; intros s; simpl; auto.
  unfold bind, emit at 1. rewrite IH. reflexivity.
Qed.

(** What a respawn check leaves alone. *)
Lemma check_snowflake_respawn_frame now s :
  let s' := post (check_snowflake_respawn now) s in
  result (check_snowflake_respawn now) s = Ok tt
  /\ players s' = players s
  /\ pacman_player_id s' = pacman_player_id s
  /\ current_map s' = current_map s
  /\ used_ghost_colors s' = used_ghost_colors s
  /\ connected_clients s' = connected_clients s
  /\ player_counter s' = player_counter s
  /\ List.length (maps s') = List.length (maps s)
  /\ (forall n m, nth_error (maps s) n = Some m ->
        exists m', nth_error (maps s') n = Some m'
                   /\ m_walls m' = m_walls m
                   /\ m_pacman_spawn m' = m_pacman_spawn m
                   /\ m_ghost_spawns m' = m_ghost_spawns m
                   /\ m_name m' = m_name m).
Proof.
  intros s'. unfold s', result, post. rewrite check_snowflake_respawn_eq.
  assert (Hmaps : forall (f g : Map -> Map) l n m,
            (forall x, m_walls (f x) = m_walls x /\ m_pacman_spawn (f x) = m_pacman_spawn x
                       /\ m_ghost_spawns (f x) = m_ghost_spawns x /\ m_name (f x) = m_name x) ->
            nth_error l n = Some m ->
            forall c, exists m', nth_error (set_nth c f l) n = Some m'
                   /\ m_walls m' = m_walls m
                   /\ m_pacman_spawn m' = m_pacman_spawn m
                   /\ m_ghost_spawns m' = m_ghost_spawns m
                   /\ m_name m' = m_name m).
  { intros f g l. induction l as [| a l IH]; intros n m Hf Hn c.
    - destruct n; discriminate.
    - destruct c, n; simpl in *.
      + injection Hn as <-. exists (f a). split; [reflexivity | apply Hf].
      + exists m. auto.
      + injection Hn as <-. exists a. auto.
      + apply IH; auto. }
  assert (Hafter : forall n m, nth_error (maps s) n = Some m ->
            exists m', nth_error (maps (after_pass s)) n = Some m'
                   /\ m_walls m' = m_walls m
                   /\ m_pacman_spawn m' = m_pacman_spawn m
                   /\ m_ghost_spawns m' = m_ghost_spawns m
                   /\ m_name m' = m_name m).
  { intros n m Hn. unfold after_pass, set_power_pellets, set_dots. simpl.
    destruct (Hmaps (with_dots (map fst (pass_dots s))) (fun x => x) (maps s) n m)
      with (c := current_map s) as (m1 & Hn1 & A1 & A2 & A3 & A4); auto.
    destruct (Hmaps (with_power_pellets (map fst (pass_icicles s))) (fun x => x)
                (set_nth (current_map s) (with_dots (map fst (pass_dots s))) (maps s))
                n m1)
      with (c := current_map s) as (m2 & Hn2 & B1 & B2 & B3 & B4); auto.
    exists m2. repeat split; congruence. }
  assert (Hlen : List.length (maps (after_pass s)) = List.length (maps s)).
  { unfold after_pass, set_power_pellets, set_dots. simpl.
    rewrite !length_set_nth. reflexivity. }
  destruct (respawn_due now s);
    [destruct (0 <? (count_true (pass_dots s) + count_true (pass_icicles s))) |];
    simpl; repeat split; auto.
  intros n m Hn. exists m. auto.
Qed.

(** A broadcast returns when every player's dict is complete and the active
    arena exists; it changes the server as its respawn check does. *)
Lemma broadcast_game_state_run now s m :
  fields_ok s = true ->
  nth_error (maps s) (current_map s) = Some m ->
  exists e,
    broadcast_game_state now s = (Ok tt, post (check_snowflake_respawn now) s, e)
    /\ Forall routine e.
Proof.
  intros Hf Hm. unfold broadcast_game_state.
  destruct (check_snowflake_respawn_frame now s)
    as (Hres & Hpl & _ & Hcm & _ & _ & _ & _ & Hmaps).
  unfold result, post in *.
  assert (He1 : Forall routine (effects (check_snowflake_respawn now) s)).
  { unfold effects. rewrite check_snowflake_respawn_eq.
    destruct (respawn_due now s);
      [destruct (0 <? (count_true (pass_dots s) + count_true (pass_icicles s))) |];
      simpl; repeat constructor. }
  unfold effects in He1.
  destruct (check_snowflake_respawn now s) as [[r s1] e1] eqn:Hrun. simpl in *.
  subst r. rewrite (bind_run _ _ _ _ _ _ Hrun).
  unfold bind at 1, get_state.
  destruct (Hmaps _ _ Hm) as (m' & Hm' & _).
  destruct (broadcast_tasks_run s1 m' (players s1)) as (tasks & Ht & Hr).
  { unfold fields_ok. rewrite Hpl. exact Hf. }
  { rewrite Hcm. exact Hm'. }
  { intros k p Hin. eapply In_has_key; eauto. }
  rewrite (bind_run _ _ _ _ _ _ Ht), for_each_emit. eexists.
  split; [reflexivity |]. simpl. apply Forall_app. auto.
Qed.

Lemma voice_sends_routine es : Forall routine es -> voice_sends es = [].
Proof.
  induction 1 as [| e es He _ IH]; [reflexivity |]. simpl.
  destruct e as [| | | | ws []]; simpl in *; try contradiction; exact IH.
Qed.

Lemma rating_updates_routine es : Forall routine es -> rating_updates es = [].
Proof.
  induction 1 as [| e es He _ IH]; [reflexivity |]. simpl.
  destruct e as [| | | | ws []]; simpl in *; try contradiction; exact IH.
Qed.

Lemma voice_sends_app a b : voice_sends (a ++ b) = voice_sends a ++ voice_sends b.
Proof. apply filter_app. Qed.


(** ** Changing the arena *)

Lemma same_but_players_refl s : same_but_players s s.
Proof. repeat split. Qed.

Lemma same_but_players_trans s1 s2 s3 :
  same_but_players s1 s2 -> same_but_players s2 s3 -> same_but_players s1 s3.
Proof.
  unfold same_but_players.
  intros (A1 & A2 & A3 & A4 & A5 & A6 & A7) (B1 & B2 & B3 & B4 & B5 & B6 & B7).
  repeat split; congruence.
Qed.

Lemma same_but_players_pop s : same_but_players s (pop s).
Proof. unfold pop. destruct (rnd s); repeat split. Qed.

Lemma moved_refl p : moved p p.
Proof. unfold moved. destruct p; reflexivity. Qed.

Lemma moved_set_pos x y p : moved p (set_pos x y p).
Proof. reflexivity. Qed.

Lemma moved_trans p1 p2 p3 : moved p1 p2 -> moved p2 p3 -> moved p1 p3.
Proof. unfold moved. intros -> ->. reflexivity. Qed.

Lemma moved_role p p' : moved p p' -> p_role p' = p_role p.
Proof. unfold moved. intros ->. reflexivity. Qed.

(** One iteration of the loop that moves the players to spawn points. *)
Lemma respawn_player_run m k s p g gs :
  assoc k (players s) = Some p ->
  m_ghost_spawns m = g :: gs ->
  exists x y s1,
    respawn_player m k s
    = (Ok tt, set_players (upd k (set_pos x y) (players s)) s1, [])
    /\ players s1 = players s /\ same_but_players s s1
    /\ at_spawn m (set_pos x y p).
Proof.
  intros Hp Hg. unfold respawn_player.
  rewrite (bind_run _ _ _ _ _ _ (get_player_run s k p Hp)).
  unfold at_spawn. simpl p_role. destruct (p_role p) eqn:Hr.
  - change (Role_eqb ghost pacman) with false. cbv iota. rewrite Hg.
    rewrite (bind_run _ _ _ _ _ _ (random_choice_run g gs s)).
    rewrite (update_player_run (pop s) k _ p); [| rewrite players_pop; exact Hp].
    rewrite players_pop.
    exists (fst (chosen (g :: gs) g s)), (snd (chosen (g :: gs) g s)), (pop s).
    split; [reflexivity |]. split; [apply players_pop |].
    split; [apply same_but_players_pop |]. simpl.
    rewrite <- surjective_pairing. apply chosen_In.
  - change (Role_eqb pacman pacman) with true. cbv iota.
    rewrite (update_player_run s k _ p Hp).
    exists (fst (m_pacman_spawn m)), (snd (m_pacman_spawn m)), s.
    split; [reflexivity |]. split; [reflexivity |].
    split; [apply same_but_players_refl |]. simpl.
    rewrite <- surjective_pairing. reflexivity.
Qed.

(** The whole loop: every player visited ends on a spawn point that fits its
    role, and only the position of a player changes. *)
Lemma respawn_loop_spec m g gs ks : forall s,
  m_ghost_spawns m = g :: gs ->
  (forall k, In k ks -> has_key k (players s) = true) ->
  exists s',
    for_each ks (respawn_player m) s = (Ok tt, s', [])
    /\ keys (players s') = keys (players s)
    /\ same_but_players s s'
    /\ (forall k p, assoc k (players s) = Some p ->
          exists p', assoc k (players s') = Some p' /\ moved p p'
                     /\ (In k ks -> at_spawn m p')
                     /\ (~ In k ks -> p' = p)).
Proof.
  induction ks as [| a ks IH]; intros s Hg Hks.
  - exists s. split; [reflexivity |]. split; [reflexivity |].
    split; [apply same_but_players_refl |].
    intros k p Hp. exists p. split; [exact Hp |]. split; [apply moved_refl |].
    split; [intros [] | reflexivity].
  - assert (Ha : has_key a (players s) = true) by (apply Hks; left; reflexivity).
    apply has_key_assoc in Ha. destruct Ha as [p Hp].
    destruct (respawn_player_run m a s p g gs Hp Hg)
      as (x & y & s1 & Hrun & Hpl & Hsame & Hat).
    set (s2 := set_players (upd a (set_pos x y) (players s)) s1) in *.
    destruct (IH s2 Hg) as (s' & Hrun' & Hkeys' & Hsame' & Hall).
    { intros k Hk. unfold s2. simpl. rewrite has_key_upd. apply Hks. right. exact Hk. }
    exists s'. split.
    { simpl. rewrite (bind_run _ _ _ _ _ _ Hrun), Hrun'. reflexivity. }
    split; [rewrite Hkeys'; unfold s2; simpl; apply keys_upd |].
    split.
    { eapply same_but_players_trans; [| exact Hsame'].
      eapply same_but_players_trans; [exact Hsame | repeat split]. }
    intros k q Hq. destruct (String.eqb k a) eqn:Hka.
    + apply String.eqb_eq in Hka. subst k. assert (q = p) by congruence. subst q.
      destruct (Hall a (set_pos x y p)) as (p' & Hp' & Hmv & Hin' & Hnin').
      { unfold s2. simpl. rewrite assoc_upd_eq, Hp. reflexivity. }
      exists p'. split; [exact Hp' |].
      split; [eapply moved_trans; [apply (moved_set_pos x y) | exact Hmv] |].
      split.
      * intros _. destruct (in_dec string_dec a ks) as [Hi | Hi]; [apply (Hin' Hi) |].
        rewrite (Hnin' Hi). exact Hat.
      * intros Hn. exfalso. apply Hn. left. reflexivity.
    + apply String.eqb_neq in Hka.
      destruct (Hall k q) as (p' & Hp' & Hmv & Hin' & Hnin').
      { unfold s2. simpl. rewrite assoc_upd_neq; auto. }
      exists p'. split; [exact Hp' |]. split; [exact Hmv |]. split.
      * intros [Hi | Hi]; [congruence | auto].
      * intros Hn. apply Hnin'. intros Hi. apply Hn. right. exact Hi.
Qed.

Lemma fields_ok_upd s k f :
  (forall p, complete p = true -> complete (f p) = true) ->
  fields_ok s = true -> fields_ok (set_players (upd k f (players s)) s) = true.
Proof.
  unfold fields_ok. simpl. intros Hf. induction (players s) as [| [k' v] d IH]; simpl; auto.
  rewrite andb_true_iff. intros [Hv Hd].
  destruct (String.eqb k k'); simpl; rewrite andb_true_iff; auto.
Qed.

Lemma keeps_fields_ok_respawn_player m k :
  keeps (fun s => fields_ok s = true) (respawn_player m k).
Proof.
  unfold respawn_player.
  repeat first
    [ keeps_step
    | apply keeps_random_choice; intros ? ? H; exact H
    | apply keeps_update_player; intros ? ? ? ?; apply fields_ok_upd;
      [complete_tac | assumption] ].
Qed.

Lemma nth_error_nth_eq {A : Type} (l : list A) n a d :
  nth_error l n = Some a -> nth n l d = a.
Proof. intros H. apply nth_error_nth. exact H. Qed.

(** [handle_change_map] on a valid arena index. *)
Lemma handle_change_map_run s data j n m g gs :
  subscript data "map_id" = Ok j -> as_int j = Ok n ->
  0 <= n -> nth_error (maps s) (Z.to_nat n) = Some m ->
  m_ghost_spawns m = g :: gs ->
  exists s',
    handle_change_map data s = (Ok tt, s', [Log info])
    /\ current_map s' = Z.to_nat n
    /\ maps s' = maps s
    /\ last_respawn_time s' = last_respawn_time s
    /\ pacman_player_id s' = pacman_player_id s
    /\ used_ghost_colors s' = used_ghost_colors s
    /\ keys (players s') = keys (players s)
    /\ (fields_ok s = true -> fields_ok s' = true)
    /\ (forall k p, assoc k (players s) = Some p ->
          exists p', assoc k (players s') = Some p' /\ moved p p' /\ at_spawn m p').
Proof.
  intros Hj Hn Hpos Hm Hg. unfold handle_change_map.
  rewrite (bind_run _ _ (s) j s []); [| unfold lift; rewrite Hj; reflexivity].
  rewrite (bind_run _ _ (s) n s []); [| unfold lift; rewrite Hn; reflexivity].
  unfold bind at 1, get_state.
  assert (Hlt : (Z.to_nat n < List.length (maps s))%nat)
    by (apply nth_error_Some; congruence).
  assert (Hrange : (0 <=? n) && (n <? Z.of_nat (List.length (maps s))) = true).
  { apply andb_true_iff. split; [apply Z.leb_le; lia | apply Z.ltb_lt; lia]. }
  rewrite Hrange. unfold when.
  set (s1 := set_current_map (Z.to_nat n) s).
  rewrite (bind_run _ _ s (tt) s1 []); [| reflexivity].
  rewrite (bind_run _ _ s1 m s1 []); [| apply current_map_data_run; exact Hm].
  unfold bind at 1, get_state.
  destruct (respawn_loop_spec m g gs (keys (players s1)) s1 Hg)
    as (s2 & Hrun & Hkeys & Hsame & Hall).
  { intros k Hk. apply has_key_In. exact Hk. }
  rewrite (bind_run _ _ _ _ _ _ Hrun). unfold emit. simpl.
  destruct Hsame as (S1 & S2 & S3 & S4 & S5 & S6 & S7).
  exists s2. split; [reflexivity |]. repeat split; auto.
  - intros Hf.
    pose proof (keeps_for_each (fun s => fields_ok s = true) (keys (players s1))
                  (respawn_player m) (keeps_fields_ok_respawn_player m)) as Hk.
    specialize (Hk s1 Hf). rewrite Hrun in Hk. exact Hk.
  - intros k p Hp. destruct (Hall k p Hp) as (p' & Hp' & Hmv & Hat & _).
    exists p'. split; [exact Hp' |]. split; [exact Hmv |]. apply Hat.
    apply has_key_In. apply has_key_assoc. eauto.
Qed.

Lemma dispatch_change_map data :
  subscript data "type" = Ok (JStr "change_map") ->
  forall pid s, dispatch pid data s = handle_change_map data s.
Proof.
  intros Ht pid s. unfold dispatch.
  rewrite (bind_run _ _ s (JStr "change_map") s []);
    [| unfold lift; rewrite Ht; reflexivity].
  simpl. destruct (handle_change_map data s) as [[r s'] e]. reflexivity.
Qed.

(** C2 (amended) -- changing the arena.  After a valid [change_map] message
    the handler returns, the selected arena is active, and every connected
    player has kept its role and stands on a spawn point of that arena that
    fits the role.  The collectibles and power items are the ones stored for
    that arena, with the consumed flags they had when it was last active:
    nothing clears them (a respawn pass of the closing broadcast aside). *)
Theorem change_map_relocates s pid data j n m g gs now :
  fields_ok s = true ->
  subscript data "type" = Ok (JStr "change_map") ->
  subscript data "map_id" = Ok j -> as_int j = Ok n ->
  0 <= n -> nth_error (maps s) (Z.to_nat n) = Some m ->
  m_ghost_spawns m = g :: gs ->
  let s' := post (handle_message pid (Decoded data) now) s in
  result (handle_message pid (Decoded data) now) s = Ok tt
  /\ current_map s' = Z.to_nat n
  /\ keys (players s') = keys (players s)
  /\ (forall k p, assoc k (players s) = Some p ->
        exists p', assoc k (players s') = Some p' /\ moved p p' /\ at_spawn m p')
  /\ (respawn_due now s = false ->
      dots s' = m_dots m /\ power_pellets s' = m_power_pellets m).
Proof.
  intros Hf Ht Hj Hn Hpos Hm Hg s'.
  destruct (handle_change_map_run s data j n m g gs Hj Hn Hpos Hm Hg)
    as (s1 & Hrun & Hcm & Hmaps & Htime & _ & _ & Hkeys & Hfields & Hall).
  assert (Hm1 : nth_error (maps s1) (current_map s1) = Some m)
    by (rewrite Hcm, Hmaps; exact Hm).
  destruct (broadcast_game_state_run now s1 m (Hfields Hf) Hm1) as (e & He & _).
  assert (Hmsg : handle_message pid (Decoded data) now s
                 = (Ok tt, post (check_snowflake_respawn now) s1, [Log info] ++ e)).
  { unfold handle_message. rewrite (bind_run _ _ s tt s1 [Log info]).
    - rewrite He. reflexivity.
    - rewrite dispatch_change_map; auto. }
  unfold s', result, post at 1 2 3 4 5. rewrite Hmsg. simpl.
  destruct (check_snowflake_respawn_frame now s1)
    as (_ & Hpl & _ & Hcm' & _).
  split; [reflexivity |]. split; [congruence |]. split; [rewrite Hpl; exact Hkeys |].
  split; [rewrite Hpl; exact Hall |].
  intros Hdue.
  assert (Hdue1 : respawn_due now s1 = false)
    by (unfold respawn_due in *; rewrite Htime; exact Hdue).
  unfold post. rewrite check_snowflake_respawn_eq, Hdue1. simpl.
  unfold dots, power_pellets, cur. rewrite Hcm, Hmaps.
  rewrite (nth_error_nth_eq _ _ _ no_map Hm). auto.
Qed.

(** The hunter of the sample server moves everybody to the second arena. *)
Lemma change_map_relocates_witness :
  let s := server_eaten in
  let m := nth 1 (maps s) no_map in
  let s' := post (handle_message "1" (change_map_message 1) 0) s in
  result (handle_message "1" (change_map_message 1) 0) s = Ok tt
  /\ current_map s' = 1%nat
  /\ keys (players s') = keys (players s)
  /\ (forall k p, assoc k (players s) = Some p ->
        exists p', assoc k (players s') = Some p' /\ moved p p' /\ at_spawn m p')
  /\ (respawn_due 0 s = false ->
      dots s' = m_dots m /\ power_pellets s' = m_power_pellets m).
Proof.
  intros s m.
  apply (change_map_relocates s "1"
           (JDict [("type", JStr "change_map"); ("map_id", JInt 1)]) (JInt 1) 1 m
           (800, 600) [(800, 100); (100, 600); (450, 350)] 0);
    solve [reflexivity | vm_compute; discriminate].
Defined.

(** The first arena, whose snowflakes have all been eaten, is left and
    selected again: the handler returns, the first arena is active, and every
    one of its 120 snowflakes is still consumed. *)
Lemma change_map_keeps_eaten :
  let s := run [Dispatch "1" (change_map_message 1) 0] server_eaten in
  let s' := post (handle_message "1" (change_map_message 0) 0) s in
  result (handle_message "1" (change_map_message 0) 0) s = Ok tt
  /\ current_map s = 1%nat /\ current_map s' = 0%nat
  /\ List.length (dots s') = 120%nat
  /\ forallb get_eaten (dots s') = true.
Proof. vm_compute. repeat split; reflexivity. Qed.

(** ** Voice relay and muting *)

Lemma voice_tasks_run s sender_id sender sender_name audio_data sequence
  (l : list (string * Player)) :
  assoc sender_id (players s) = Some sender ->
  p_name sender = Some sender_name ->
  map_m (fun kp =>
           sender <- get_player sender_id ;;
           sender_name <- field (p_name sender) ;;
           ret (Send (p_websocket (snd kp))
                     (voice_audio sender_id sender_name audio_data sequence))) l s
  = (Ok (map (fun kp => Send (p_websocket (snd kp))
                             (voice_audio sender_id sender_name audio_data sequence)) l),
     s, []).
Proof.
  intros Hp Hn. induction l as [| kp l IH]; [reflexivity |].
  rewrite map_m_cons.
  erewrite bind_run;
    [| rewrite (bind_run _ _ _ _ _ _ (get_player_run s sender_id sender Hp));
       rewrite Hn; reflexivity].
  rewrite (bind_run _ _ _ _ _ _ IH). reflexivity.
Qed.

Lemma broadcast_voice_audio_run s sender_id sender sender_name audio_data sequence :
  assoc sender_id (players s) = Some sender ->
  p_name sender = Some sender_name ->
  broadcast_voice_audio sender_id audio_data sequence s
  = (Ok tt, s,
     map (fun kp => Send (p_websocket (snd kp))
                         (voice_audio sender_id sender_name audio_data sequence))
         (filter (voice_recipient s sender_id) (players s))).
Proof.
  intros Hp Hn. unfold broadcast_voice_audio, bind at 1, get_state.
  rewrite (bind_run _ _ _ _ _ _
             (voice_tasks_run s sender_id sender sender_name audio_data sequence _ Hp Hn)).
  rewrite for_each_emit. reflexivity.
Qed.

Lemma voice_sends_all sender_id sender_name audio_data sequence
  (l : list (string * Player)) :
  voice_sends (map (fun kp => Send (p_websocket (snd kp))
                                   (voice_audio sender_id sender_name audio_data sequence)) l)
  = map (fun kp => Send (p_websocket (snd kp))
                        (voice_audio sender_id sender_name audio_data sequence)) l.
Proof. induction l as [| kp l IH]; simpl; [| rewrite IH]; reflexivity. Qed.

Lemma fields_ok_name s k p :
  fields_ok s = true -> assoc k (players s) = Some p -> exists nm, p_name p = Some nm.
Proof.
  unfold fields_ok. rewrite forallb_forall. intros H Hp.
  specialize (H (k, p) (assoc_In _ _ _ Hp)). unfold complete in H. simpl in H.
  destruct (p_name p); [eauto |]. rewrite andb_false_r in H. discriminate.
Qed.

(** C7 (amended) -- muting is global.  A [mute_player] message from any
    sender that names a registered player writes that player's one ['muted']
    flag and nothing else in the registry.  A [voice_audio] message is relayed
    only if its sender is voice-enabled and not muted, and then to every
    other player who is voice-enabled, not muted and connected: whoever is
    muted is heard by nobody and hears nobody. *)
Theorem mute_is_global s m now :
  fields_ok s = true ->
  nth_error (maps s) (current_map s) = Some m ->
  (forall sender data target muted,
     subscript data "type" = Ok (JStr "mute_player") ->
     subscript data "player_id" = Ok (JStr target) ->
     subscript data "muted" = Ok muted ->
     has_key target (players s) = true ->
     result (handle_message sender (Decoded data) now) s = Ok tt
     /\ players (post (handle_message sender (Decoded data) now) s)
        = upd target (set_muted muted) (players s))
  /\ (forall sender data audio_data sequence p,
        subscript data "type" = Ok (JStr "voice_audio") ->
        subscript data "audio_data" = Ok audio_data ->
        subscript data "sequence" = Ok sequence ->
        assoc sender (players s) = Some p ->
        exists sender_name,
          p_name p = Some sender_name
          /\ result (handle_message sender (Decoded data) now) s = Ok tt
          /\ voice_sends (effects (handle_message sender (Decoded data) now) s)
             = if truthy (p_voice_chat p) && negb (truthy (p_muted p)) then
                 map (fun kp => Send (p_websocket (snd kp))
                                     (voice_audio sender sender_name audio_data sequence))
                     (filter (voice_recipient s sender) (players s))
               else []).
Proof.
  intros Hf Hm. split.
  - intros sender data target muted Ht Hid Hmu Hk.
    apply has_key_assoc in Hk. destruct Hk as [q Hq].
    set (s1 := set_players (upd target (set_muted muted) (players s)) s).
    assert (Hd : dispatch sender data s = (Ok tt, s1, [Log info])).
    { unfold dispatch.
      rewrite (bind_run _ _ s (JStr "mute_player") s []);
        [| unfold lift; rewrite Ht; reflexivity].
      simpl. unfold handle_mute_player.
      rewrite (bind_run _ _ s (JStr target) s []);
        [| unfold lift; rewrite Hid; reflexivity].
      unfold bind at 1, get_state.
      rewrite (bind_run _ _ s (Some target) s []);
        [| unfold lift, in_players, has_key; rewrite Hq; reflexivity].
      rewrite (bind_run _ _ s muted s []);
        [| unfold lift; rewrite Hmu; reflexivity].
      rewrite (bind_run _ _ _ _ _ _ (update_player_run s target _ q Hq)).
      reflexivity. }
    destruct (broadcast_game_state_run now s1 m) as (e & He & _).
    { apply fields_ok_upd; [complete_tac | exact Hf]. }
    { exact Hm. }
    unfold result, post, handle_message.
    rewrite (bind_run _ _ _ _ _ _ Hd), He. simpl. split; [reflexivity |].
    destruct (check_snowflake_respawn_frame now s1) as (_ & Hpl & _).
    exact Hpl.
  - intros sender data audio_data sequence p Ht Ha Hq Hp.
    destruct (fields_ok_name s sender p Hf Hp) as [nm Hn].
    exists nm. split; [exact Hn |].
    assert (Hd : dispatch sender data s
                 = (Ok tt, s,
                    if truthy (p_voice_chat p) && negb (truthy (p_muted p)) then
                      map (fun kp => Send (p_websocket (snd kp))
                                          (voice_audio sender nm audio_data sequence))
                          (filter (voice_recipient s sender) (players s))
                    else [])).
    { unfold dispatch.
      rewrite (bind_run _ _ s (JStr "voice_audio") s []);
        [| unfold lift; rewrite Ht; reflexivity].
      simpl. unfold handle_voice_audio.
      rewrite (bind_run _ _ _ _ _ _ (get_player_run s sender p Hp)).
      destruct (truthy (p_voice_chat p) && negb (truthy (p_muted p))); simpl;
        [| reflexivity].
      rewrite (bind_run _ _ s audio_data s []);
        [| unfold lift; rewrite Ha; reflexivity].
      rewrite (bind_run _ _ s sequence s []);
        [| unfold lift; rewrite Hq; reflexivity].
      rewrite (broadcast_voice_audio_run s sender p nm audio_data sequence Hp Hn).
      reflexivity. }
    destruct (broadcast_game_state_run now s m Hf Hm) as (e & He & Hr).
    unfold result, effects, handle_message.
    rewrite (bind_run _ _ _ _ _ _ Hd), He. simpl. split; [reflexivity |].
    rewrite voice_sends_app, (voice_sends_routine e Hr), app_nil_r.
    destruct (truthy (p_voice_chat p) && negb (truthy (p_muted p)));
      [apply voice_sends_all | reflexivity].
Qed.

Lemma mute_is_global_witness :
  fields_ok server_muted = true
  /\ players (post (handle_message "1" (mute_message "2" true) 0) server_muted)
     = upd "2" (set_muted (JBool true)) (players server_muted).
Proof.
  assert (Hf : fields_ok server_muted = true) by reflexivity.
  split; [exact Hf |].
  destruct (mute_is_global server_muted (nth 0 (maps server_muted) no_map) 0 Hf eq_refl)
    as [Hmute _].
  apply (Hmute "1" (JDict [("type", JStr "mute_player"); ("player_id", JStr "2");
                           ("muted", JBool true)]) "2" (JBool true));
    reflexivity.
Defined.

(** Before the mute the audio of the third player reaches the two others;
    after the second player muted the third, it reaches nobody -- not even the
    first player, who muted no one -- and the third player no longer receives
    the audio of the first. *)
Lemma mute_silences_for_everyone :
  let before := run [Register 1%nat; Register 2%nat; Register 3%nat] server0 in
  voice_sends (effects (handle_message "3" (voice_audio_message "hi" 1) 0) before)
  = [Send 1 (voice_audio "3" (JStr "Player3") (JStr "hi") (JInt 1));
     Send 2 (voice_audio "3" (JStr "Player3") (JStr "hi") (JInt 1))]
  /\ voice_sends
       (effects (handle_message "3" (voice_audio_message "hi" 1) 0) server_muted)
     = []
  /\ voice_sends
       (effects (handle_message "1" (voice_audio_message "hi" 1) 0) server_muted)
     = [Send 2 (voice_audio "1" (JStr "Player1") (JStr "hi") (JInt 1))].
Proof. vm_compute. repeat split; reflexivity. Qed.

(** ** Malformed and unknown messages *)



Lemma lift_ok {A B : Type} (a : A) (f : A -> M B) s :
  bind (lift (Ok a)) f s = match f a s with (r, s2, e2) => (r, s2, e2) end.
Proof. unfold bind, lift. destruct (f a s) as [[r s2] e2]. reflexivity. Qed.






(** ** The death of the hunter *)

Lemma bind_assoc {A B C : Type} (m : M A) (f : A -> M B) (g : B -> M C) s :
  bind (bind m f) g s = bind m (fun a => bind (f a) g) s.
Proof.
  unfold bind. destruct (m s) as [[[a | x] s1] e1]; [| reflexivity].
  destruct (f a s1) as [[[b | y] s2] e2]; [| reflexivity].
  destruct (g b s2) as [[r s3] e3]. rewrite app_assoc. reflexivity.
Qed.


Lemma ret_bind {A B : Type} (a : A) (f : A -> M B) s : bind (ret a) f s = f a s.
Proof. unfold bind, ret. destruct (f a s) as [[r s2] e2]. reflexivity. Qed.


(** An iteration of the loop of [check_ghost_collision] that does nothing:
    the player visited is the hunter itself, is not an evader, or does not
    overlap. *)
Lemma ghost_collision_skip pid x y power_mode k q s :
  assoc k (players s) = Some q ->
  k = pid \/ p_role q <> ghost \/ ghost_hit x y q = false ->
  ghost_collision pid x y power_mode k s = (Ok tt, s, []).
Proof.
  intros Hq Hskip. unfold ghost_collision.
  rewrite (bind_run _ _ _ _ _ _ (get_player_run s k q Hq)).
  assert (Hc : negb (String.eqb k pid) && Role_eqb (p_role q) ghost
               && ghost_hit x y q = false).
  { destruct Hskip as [-> | [Hr | Hh]].
    - rewrite String.eqb_refl. reflexivity.
    - destruct (p_role q); [congruence |]. simpl. rewrite andb_false_r. reflexivity.
    - rewrite Hh. apply andb_false_r. }
  rewrite Hc. reflexivity.
Qed.

Lemma ghost_collision_skip_all pid x y power_mode ks s :
  (forall k, In k ks ->
     exists q, assoc k (players s) = Some q
               /\ (k = pid \/ p_role q <> ghost \/ ghost_hit x y q = false)) ->
  for_each ks (ghost_collision pid x y power_mode) s = (Ok tt, s, []).
Proof.
  induction ks as [| k ks IH]; intros H; [reflexivity |]. simpl.
  destruct (H k) as (q & Hq & Hs); [left; reflexivity |].
  rewrite (bind_run _ _ _ _ _ _ (ghost_collision_skip pid x y power_mode k q s Hq Hs)).
  rewrite IH; [reflexivity |]. intros k' Hk'. apply H. right. exact Hk'.
Qed.


Lemma registry_ok_complete s k p :
  registry_ok s -> assoc k (players s) = Some p ->
  exists c sc l nm,
    p_color p = Some c /\ p_score p = Some sc /\ p_lives p = Some l
    /\ p_name p = Some nm.
Proof.
  intros [_ Hc] Hp. specialize (Hc k p Hp). unfold complete in Hc.
  destruct (p_color p), (p_score p), (p_lives p), (p_name p); try discriminate.
  repeat eexists.
Qed.

Lemma coloured_registry_ok s : registry_ok s -> coloured s.
Proof.
  intros Hr k p Hp. destruct (registry_ok_complete s k p Hr Hp) as (c & _ & _ & _ & Hc & _).
  congruence.
Qed.








(** Three players stand on the hunter's spawn point and the hunter has one
    life left: the position update overlaps two evaders.  With the variates
    all 0 the first death hands the role back to the same player, the second
    evader catches it again: its lives end at -1 and two rating updates are
    made. *)
Lemma two_evaders_two_deaths :
  let s := run [Register 1%nat; Register 2%nat; Register 3%nat;
                Dispatch "1" (position_message 400 500) 0] server0 in
  let s' := post (handle_message "1" (position_message 400 500) 0) s in
  option_map p_role (assoc "1" (players s)) = Some pacman
  /\ option_map p_lives (assoc "1" (players s)) = Some (Some 1)
  /\ option_map p_power_mode (assoc "1" (players s)) = Some false
  /\ option_map (ghost_hit 400 500) (assoc "2" (players s)) = Some true
  /\ result (handle_message "1" (position_message 400 500) 0) s = Ok tt
  /\ option_map p_lives (assoc "1" (players s')) = Some (Some (-1))
  /\ rating_updates (effects (handle_message "1" (position_message 400 500) 0) s)
     = [update_player_rating (JStr "Player1") 1200 false;
        update_player_rating (JStr "Player1") 1200 false].
Proof. vm_compute. repeat split; reflexivity. Qed.

(** ** The colour pool *)

Lemma pacman_color_not_in_pool : ~ In pacman_color ghost_colors_available.
Proof. simpl. intuition discriminate. Qed.

Lemma color_used_add c c' s s' :
  used_ghost_colors s' = set_add Color_eq_dec c' (used_ghost_colors s) ->
  color_used c s' = true <-> c = c' \/ color_used c s = true.
Proof.
  intros Hu. unfold color_used. rewrite Hu. split.
  - intros H. apply set_mem_correct1 in H. apply set_add_elim in H.
    destruct H as [H | H]; [left; exact H | right; apply set_mem_correct2; exact H].
  - intros [-> | H]; apply set_mem_correct2.
    + apply set_add_intro2. reflexivity.
    + apply set_add_intro1. apply set_mem_correct1 in H. exact H.
Qed.

Lemma color_used_ext c s s' :
  used_ghost_colors s' = used_ghost_colors s -> color_used c s' = color_used c s.
Proof. unfold color_used. intros ->. reflexivity. Qed.

Lemma exhausted_ext s s' :
  used_ghost_colors s' = used_ghost_colors s -> exhausted s -> exhausted s'.
Proof. intros Hu H c Hc. rewrite (color_used_ext c s s' Hu). auto. Qed.

(** [pool_inv] reads the registry and the set of used colours only. *)
Lemma pool_inv_ext s s' :
  players s' = players s -> used_ghost_colors s' = used_ghost_colors s ->
  pool_inv s -> pool_inv s'.
Proof.
  intros Hp Hu (Hr & Hn & Hc). split; [| split].
  - eapply registry_ok_ext; eauto.
  - rewrite Hu. exact Hn.
  - destruct Hc as [He | [Hm Hd]]; [left; eapply exhausted_ext; eauto | right].
    split.
    + intros k p c. rewrite Hp, (color_used_ext c s s' Hu). apply Hm.
    + intros k1 k2 p1 p2 c. rewrite Hp. apply Hd.
Qed.

(** Writing a field other than the colour keeps [pool_inv]. *)
Lemma pool_inv_upd s k f :
  (forall p, p_color (f p) = p_color p) ->
  (forall p, complete p = true -> complete (f p) = true) ->
  pool_inv s -> pool_inv (set_players (upd k f (players s)) s).
Proof.
  intros Hcol Hcomp (Hr & Hn & Hc). split; [| split]; auto.
  - apply registry_ok_upd; auto.
  - destruct Hc as [He | [Hm Hd]]; [left; exact He | right]. split.
    + intros k' p c. simpl. rewrite assoc_upd.
      change (color_used c (set_players (upd k f (players s)) s)) with (color_used c s).
      destruct (String.eqb k' k).
      * destruct (assoc k' (players s)) as [q |] eqn:Hq; [| discriminate].
        simpl. intros [= <-]. rewrite Hcol. eapply Hm; eauto.
      * apply Hm.
    + assert (Hsame : forall k' p c,
                assoc k' (players (set_players (upd k f (players s)) s)) = Some p ->
                p_color p = Some c ->
                exists q, assoc k' (players s) = Some q /\ p_color q = Some c).
      { intros k' p c. simpl. rewrite assoc_upd. destruct (String.eqb k' k).
        - destruct (assoc k' (players s)) as [q |] eqn:Hq; [| discriminate].
          simpl. intros [= <-]. rewrite Hcol. eauto.
        - eauto. }
      intros k1 k2 p1 p2 c H1 H2 C1 C2 Hin.
      destruct (Hsame k1 p1 c H1 C1) as (q1 & Q1 & D1).
      destruct (Hsame k2 p2 c H2 C2) as (q2 & Q2 & D2).
      eapply Hd; eauto.
Qed.

Lemma pool_inv_set_rnd s t : pool_inv s -> pool_inv (set_rnd t s).
Proof. apply pool_inv_ext; reflexivity. Qed.

(** Role assignment recolours the hunter in yellow, which is no colour of the
    pool, and leaves the other colours and the marks alone. *)
Lemma keeps_assign_roles_pool_inv : keeps pool_inv assign_roles.
Proof.
  intros s (Hr & Hn & Hc).
  destruct (assign_roles_spec s)
    as (s' & e & Hrun & Hkeys & _ & _ & Hall & _ & _ & Hpool).
  rewrite Hrun.
  destruct (Hpool (coloured_registry_ok s Hr)) as [Hu _].
  assert (Hu' : used_ghost_colors s' = used_ghost_colors s).
  { rewrite Hu. destruct (players s); [reflexivity |].
    destruct (pacman_missing s); [apply used_ghost_colors_pop | reflexivity]. }
  assert (Hback : forall k p', assoc k (players s') = Some p' ->
            exists p, assoc k (players s) = Some p /\ reassigned p p').
  { intros k p' Hp'.
    assert (Hk : has_key k (players s) = true).
    { apply has_key_In. rewrite <- Hkeys. apply has_key_In. apply has_key_assoc. eauto. }
    apply has_key_assoc in Hk. destruct Hk as [p Hp].
    destruct (Hall k p Hp) as (q & Hq & Hre). exists p. split; [exact Hp |].
    congruence. }
  assert (Hpoolcol : forall k p' c, assoc k (players s') = Some p' ->
            p_color p' = Some c -> In c ghost_colors_available ->
            exists p, assoc k (players s) = Some p /\ p_color p = Some c).
  { intros k p' c Hp' Hc' Hin. destruct (Hback k p' Hp') as (p & Hp & Hre).
    exists p. split; [exact Hp |].
    destruct Hre as (_ & _ & _ & _ & _ & _ & _ & _ & _ & _ & _ & Hcol).
    destruct Hcol as [E | E].
    - apply (coloured_registry_ok s Hr k p Hp).
    - congruence.
    - exfalso. apply pacman_color_not_in_pool. congruence. }
  split; [| split].
  - destruct Hr as [Hnd Hcomp]. split.
    + rewrite (nodup_keys_ext _ (players s)); auto.
    + intros k p' Hp'. destruct (Hback k p' Hp') as (p & Hp & Hre).
      apply Hre. eapply Hcomp; eauto.
  - rewrite Hu'. exact Hn.
  - destruct Hc as [He | [Hm Hd]]; [left; eapply exhausted_ext; eauto | right].
    split.
    + intros k p' c Hp' Hc' Hin. destruct (Hpoolcol k p' c Hp' Hc' Hin) as (p & Hp & Hcp).
      rewrite (color_used_ext c s s' Hu'). eapply Hm; eauto.
    + intros k1 k2 p1 p2 c H1 H2 C1 C2 Hin.
      destruct (Hpoolcol k1 p1 c H1 C1 Hin) as (q1 & Q1 & D1).
      destruct (Hpoolcol k2 p2 c H2 C2 Hin) as (q2 & Q2 & D2).
      eapply Hd; eauto.
Qed.

(** What [get_ghost_color] does to the pool. *)
Lemma get_ghost_color_cases s :
  (exhausted s /\ exists c, In c ghost_colors_available
                            /\ get_ghost_color s = (Ok c, pop s, []))
  \/ (exists c, In c ghost_colors_available /\ color_used c s = false
                /\ get_ghost_color s
                   = (Ok c,
                      set_used_ghost_colors
                        (set_add Color_eq_dec c (used_ghost_colors s)) s, [])).
Proof.
  rewrite get_ghost_color_eq.
  destruct (filter (fun c => negb (color_used c s)) ghost_colors_available)
    as [| c l] eqn:Hf.
  - left. split.
    + intros c Hc. destruct (color_used c s) eqn:Hu; auto.
      assert (Hin : In c (filter (fun c => negb (color_used c s)) ghost_colors_available))
        by (apply filter_In; rewrite Hu; auto).
      rewrite Hf in Hin. contradiction.
    + eexists. split; [| reflexivity]. apply chosen_In.
  - right. exists c.
    assert (Hin : In c (c :: l)) by (left; reflexivity).
    rewrite <- Hf in Hin. apply filter_In in Hin. destruct Hin as [Hin Hu].
    apply negb_true_iff in Hu. auto.
Qed.

(** Giving a player (new or registered) a colour just issued. *)
Lemma pool_inv_issue s c (d : list (string * Player)) k :
  pool_inv s ->
  In c ghost_colors_available -> color_used c s = false ->
  nodup_keys d = true ->
  (forall k' p, assoc k' d = Some p -> complete p = true) ->
  (forall k' p, k' <> k -> assoc k' d = Some p ->
     exists q, assoc k' (players s) = Some q /\ p_color q = p_color p) ->
  (forall p, assoc k d = Some p -> p_color p = Some c) ->
  pool_inv (set_players d
              (set_used_ghost_colors (set_add Color_eq_dec c (used_ghost_colors s)) s)).
Proof.
  intros (Hr & Hn & Hc) Hin Hfree Hnd Hcomp Hothers Hk.
  set (s' := set_players d
               (set_used_ghost_colors (set_add Color_eq_dec c (used_ghost_colors s)) s)).
  assert (Hu : forall a, color_used a s' = true <-> a = c \/ color_used a s = true)
    by (intros a; apply color_used_add; reflexivity).
  split; [split; assumption |]. split; [apply set_add_nodup; exact Hn |].
  right. destruct Hc as [He | [Hm Hd]].
  { rewrite (He c Hin) in Hfree. discriminate. }
  split.
  - intros k' p a Hp Ha Hain. apply Hu.
    destruct (string_dec k' k) as [-> | Hne].
    + left. specialize (Hk p Hp). congruence.
    + right. destruct (Hothers k' p Hne Hp) as (q & Hq & Hcq).
      eapply Hm; eauto. congruence.
  - intros k1 k2 p1 p2 a H1 H2 C1 C2 Hain.
    destruct (string_dec k1 k) as [-> | N1]; destruct (string_dec k2 k) as [-> | N2]; auto.
    + (* [k] wears [c]; nobody wore it before *)
      exfalso. assert (a = c) by (specialize (Hk p1 H1); congruence). subst a.
      destruct (Hothers k2 p2 N2 H2) as (q & Hq & Hcq).
      rewrite (Hm k2 q c Hq) in Hfree; [discriminate | congruence | exact Hin].
    + exfalso. assert (a = c) by (specialize (Hk p2 H2); congruence). subst a.
      destruct (Hothers k1 p1 N1 H1) as (q & Hq & Hcq).
      rewrite (Hm k1 q c Hq) in Hfree; [discriminate | congruence | exact Hin].
    + destruct (Hothers k1 p1 N1 H1) as (q1 & Q1 & D1).
      destruct (Hothers k2 p2 N2 H2) as (q2 & Q2 & D2).
      eapply Hd; eauto; congruence.
Qed.

(** Once the pool is exhausted any registry goes. *)
Lemma pool_inv_exhausted s s' :
  exhausted s -> NoDup (used_ghost_colors s) ->
  used_ghost_colors s' = used_ghost_colors s -> registry_ok s' -> pool_inv s'.
Proof.
  intros He Hn Hu Hr. split; [exact Hr |]. split; [rewrite Hu; exact Hn |].
  left. eapply exhausted_ext; eauto.
Qed.

(** The former hunter receives a colour: [get_ghost_color] and the write. *)
Lemma keeps_issue_color k :
  keeps pool_inv (c <- get_ghost_color ;; update_player k (set_color (Some c))).
Proof.
  intros s Hs. pose proof Hs as (Hr & Hn & Hc). unfold bind.
  destruct (get_ghost_color_cases s) as [[He (c & Hin & Hrun)] | (c & Hin & Hfree & Hrun)];
    rewrite Hrun; unfold update_player.
  - rewrite players_pop. destruct (assoc k (players s)) as [p |] eqn:Hp; simpl.
    + apply (pool_inv_exhausted s); auto.
      * simpl. apply used_ghost_colors_pop.
      * apply (registry_ok_ext (set_players (upd k (set_color (Some c)) (players s)) s));
          [reflexivity |].
        apply registry_ok_upd; [complete_tac | exact Hr].
    + eapply pool_inv_ext; [apply players_pop | apply used_ghost_colors_pop | exact Hs].
  - simpl. destruct (assoc k (players s)) as [p |] eqn:Hp; simpl.
    + apply (pool_inv_issue s c (upd k (set_color (Some c)) (players s)) k); auto.
      * rewrite nodup_keys_upd. apply Hr.
      * intros k' q. rewrite assoc_upd. destruct (String.eqb k' k).
        -- destruct (assoc k' (players s)) as [q0 |] eqn:Hq0; [| discriminate].
           simpl. intros [= <-]. destruct Hr as [_ Hcomp].
           specialize (Hcomp k' q0 Hq0). revert Hcomp. complete_tac.
        -- apply Hr.
      * intros k' q Hne Hq. rewrite assoc_upd_neq in Hq; auto. eauto.
      * intros q. rewrite assoc_upd_eq, Hp. simpl. intros [= <-]. reflexivity.
    + apply (pool_inv_issue s c (players s) k); auto.
      * apply Hr.
      * apply Hr.
      * intros k' q Hne Hq. eauto.
      * intros q Hq. congruence.
Qed.

Lemma keeps_eq {A : Type} (I : Server -> Prop) (m m' : M A) :
  (forall s, m s = m' s) -> keeps I m' -> keeps I m.
Proof. intros He H s Hs. rewrite He. apply H. exact Hs. Qed.

Ltac keeps_pool :=
  repeat first
    [ apply keeps_issue_color
    | keeps_step
    | apply keeps_random_random; exact pool_inv_set_rnd
    | apply keeps_random_choice; exact pool_inv_set_rnd
    | apply keeps_assign_roles_pool_inv
    | apply keeps_modify; intros ? ?; eapply pool_inv_ext; [| | eassumption]; reflexivity
    | apply keeps_update_player; intros ? ? ? ?; apply pool_inv_upd;
      [ reflexivity | complete_tac | assumption ] ].

Lemma keeps_broadcast_game_state_pool now : keeps pool_inv (broadcast_game_state now).
Proof.
  unfold broadcast_game_state, check_snowflake_respawn, respawn_snowflake,
    respawn_icicle, prepare_game_state.
  keeps_pool.
Qed.

Lemma keeps_dispatch_pool pid data : keeps pool_inv (dispatch pid data).
Proof.
  unfold dispatch, handle_position, move_player, check_snowflake_collision,
    check_icicle_collision, check_ghost_collision, ghost_collision, pacman_died,
    add_score, handle_voice_chat, handle_voice_audio, broadcast_voice_audio,
    handle_mute_player, handle_change_map, respawn_player, handle_get_leaderboard,
    handle_get_player_stats, send_leaderboard, send_player_stats.
  keeps_pool.
Qed.

Lemma keeps_handle_message_pool pid message now :
  keeps pool_inv (handle_message pid message now).
Proof.
  unfold handle_message. destruct message.
  - keeps_pool.
  - apply keeps_bind; [apply keeps_dispatch_pool |].
    intros ?. apply keeps_broadcast_game_state_pool.
Qed.

(** A new player is stored with the colour just issued. *)
Lemma keeps_issue_new_player pid m websocket :
  keeps pool_inv
    (color <- get_ghost_color ;;
     modify (fun s => set_players
                        (dict_set pid (new_player m color websocket pid) (players s)) s)).
Proof.
  intros s Hs. pose proof Hs as (Hr & Hn & Hc). unfold bind, modify.
  assert (Hreg : forall c s0, players s0 = players s ->
            registry_ok
              (set_players (dict_set pid (new_player m c websocket pid) (players s0)) s0)).
  { intros c s0 Hp. apply registry_ok_dict_set; [reflexivity |].
    eapply registry_ok_ext; eauto. }
  destruct (get_ghost_color_cases s) as [[He (c & Hin & Hrun)] | (c & Hin & Hfree & Hrun)];
    rewrite Hrun; simpl.
  - apply (pool_inv_exhausted s); auto.
    + simpl. apply used_ghost_colors_pop.
    + apply Hreg. apply players_pop.
  - apply (pool_inv_issue s c (dict_set pid (new_player m c websocket pid) (players s)) pid);
      auto.
    + apply nodup_keys_dict_set. apply Hr.
    + intros k p. rewrite assoc_dict_set. destruct (String.eqb k pid).
      * intros [= <-]. reflexivity.
      * apply Hr.
    + intros k p Hne. rewrite assoc_dict_set.
      apply String.eqb_neq in Hne. rewrite Hne. eauto.
    + intros p. rewrite assoc_dict_set, String.eqb_refl. intros [= <-]. reflexivity.
Qed.

Lemma keeps_register_pool websocket : keeps pool_inv (register websocket).
Proof.
  unfold register.
  apply keeps_bind; [keeps_pool | intros ?].
  apply keeps_bind; [keeps_pool | intros s0].
  apply keeps_bind; [keeps_pool | intros ?].
  apply keeps_bind; [keeps_pool | intros m].
  eapply keeps_eq.
  { intros s. symmetry.
    apply (bind_assoc get_ghost_color
             (fun color => modify (fun s => set_players
                (dict_set (str (player_counter s0))
                   (new_player m color websocket (str (player_counter s0))) (players s)) s))
             (fun _ => assign_roles ;; emit (Log info) ;; ret (str (player_counter s0)))). }
  apply keeps_bind; [apply keeps_issue_new_player | intros ?]. keeps_pool.
Qed.

(** [cleanup_player] on a registered player whose dict is complete, up to the
    final call of [assign_roles]. *)
Lemma cleanup_player_run s pid p c :
  assoc pid (players s) = Some p -> complete p = true -> p_color p = Some c ->
  exists s1,
    post (cleanup_player pid) s = post assign_roles s1
    /\ players s1 = dict_del pid (players s)
    /\ used_ghost_colors s1
       = (if Role_eqb (p_role p) ghost && color_used c s
          then set_remove Color_eq_dec c (used_ghost_colors s)
          else used_ghost_colors s)
    /\ maps s1 = maps s /\ current_map s1 = current_map s.
Proof.
  intros Hp Hcomp Hc. unfold complete in Hcomp. rewrite Hc in Hcomp.
  destruct (p_score p) as [sc |] eqn:Hsc; [| discriminate].
  destruct (p_lives p) as [l |] eqn:Hl; [| discriminate].
  destruct (p_name p) as [nm |] eqn:Hnm; [| discriminate].
  unfold post, cleanup_player, bind at 1, get_state.
  assert (Hk : has_key pid (players s) = true) by (apply has_key_assoc; eauto).
  rewrite Hk. unfold when at 1.
  rewrite (bind_run _ _ _ _ _ _ (get_player_run s pid p Hp)).
  rewrite Hnm, Hsc, Hc.
  destruct (is_pacman_id pid s) eqn:Hh; destruct (Role_eqb (p_role p) ghost) eqn:Hr;
    destruct (color_used c s) eqn:Hu;
    destruct (existsb (Nat.eqb (p_websocket p)) (connected_clients s)) eqn:Hw;
    cbv beta iota delta [bind when field ret emit modify get_state andb];
    rewrite ?Hu; cbv beta iota;
    cbn [connected_clients set_pacman_player_id set_used_ghost_colors];
    rewrite ?Hw; cbv beta iota;
    match goal with
    | |- context [assign_roles ?s1] =>
        exists s1; split;
          [destruct (assign_roles s1) as [[r s'] e']; reflexivity
          | repeat split; reflexivity]
    end.
Qed.

(** The same for the marks, from a registry that is sound. *)
Lemma assign_roles_colors s :
  registry_ok s -> NoDup (used_ghost_colors s) ->
  held_marked s -> held_distinct s ->
  result assign_roles s = Ok tt /\ colors_ok (post assign_roles s)
  /\ registry_ok (post assign_roles s)
  /\ used_ghost_colors (post assign_roles s) = used_ghost_colors s.
Proof.
  intros Hr Hn Hm Hd.
  assert (Hinv : pool_inv s) by (split; [| split]; auto).
  pose proof (keeps_assign_roles_pool_inv s Hinv) as Hk.
  destruct (assign_roles_spec s)
    as (s' & e & Hrun & Hkeys & _ & _ & Hall & _ & _ & Hpool).
  unfold result, post. rewrite Hrun in *. simpl.
  destruct (Hpool (coloured_registry_ok s Hr)) as [Hu _].
  assert (Hu' : used_ghost_colors s' = used_ghost_colors s).
  { rewrite Hu. destruct (players s); [reflexivity |].
    destruct (pacman_missing s); [apply used_ghost_colors_pop | reflexivity]. }
  split; [reflexivity |]. destruct Hk as (Hr' & Hn' & Hc').
  split; [| split; [exact Hr' | exact Hu']].
  split; [exact Hn' |].
  (* colours of the pool after the call are colours before it *)
  assert (Hpoolcol : forall k p' c, assoc k (players s') = Some p' ->
            p_color p' = Some c -> In c ghost_colors_available ->
            exists p, assoc k (players s) = Some p /\ p_color p = Some c).
  { intros k p' c Hp' Hc Hin.
    assert (Hkk : has_key k (players s) = true).
    { apply has_key_In. rewrite <- Hkeys. apply has_key_In. apply has_key_assoc. eauto. }
    apply has_key_assoc in Hkk. destruct Hkk as [p Hp].
    destruct (Hall k p Hp) as (q & Hq & Hre). assert (q = p') by congruence. subst q.
    exists p. split; [exact Hp |].
    destruct Hre as (_ & _ & _ & _ & _ & _ & _ & _ & _ & _ & _ & Hcol).
    destruct Hcol as [E | E].
    - apply (coloured_registry_ok s Hr k p Hp).
    - congruence.
    - exfalso. apply pacman_color_not_in_pool. congruence. }
  split.
  - intros k p' c Hp' Hc Hin. destruct (Hpoolcol k p' c Hp' Hc Hin) as (p & Hp & Hcp).
    rewrite (color_used_ext c s s' Hu'). eapply Hm; eauto.
  - intros k1 k2 p1 p2 c H1 H2 C1 C2 Hin.
    destruct (Hpoolcol k1 p1 c H1 C1 Hin) as (q1 & Q1 & D1).
    destruct (Hpoolcol k2 p2 c H2 C2 Hin) as (q2 & Q2 & D2).
    eapply Hd; eauto.
Qed.

Lemma color_used_remove c a u :
  NoDup u ->
  set_mem Color_eq_dec a (set_remove Color_eq_dec c u) = true
  <-> set_mem Color_eq_dec a u = true /\ a <> c.
Proof.
  intros Hn. split.
  - intros H. apply set_mem_correct1 in H. apply set_remove_iff in H; auto.
    destruct H. split; [apply set_mem_correct2 |]; auto.
  - intros [H Hne]. apply set_mem_correct2. apply set_remove_iff; auto.
    split; auto. apply set_mem_correct1 in H. exact H.
Qed.

(** Unregistering keeps a sound pool sound, and an evader's colour goes back
    to the pool. *)
Lemma cleanup_player_colors s pid :
  registry_ok s -> colors_ok s ->
  colors_ok (post (cleanup_player pid) s)
  /\ (forall p c, assoc pid (players s) = Some p -> p_role p = ghost ->
        p_color p = Some c ->
        color_used c (post (cleanup_player pid) s) = false).
Proof.
  intros Hr (Hn & Hm & Hd).
  destruct (assoc pid (players s)) as [p |] eqn:Hp.
  2: { assert (Hk : has_key pid (players s) = false)
         by (unfold has_key; rewrite Hp; reflexivity).
       unfold post, cleanup_player, bind, get_state. rewrite Hk. simpl.
       split; [split; [| split]; auto | discriminate]. }
  destruct (registry_ok_complete s pid p Hr Hp) as (c & sc & l & nm & Hc & _).
  destruct (cleanup_player_run s pid p c Hp (proj2 Hr pid p Hp) Hc)
    as (s1 & Hrun & Hpl1 & Hu1 & _).
  assert (Hr1 : registry_ok s1).
  { apply (registry_ok_ext (set_players (dict_del pid (players s)) s));
      [exact Hpl1 | apply registry_ok_dict_del; exact Hr]. }
  assert (Hin1 : forall k q, assoc k (players s1) = Some q ->
            k <> pid /\ assoc k (players s) = Some q).
  { intros k q. rewrite Hpl1, assoc_dict_del; [| apply Hr].
    destruct (String.eqb k pid) eqn:E; [discriminate |].
    apply String.eqb_neq in E. auto. }
  assert (Hn1 : NoDup (used_ghost_colors s1)).
  { rewrite Hu1. destruct (Role_eqb (p_role p) ghost && color_used c s); auto.
    apply set_remove_nodup. exact Hn. }
  assert (Hm1 : held_marked s1).
  { intros k q a Hq Ha Hin. destruct (Hin1 k q Hq) as [Hne Hqs].
    unfold color_used. rewrite Hu1.
    destruct (Role_eqb (p_role p) ghost && color_used c s).
    - apply color_used_remove; auto. split; [apply (Hm k q a Hqs Ha Hin) |].
      intros ->. apply Hne. apply (Hd k pid q p c Hqs Hp Ha Hc Hin).
    - apply (Hm k q a Hqs Ha Hin). }
  assert (Hd1 : held_distinct s1).
  { intros k1 k2 p1 p2 a H1 H2 C1 C2 Hin.
    destruct (Hin1 k1 p1 H1) as [_ Q1]. destruct (Hin1 k2 p2 H2) as [_ Q2].
    eapply Hd; eauto. }
  destruct (assign_roles_colors s1 Hr1 Hn1 Hm1 Hd1) as (Hres & Hok & _ & Hu').
  rewrite Hrun. split; [exact Hok |].
  intros p0 c0 [= <-] Hrole Hc0. assert (c0 = c) by congruence. subst c0.
  unfold color_used. rewrite Hu', Hu1, Hrole. simpl.
  destruct (color_used c s) eqn:Hus.
  - destruct (set_mem Color_eq_dec c (set_remove Color_eq_dec c (used_ghost_colors s)))
      eqn:E; auto.
    apply color_used_remove in E; auto. destruct E as [_ E]. congruence.
  - exact Hus.
Qed.

Lemma colors_ok_pool_inv s : registry_ok s -> colors_ok s -> pool_inv s.
Proof. intros Hr (Hn & Hm & Hd). split; [| split]; auto. Qed.

Lemma pool_inv_colors_ok s : pool_inv s -> unused_remains s -> colors_ok s.
Proof.
  intros (Hr & Hn & Hc) (c & Hin & Hfree). destruct Hc as [He | [Hm Hd]].
  - rewrite (He c Hin) in Hfree. discriminate.
  - split; [| split]; auto.
Qed.

(** X2 -- the colour pool.  Let the pool be sound: the used marks
    are a set, every pool colour a connected player wears is marked and no two
    connected players (so no two evaders) wear the same pool colour.  Then
    after any registration, dispatch or unregistration that leaves some pool
    colour unused the pool is sound again; and unregistering an evader
    removes the mark of its colour. *)
Theorem color_pool s e :
  wf s = true -> colors_ok s ->
  (unused_remains (post (step e) s) -> colors_ok (post (step e) s))
  /\ (forall pid p c,
        e = Unregister pid -> assoc pid (players s) = Some p ->
        p_role p = ghost -> p_color p = Some c ->
        color_used c (post (step e) s) = false).
Proof.
  intros Hwf Hok. pose proof (wf_WF s Hwf) as [Hr _].
  pose proof (colors_ok_pool_inv s Hr Hok) as Hinv.
  destruct e as [websocket | pid message now | pid]; simpl step.
  - split; [| discriminate]. apply pool_inv_colors_ok.
    apply keeps_post; [| exact Hinv].
    apply keeps_bind; [apply keeps_register_pool | intros ?; apply keeps_ret].
  - split; [| discriminate]. apply pool_inv_colors_ok.
    apply keeps_post; [apply keeps_handle_message_pool | exact Hinv].
  - destruct (cleanup_player_colors s pid Hr Hok) as [H1 H2]. split.
    + intros _. exact H1.
    + intros pid' p c [= <-]. apply H2.
Qed.

Lemma color_pool_witness :
  let s1 := post (step (Register 1%nat)) server0 in
  let s2 := post (step (Register 2%nat)) s1 in
  wf s2 = true /\ colors_ok s2
  /\ color_used [255; 182; 193] s2 = true
  /\ color_used [255; 182; 193] (post (step (Unregister "2")) s2) = false.
Proof.
  intros s1 s2.
  assert (H0 : colors_ok server0).
  { split; [constructor |].
    split; [intros k p c H | intros k1 k2 p1 p2 c H]; discriminate H. }
  assert (H1 : colors_ok s1).
  { apply (color_pool server0 (Register 1%nat)); [vm_compute; reflexivity | exact H0 |].
    exists [255; 182; 193]. split; [simpl; tauto | vm_compute; reflexivity]. }
  assert (H2 : colors_ok s2).
  { apply (color_pool s1 (Register 2%nat)); [vm_compute; reflexivity | exact H1 |].
    exists [152; 251; 152]. split; [simpl; tauto | vm_compute; reflexivity]. }
  split; [vm_compute; reflexivity |]. split; [exact H2 |].
  split; [vm_compute; reflexivity |].
  assert (Hwf : wf s2 = true) by (vm_compute; reflexivity).
  destruct (color_pool s2 (Unregister "2") Hwf H2) as [_ Hrel].
  apply (Hrel "2"
           (mkPlayer 400 500 ghost (Some [255; 182; 193]) (Some 0) false 0 (Some 3)
              2%nat (Some (JStr "Player2")) (JBool true) (JBool false) 0 0 0));
    [reflexivity | vm_compute; reflexivity | reflexivity | reflexivity].
Defined.

(** ** Who is registered *)

Section Membership.

Variable P : list string -> nat -> Prop.

Let I (s : Server) : Prop := P (keys (players s)) (player_counter s).

Lemma members_ext s s' :
  keys (players s') = keys (players s) -> player_counter s' = player_counter s ->
  I s -> I s'.
Proof. unfold I. intros -> ->. auto. Qed.

Lemma members_upd s k f : I s -> I (set_players (upd k f (players s)) s).
Proof. apply members_ext; [apply keys_upd | reflexivity]. Qed.

Lemma members_set_rnd s t : I s -> I (set_rnd t s).
Proof. apply members_ext; reflexivity. Qed.

Lemma keeps_get_ghost_color_members : keeps I get_ghost_color.
Proof.
  intros s Hs. rewrite get_ghost_color_eq.
  destruct (filter (fun c => negb (color_used c s)) ghost_colors_available);
    [| exact Hs].
  unfold pop. destruct (rnd s); exact Hs.
Qed.

Lemma keeps_assign_roles_members : keeps I assign_roles.
Proof.
  intros s Hs.
  destruct (assign_roles_spec s) as (s' & e & Hrun & Hkeys & Harena & _).
  rewrite Hrun. eapply members_ext; [exact Hkeys | apply Harena | exact Hs].
Qed.

Ltac keeps_members :=
  repeat first
    [ keeps_step
    | apply keeps_random_random; exact members_set_rnd
    | apply keeps_random_choice; exact members_set_rnd
    | apply keeps_get_ghost_color_members
    | apply keeps_assign_roles_members
    | apply keeps_modify; intros ? ?; eapply members_ext; [| | eassumption]; reflexivity
    | apply keeps_update_player; intros ? ? ? ?; apply members_upd; assumption ].

Lemma keeps_broadcast_game_state_members now : keeps I (broadcast_game_state now).
Proof.
  unfold broadcast_game_state, check_snowflake_respawn, respawn_snowflake,
    respawn_icicle, prepare_game_state.
  keeps_members.
Qed.

Lemma keeps_dispatch_members pid data : keeps I (dispatch pid data).
Proof.
  unfold dispatch, handle_position, move_player, check_snowflake_collision,
    check_icicle_collision, check_ghost_collision, ghost_collision, pacman_died,
    add_score, handle_voice_chat, handle_voice_audio, broadcast_voice_audio,
    handle_mute_player, handle_change_map, respawn_player, handle_get_leaderboard,
    handle_get_player_stats, send_leaderboard, send_player_stats.
  keeps_members.
Qed.

Lemma keeps_handle_message_members pid message now :
  keeps I (handle_message pid message now).
Proof.
  unfold handle_message. destruct message.
  - keeps_members.
  - apply keeps_bind; [apply keeps_dispatch_members |].
    intros ?. apply keeps_broadcast_game_state_members.
Qed.

End Membership.

(** X3 -- messages never change who is registered.  Whatever the payload and
    whether or not the handler raises, [handle_message] leaves the keys of
    [self.players], their order and [self.player_counter] as they were. *)
Theorem messages_keep_membership s pid message now :
  keys (players (post (handle_message pid message now) s)) = keys (players s)
  /\ player_counter (post (handle_message pid message now) s) = player_counter s.
Proof.
  apply (keeps_post (fun t => keys (players t) = keys (players s)
                              /\ player_counter t = player_counter s)).
  - apply (keeps_handle_message_members
             (fun ks n => ks = keys (players s) /\ n = player_counter s)).
  - split; reflexivity.
Qed.

(** ** The arenas after start-up *)

Lemma map_set_nth_same {A B : Type} (g : A -> B) (f : A -> A) (l : list A) :
  forall n, (forall a, nth_error l n = Some a -> g (f a) = g a) ->
  map g (set_nth n f l) = map g l.
Proof.
  induction l as [| a l IH]; intros n H; [reflexivity |].
  destruct n as [| n]; simpl.
  - rewrite (H a eq_refl). reflexivity.
  - rewrite IH; [reflexivity |]. intros b Hb. apply H. exact Hb.
Qed.

Lemma cur_nth_error s m :
  nth_error (maps s) (current_map s) = Some m -> cur s = m.
Proof. intros H. unfold cur. apply nth_error_nth. exact H. Qed.

Lemma layout_set_dots v s :
  map dot_shape v = map dot_shape (dots s) -> layout (set_dots v s) = layout s.
Proof.
  intros Hv. unfold layout, set_dots. simpl.
  apply map_set_nth_same. intros m Hm.
  unfold dots in Hv. rewrite (cur_nth_error s m Hm) in Hv.
  unfold map_layout, with_dots. simpl. rewrite Hv. reflexivity.
Qed.

Lemma layout_set_power_pellets v s :
  map icicle_shape v = map icicle_shape (power_pellets s) ->
  layout (set_power_pellets v s) = layout s.
Proof.
  intros Hv. unfold layout, set_power_pellets. simpl.
  apply map_set_nth_same. intros m Hm.
  unfold power_pellets in Hv. rewrite (cur_nth_error s m Hm) in Hv.
  unfold map_layout, with_power_pellets. simpl. rewrite Hv. reflexivity.
Qed.

Lemma map_set_nth_shape {A B : Type} (g : A -> B) (f : A -> A) (l : list A) n :
  (forall a, g (f a) = g a) -> map g (set_nth n f l) = map g l.
Proof. intros H. apply map_set_nth_same. intros a _. apply H. Qed.

Lemma restore_shape {A B : Type} (g : A -> B) (eaten : A -> bool) clear threshold items :
  (forall a, g (clear a) = g a) ->
  forall tape, map g (map fst (restore eaten clear threshold items tape)) = map g items.
Proof.
  intros H. induction items as [| a l IH]; intros tape; [reflexivity |].
  simpl. destruct (eaten a).
  - destruct (exceeds (nth 0 tape 0%Q) threshold); simpl; rewrite IH, ?H; reflexivity.
  - simpl. rewrite IH. reflexivity.
Qed.

Lemma layout_after_pass s : layout (after_pass s) = layout s.
Proof.
  unfold after_pass.
  rewrite layout_set_power_pellets.
  - transitivity (layout (set_dots (map fst (pass_dots s)) (drop (eaten_dots s) s))).
    + reflexivity.
    + rewrite layout_set_dots; [reflexivity |].
      unfold pass_dots. apply restore_shape. reflexivity.
  - unfold pass_icicles. rewrite restore_shape by reflexivity.
    f_equal. unfold drop. 
    change (power_pellets (set_rnd ?t ?u)) with (power_pellets u).
    rewrite power_pellets_set_dots. reflexivity.
Qed.

Section Layout.

Variable c : Content.

Lemma arenas_ext s s' :
  maps s' = maps s -> current_map s' = current_map s ->
  arenas_of c s -> arenas_of c s'.
Proof. unfold arenas_of, layout. intros -> ->. auto. Qed.

Lemma arenas_layout s s' :
  layout s' = layout s -> current_map s' = current_map s ->
  arenas_of c s -> arenas_of c s'.
Proof. unfold arenas_of. intros -> ->. auto. Qed.

Lemma arenas_upd s k f : arenas_of c s -> arenas_of c (set_players (upd k f (players s)) s).
Proof. apply arenas_ext; reflexivity. Qed.

Lemma arenas_set_rnd s t : arenas_of c s -> arenas_of c (set_rnd t s).
Proof. apply arenas_ext; reflexivity. Qed.

Lemma keeps_get_ghost_color_arenas : keeps (arenas_of c) get_ghost_color.
Proof.
  intros s Hs. rewrite get_ghost_color_eq.
  destruct (filter (fun c => negb (color_used c s)) ghost_colors_available);
    [| exact Hs].
  unfold pop. destruct (rnd s); exact Hs.
Qed.

Lemma keeps_assign_roles_arenas : keeps (arenas_of c) assign_roles.
Proof.
  intros s Hs.
  destruct (assign_roles_spec s) as (s' & e & Hrun & _ & Harena & _).
  rewrite Hrun. eapply arenas_ext; [apply Harena | apply Harena | exact Hs].
Qed.

Lemma keeps_check_snowflake_respawn_arenas now :
  keeps (arenas_of c) (check_snowflake_respawn now).
Proof.
  intros s Hs. rewrite check_snowflake_respawn_eq.
  assert (H : arenas_of c (after_pass s)).
  { eapply arenas_layout; [apply layout_after_pass | | exact Hs]. reflexivity. }
  destruct (respawn_due now s); [| exact Hs].
  destruct (0 <? count_true (pass_dots s) + count_true (pass_icicles s)); [| exact H].
  eapply arenas_ext; [| | exact H]; reflexivity.
Qed.

Ltac keeps_arenas :=
  repeat first
    [ keeps_step
    | apply keeps_random_random; exact arenas_set_rnd
    | apply keeps_random_choice; exact arenas_set_rnd
    | apply keeps_get_ghost_color_arenas
    | apply keeps_assign_roles_arenas
    | apply keeps_check_snowflake_respawn_arenas
    | apply keeps_modify; intros ? ?; eapply arenas_ext; [| | eassumption]; reflexivity
    | apply keeps_modify; intros ? ?; eapply arenas_layout; [| | eassumption];
      [ first [ apply layout_set_dots; apply map_set_nth_shape; reflexivity
              | apply layout_set_power_pellets; apply map_set_nth_shape; reflexivity ]
      | reflexivity ]
    | apply keeps_update_player; intros ? ? ? ?; apply arenas_upd; assumption ].

Lemma keeps_broadcast_game_state_arenas now :
  keeps (arenas_of c) (broadcast_game_state now).
Proof. unfold broadcast_game_state, prepare_game_state. keeps_arenas. Qed.

Lemma length_layout s : arenas_of c s -> List.length (maps s) = 5%nat.
Proof.
  intros [H _]. apply (f_equal (@List.length Map)) in H. unfold layout in H.
  rewrite !length_map in H. exact H.
Qed.

Lemma keeps_handle_change_map_arenas data : keeps (arenas_of c) (handle_change_map data).
Proof.
  unfold handle_change_map.
  apply keeps_bind; [keeps_arenas | intros j].
  apply keeps_bind; [keeps_arenas | intros n].
  eapply hoare_bind with (Q := fun a t => arenas_of c t /\ a = t).
  { apply hoare_get_state. auto. }
  intros s. apply hoare_when.
  - intros Hb. apply andb_true_iff in Hb. destruct Hb as [H0 H1].
    apply Z.leb_le in H0. apply Z.ltb_lt in H1.
    eapply hoare_bind with (Q := fun _ t => arenas_of c t).
    + apply hoare_modify. intros t [Ht ->]. split; [apply Ht |].
      simpl. rewrite (length_layout t Ht) in H1. lia.
    + intros _.
      match goal with |- hoare _ ?m _ _ => change (keeps (arenas_of c) m) end.
      unfold respawn_player. keeps_arenas.
  - intros _ t [Ht _]. exact Ht.
Qed.

Lemma keeps_dispatch_arenas pid data : keeps (arenas_of c) (dispatch pid data).
Proof.
  unfold dispatch.
  apply keeps_bind; [keeps_arenas | intros t].
  repeat match goal with
         | |- keeps _ (if ?b then _ else _) => destruct b
         end;
    try apply keeps_handle_change_map_arenas;
    unfold handle_position, move_player, check_snowflake_collision,
      check_icicle_collision, check_ghost_collision, ghost_collision, pacman_died,
      add_score, handle_voice_chat, handle_voice_audio, broadcast_voice_audio,
      handle_mute_player, handle_get_leaderboard,
      handle_get_player_stats, send_leaderboard, send_player_stats;
    keeps_arenas.
Qed.

Lemma keeps_step_arenas e : keeps (arenas_of c) (step e).
Proof.
  destruct e as [websocket | pid message now | pid]; simpl.
  - unfold register. keeps_arenas.
  - unfold handle_message. destruct message.
    + keeps_arenas.
    + apply keeps_bind; [apply keeps_dispatch_arenas |].
      intros ?. apply keeps_broadcast_game_state_arenas.
  - unfold cleanup_player. keeps_arenas.
Qed.

End Layout.

Lemma arenas_init c now tape : arenas_of c (init c now tape).
Proof. split; [reflexivity | simpl; lia]. Qed.

Lemma reachable_arenas s : reachable s -> exists c, arenas_of c s.
Proof.
  induction 1 as [c now tape | s e _ [c IH] | s tape _ [c IH]].
  - exists c. apply arenas_init.
  - exists c. apply keeps_post; [apply keeps_step_arenas | exact IH].
  - exists c. eapply arenas_ext; [| | exact IH]; reflexivity.
Qed.

(** ** Joining and leaving *)

Lemma arenas_current c s :
  arenas_of c s ->
  exists m g gs,
    nth_error (maps s) (current_map s) = Some m /\ m_ghost_spawns m = g :: gs.
Proof.
  intros Ha. pose proof (length_layout c s Ha) as Hlen. destruct Ha as [Hl Hc].
  destruct (nth_error (maps s) (current_map s)) as [m |] eqn:Hm.
  2: { apply nth_error_None in Hm. lia. }
  exists m.
  assert (Hn : nth_error (layout s) (current_map s) = Some (map_layout m))
    by (unfold layout; rewrite nth_error_map, Hm; reflexivity).
  rewrite Hl in Hn.
  apply (f_equal (option_map m_ghost_spawns)) in Hn.
  destruct (current_map s) as [| [| [| [| [| n]]]]]; [| | | | | lia];
    simpl in Hn; injection Hn as Hn; rewrite <- Hn; eauto.
Qed.

Lemma get_ghost_color_frame s :
  exists c s1,
    get_ghost_color s = (Ok c, s1, [])
    /\ In c ghost_colors_available /\ same_but_pool s s1.
Proof.
  rewrite get_ghost_color_eq.
  destruct (filter (fun c => negb (color_used c s)) ghost_colors_available)
    as [| c l] eqn:Hf.
  - eexists. exists (pop s). split; [reflexivity |]. split; [apply chosen_In |].
    unfold pop. destruct (rnd s); repeat split.
  - exists c. eexists. split; [reflexivity |]. split; [| repeat split].
    assert (Hin : In c (c :: l)) by (left; reflexivity).
    rewrite <- Hf in Hin. apply filter_In in Hin. apply Hin.
Qed.

Lemma keys_dict_set k v d :
  keys (dict_set k v d) = if has_key k d then keys d else keys d ++ [k].
Proof.
  induction d as [| [k' v'] d IH]; [reflexivity |].
  unfold has_key in *. simpl. destruct (String.eqb k k') eqn:E.
  - apply String.eqb_eq in E. subst. reflexivity.
  - simpl. rewrite IH. destruct (assoc k d); reflexivity.
Qed.

Lemma str_inj n m : str n = str m -> n = m.
Proof.
  unfold str. intros H.
  assert (H' : Nat.to_uint n = Nat.to_uint m).
  { pose proof (NilEmpty.usu (Nat.to_uint n)) as H1.
    pose proof (NilEmpty.usu (Nat.to_uint m)) as H2.
    rewrite H in H1. congruence. }
  apply (f_equal Nat.of_uint) in H'.
  rewrite !Unsigned.of_to in H'. exact H'.
Qed.

(** [handle_client] up to the [try], in a state whose active arena exists. *)
Lemma register_spec websocket s m :
  nth_error (maps s) (current_map s) = Some m ->
  let id := str (S (player_counter s)) in
  exists c s' e,
    register websocket s = (Ok id, s', e)
    /\ Forall log_only e
    /\ In c ghost_colors_available
    /\ player_counter s' = S (player_counter s)
    /\ maps s' = maps s /\ current_map s' = current_map s
    /\ last_respawn_time s' = last_respawn_time s
    /\ connected_clients s' = set_add Nat.eq_dec websocket (connected_clients s)
    /\ keys (players s')
       = keys (dict_set id (new_player m c websocket id) (players s))
    /\ settled s'
    /\ (forall k p,
          assoc k (dict_set id (new_player m c websocket id) (players s)) = Some p ->
          exists p', assoc k (players s') = Some p' /\ reassigned p p').
Proof.
  intros Hm id.
  set (s0 := set_connected_clients
               (set_add Nat.eq_dec websocket
                  (connected_clients (set_player_counter (S (player_counter s)) s)))
               (set_player_counter (S (player_counter s)) s)).
  destruct (get_ghost_color_frame s0) as (c & s1 & Hcol & Hin & Hf).
  destruct Hf as (Hp1 & Hh1 & Hc1 & Hm1 & Hcm1 & Hcc1 & Hl1).
  set (s2 := set_players (dict_set id (new_player m c websocket id) (players s1)) s1).
  destruct (assign_roles_spec s2) as (s' & e & Hrun & Hkeys & Harena & Hset & Hall & Hkeep
                                      & Hnew & _).
  exists c, s', (e ++ [Log info]).
  split.
  { unfold register, bind at 1, modify at 1.
    unfold bind at 1, get_state at 1. cbn [player_counter set_player_counter].
    unfold bind at 1, modify at 1. fold s0.
    rewrite (bind_run _ _ _ _ _ _ (current_map_data_run s0 m Hm)).
    rewrite (bind_run _ _ _ _ _ _ Hcol).
    unfold bind at 1, modify at 1. fold id. fold s2.
    unfold bind at 1. rewrite Hrun.
    unfold bind, emit, ret. simpl. reflexivity. }
  split.
  { apply Forall_app. split; [| repeat constructor].
    destruct (pacman_missing s2) eqn:Hmiss.
    - destruct (players s2) as [| kp d] eqn:Hd.
      + unfold s2 in Hd. simpl in Hd. destruct (players s1); simpl in Hd;
          [discriminate | destruct p; destruct (String.eqb id s3); discriminate].
      + destruct (Hnew eq_refl kp d eq_refl) as [_ ->]. repeat constructor.
    - destruct (Hkeep eq_refl) as [_ ->]. constructor. }
  split; [exact Hin |].
  destruct Harena as (Ha1 & Ha2 & Ha3 & Ha4 & Ha5).
  split; [rewrite Ha5; unfold s2; simpl; rewrite Hc1; reflexivity |].
  split; [rewrite Ha1; unfold s2; simpl; rewrite Hm1; reflexivity |].
  split; [rewrite Ha2; unfold s2; simpl; rewrite Hcm1; reflexivity |].
  split; [rewrite Ha4; unfold s2; simpl; rewrite Hl1; reflexivity |].
  split; [rewrite Ha3; unfold s2; simpl; rewrite Hcc1; reflexivity |].
  split; [rewrite Hkeys; unfold s2; simpl; rewrite Hp1; reflexivity |].
  split; [exact Hset |].
  intros k p Hp. apply Hall. unfold s2. simpl. rewrite Hp1. exact Hp.
Qed.

(** [cleanup_player] on a registered player of a sound registry. *)
Lemma cleanup_player_spec s pid p :
  registry_ok s -> assoc pid (players s) = Some p ->
  exists nm sc c s1 s' e,
    p_name p = Some nm /\ p_score p = Some sc /\ p_color p = Some c
    /\ cleanup_player pid s
       = (Ok tt, s',
          (if is_pacman_id pid s
           then [update_player_rating nm sc true; Log info; Log info] else []) ++ e)
    /\ assign_roles s1 = (Ok tt, s', e)
    /\ players s1 = dict_del pid (players s)
    /\ pacman_player_id s1
       = (if is_pacman_id pid s then None else pacman_player_id s)
    /\ used_ghost_colors s1
       = (if Role_eqb (p_role p) ghost && color_used c s
          then set_remove Color_eq_dec c (used_ghost_colors s)
          else used_ghost_colors s)
    /\ connected_clients s1
       = (if existsb (Nat.eqb (p_websocket p)) (connected_clients s)
          then set_remove Nat.eq_dec (p_websocket p) (connected_clients s)
          else connected_clients s)
    /\ maps s1 = maps s /\ current_map s1 = current_map s
    /\ player_counter s1 = player_counter s
    /\ last_respawn_time s1 = last_respawn_time s /\ rnd s1 = rnd s.
Proof.
  intros Hreg Hp.
  destruct (registry_ok_complete s pid p Hreg Hp) as (c & sc & l & nm & Hc & Hsc & Hl & Hnm).
  exists nm, sc, c.
  unfold cleanup_player, bind at 1, get_state.
  assert (Hk : has_key pid (players s) = true) by (apply has_key_assoc; eauto).
  rewrite Hk. unfold when at 1.
  rewrite (bind_run _ _ _ _ _ _ (get_player_run s pid p Hp)).
  rewrite Hnm, Hsc, Hc.
  destruct (is_pacman_id pid s) eqn:Hh; destruct (Role_eqb (p_role p) ghost) eqn:Hr;
    destruct (color_used c s) eqn:Hu;
    destruct (existsb (Nat.eqb (p_websocket p)) (connected_clients s)) eqn:Hw;
    cbv beta iota delta [bind when field ret emit modify get_state andb];
    rewrite ?Hu; cbv beta iota;
    cbn [connected_clients set_pacman_player_id set_used_ghost_colors];
    rewrite ?Hw; cbv beta iota;
    match goal with
    | |- context [assign_roles ?s1] =>
        destruct (assign_roles_spec s1) as (s' & e & Hrun & _);
        exists s1, s', e; rewrite Hrun; cbn [app];
        repeat split; reflexivity
    end.
Qed.

Lemma assign_roles_log_only s s' e :
  assign_roles s = (Ok tt, s', e) -> Forall log_only e.
Proof.
  intros Hrun.
  destruct (assign_roles_spec s) as (s2 & e2 & Hrun2 & _ & _ & _ & _ & Hkeep & Hnew & _).
  assert (He : e = e2) by congruence. subst e2.
  destruct (pacman_missing s) eqn:Hm.
  - destruct (players s) as [| kp d] eqn:Hd.
    + rewrite assign_roles_eq, Hd in Hrun. injection Hrun as _ <-. constructor.
    + destruct (Hnew eq_refl kp d eq_refl) as [_ ->]. repeat constructor.
  - destruct (Hkeep eq_refl) as [_ ->]. constructor.
Qed.

Lemma keys_dict_del k d :
  nodup_keys d = true ->
  keys (dict_del k d) = filter (fun k' => negb (String.eqb k' k)) (keys d).
Proof.
  induction d as [| [k' v] d IH]; intros Hn; [reflexivity |].
  simpl in Hn. apply andb_true_iff in Hn. destruct Hn as [Hk Hn].
  simpl. rewrite (String.eqb_sym k' k). destruct (String.eqb k k') eqn:E; simpl.
  - apply String.eqb_eq in E. subst k'.
    symmetry. apply forallb_filter_id. apply forallb_forall. intros x Hx.
    apply negb_true_iff. apply String.eqb_neq. intros ->.
    apply has_key_In in Hx. rewrite Hx in Hk. discriminate.
  - rewrite IH; auto.
Qed.

(** The state [cleanup_player] leaves. *)
Lemma cleanup_player_after s pid p :
  registry_ok s -> assoc pid (players s) = Some p ->
  exists nm sc c s' e,
    p_name p = Some nm /\ p_score p = Some sc /\ p_color p = Some c
    /\ cleanup_player pid s
       = (Ok tt, s',
          (if is_pacman_id pid s
           then [update_player_rating nm sc true; Log info; Log info] else []) ++ e)
    /\ Forall log_only e
    /\ keys (players s') = filter (fun k => negb (String.eqb k pid)) (keys (players s))
    /\ (forall k q, k <> pid -> assoc k (players s) = Some q ->
          exists q', assoc k (players s') = Some q' /\ reassigned q q')
    /\ settled s'
    /\ maps s' = maps s /\ current_map s' = current_map s
    /\ player_counter s' = player_counter s
    /\ last_respawn_time s' = last_respawn_time s
    /\ connected_clients s'
       = (if existsb (Nat.eqb (p_websocket p)) (connected_clients s)
          then set_remove Nat.eq_dec (p_websocket p) (connected_clients s)
          else connected_clients s)
    /\ used_ghost_colors s'
       = (if Role_eqb (p_role p) ghost && color_used c s
          then set_remove Color_eq_dec c (used_ghost_colors s)
          else used_ghost_colors s).
Proof.
  intros Hreg Hp.
  destruct (cleanup_player_spec s pid p Hreg Hp)
    as (nm & sc & c & s1 & s' & e & Hnm & Hsc & Hc & Hrun & Hroles & Hpl & Hh & Hu & Hcc
        & Hm & Hcm & Hpc & Hl & Hr).
  exists nm, sc, c, s', e. repeat (split; [assumption |]).
  split; [eapply assign_roles_log_only; eauto |].
  destruct (assign_roles_spec s1)
    as (s'' & e' & Hrun' & Hkeys & Harena & Hset & Hall & _ & _ & Hpool).
  rewrite Hroles in Hrun'. injection Hrun' as <- <-.
  destruct Harena as (Ha1 & Ha2 & Ha3 & Ha4 & Ha5).
  assert (Hreg1 : registry_ok s1).
  { apply (registry_ok_ext (set_players (dict_del pid (players s)) s));
      [exact Hpl | apply registry_ok_dict_del; exact Hreg]. }
  split; [rewrite Hkeys, Hpl; apply keys_dict_del; apply Hreg |].
  split.
  { intros k q Hne Hq. apply Hall. rewrite Hpl, assoc_dict_del by apply Hreg.
    apply String.eqb_neq in Hne. rewrite Hne. exact Hq. }
  split; [exact Hset |].
  split; [congruence |]. split; [congruence |]. split; [congruence |].
  split; [congruence |]. split; [congruence |].
  destruct (Hpool (coloured_registry_ok s1 Hreg1)) as [Hu' _].
  rewrite Hu'. rewrite <- Hu.
  destruct (players s1); [reflexivity |].
  destruct (pacman_missing s1); [apply used_ghost_colors_pop | reflexivity].
Qed.

Lemma cleanup_player_absent s pid :
  has_key pid (players s) = false -> cleanup_player pid s = (Ok tt, s, []).
Proof. intros Hk. unfold cleanup_player, bind, get_state. rewrite Hk. reflexivity. Qed.

Lemma post_step_register websocket s :
  post (step (Register websocket)) s = post (register websocket) s.
Proof.
  unfold post. simpl. unfold bind.
  destruct (register websocket s) as [[[a | x] s1] e1]; reflexivity.
Qed.

Lemma reachable_ids s :
  reachable s -> ids_bounded (keys (players s)) (player_counter s).
Proof.
  induction 1 as [c now tape | s e Hs IH | s tape _ IH].
  - intros k [].
  - destruct e as [websocket | pid message now | pid].
    + rewrite post_step_register.
      destruct (reachable_arenas s Hs) as [c Ha].
      destruct (arenas_current c s Ha) as (m & g & gs & Hm & _).
      destruct (register_spec websocket s m Hm)
        as (col & s' & e & Hrun & _ & _ & Hpc & _ & _ & _ & _ & Hkeys & _).
      unfold post. rewrite Hrun. simpl. rewrite Hkeys, Hpc, keys_dict_set.
      intros k Hk.
      assert (Hcases : In k (keys (players s)) \/ k = str (S (player_counter s))).
      { destruct (has_key (str (S (player_counter s))) (players s)); auto.
        apply in_app_or in Hk. destruct Hk as [Hk | [Hk | []]]; auto. }
      destruct Hcases as [Hk' | ->].
      * destruct (IH k Hk') as (n & -> & Hn). exists n. split; [reflexivity | lia].
      * exists (S (player_counter s)). split; [reflexivity | lia].
    + simpl. apply (keeps_post (fun t => ids_bounded (keys (players t)) (player_counter t)));
        [| exact IH].
      apply (keeps_handle_message_members ids_bounded).
    + simpl. destruct (assoc pid (players s)) as [p |] eqn:Hp.
      * destruct (cleanup_player_after s pid p (proj1 (reachable_WF s Hs)) Hp)
          as (nm & sc & c & s' & e & _ & _ & _ & Hrun & _ & Hkeys & _ & _ & _ & _ & Hpc & _).
        unfold post. rewrite Hrun. simpl. rewrite Hkeys, Hpc.
        intros k Hk. apply filter_In in Hk. apply IH. apply Hk.
      * unfold post. rewrite cleanup_player_absent; [exact IH |].
        unfold has_key. rewrite Hp. reflexivity.
  - exact IH.
Qed.

Lemma reachable_fresh s :
  reachable s -> has_key (str (S (player_counter s))) (players s) = false.
Proof.
  intros Hs. destruct (has_key (str (S (player_counter s))) (players s)) eqn:Hk; auto.
  apply has_key_In in Hk. destruct (reachable_ids s Hs _ Hk) as (n & Hn & Hle).
  apply str_inj in Hn. lia.
Qed.








(** ** Snapshots and the closing broadcast *)

Lemma run_eq {A : Type} (m : M A) s : m s = (result m s, post m s, effects m s).
Proof. unfold result, post, effects. destruct (m s) as [[r s'] e]. reflexivity. Qed.

Lemma players_data_spec s (d : list (string * Player)) :
  (forall k p, In (k, p) d -> exists c, p_color p = Some c) ->
  exists vs,
    map_m (fun kp => v <- lift (player_view (fst kp) (snd kp)) ;; ret (fst kp, v)) d s
    = (Ok vs, s, [])
    /\ Forall2 (fun kp kv => fst kv = fst kp
                             /\ player_view (fst kp) (snd kp) = Ok (snd kv)) d vs.
Proof.
  induction d as [| [k p] d IH]; intros Hc.
  - exists []. split; [reflexivity | constructor].
  - destruct IH as (vs & Hrun & Hall); [intros; eapply Hc; right; eauto |].
    destruct (Hc k p (or_introl eq_refl)) as [c Hcp].
    assert (Hv : exists v, player_view k p = Ok v)
      by (unfold player_view; rewrite Hcp; eauto).
    destruct Hv as [v Hv]. exists ((k, v) :: vs). split.
    + assert (H1 : (v <- lift (player_view (fst (k, p)) (snd (k, p))) ;;
                    ret (fst (k, p), v)) s = (Ok (k, v), s, []))
        by (unfold bind, lift, ret; simpl; rewrite Hv; reflexivity).
      rewrite map_m_cons, (bind_run _ _ _ _ _ _ H1), (bind_run _ _ _ _ _ _ Hrun).
      reflexivity.
    + constructor; [split; [reflexivity | exact Hv] | exact Hall].
Qed.

Lemma prepare_game_state_spec s pid p m :
  fields_ok s = true ->
  nth_error (maps s) (current_map s) = Some m ->
  assoc pid (players s) = Some p ->
  exists g, prepare_game_state pid s = (Ok g, s, []) /\ snapshot_for s pid p g.
Proof.
  intros Hf Hm Hp.
  destruct (players_data_spec s (players s)) as (vs & Hrun & Hall).
  { intros k q Hin. eapply fields_ok_color; eauto. }
  eexists. split.
  - unfold prepare_game_state, bind at 1, get_state.
    unfold bind at 1. rewrite Hrun.
    rewrite (bind_run _ _ _ _ _ _ (current_map_data_run s m Hm)).
    rewrite (bind_run _ _ _ _ _ _ (get_player_run s pid p Hp)).
    reflexivity.
  - unfold snapshot_for. simpl. rewrite (cur_nth_error s m Hm).
    repeat split; auto.
Qed.


Lemma broadcast_tasks_spec s m (d : list (string * Player)) :
  fields_ok s = true ->
  nth_error (maps s) (current_map s) = Some m ->
  (forall k p, In (k, p) d -> assoc k (players s) = Some p) ->
  exists gs,
    map_m (fun kp =>
             g <- prepare_game_state (fst kp) ;;
             me <- get_player (fst kp) ;;
             ret (Send (p_websocket me) (game_state g))) d s
    = (Ok (map (fun kg => Send (p_websocket (snd (fst kg))) (game_state (snd kg)))
               (combine d gs)), s, [])
    /\ Forall2 (fun kp g => snapshot_for s (fst kp) (snd kp) g) d gs.
Proof.
  intros Hf Hm. induction d as [| [k p] d IH]; intros Hd.
  - exists []. split; [reflexivity | constructor].
  - destruct IH as (gs & Hrun & Hall); [intros; apply Hd; right; assumption |].
    pose proof (Hd k p (or_introl eq_refl)) as Hp.
    destruct (prepare_game_state_spec s k p m Hf Hm Hp) as (g & Hg & Hsnap).
    exists (g :: gs). split; [| constructor; assumption].
    rewrite map_m_cons. simpl fst.
    rewrite bind_assoc. rewrite (bind_run _ _ _ _ _ _ Hg).
    rewrite bind_assoc. rewrite (bind_run _ _ _ _ _ _ (get_player_run s k p Hp)).
    rewrite ret_bind. unfold bind at 1. rewrite Hrun. reflexivity.
Qed.

Lemma sends_app a b : sends (a ++ b) = sends a ++ sends b.
Proof. apply filter_app. Qed.



Lemma sends_all (l : list (string * Player * Snapshot)) :
  sends (map (fun kg => Send (p_websocket (snd (fst kg))) (game_state (snd kg))) l)
  = map (fun kg => Send (p_websocket (snd (fst kg))) (game_state (snd kg))) l.
Proof. induction l as [| a l IH]; [reflexivity |]. simpl. rewrite IH. reflexivity. Qed.

(** The closing broadcast, in a sound registry with an existing arena. *)
Lemma broadcast_game_state_spec now s :
  registry_ok s ->
  (current_map s < List.length (maps s))%nat ->
  let s' := post (check_snowflake_respawn now) s in
  exists gs,
    broadcast_game_state now s
    = (Ok tt, s',
       effects (check_snowflake_respawn now) s
       ++ map (fun kg => Send (p_websocket (snd (fst kg))) (game_state (snd kg)))
              (combine (players s) gs))
    /\ Forall2 (fun kp g => snapshot_for s' (fst kp) (snd kp) g) (players s') gs
    /\ players s' = players s
    /\ sends (effects (check_snowflake_respawn now) s) = [].
Proof.
  intros Hreg Hcm s'.
  destruct (check_snowflake_respawn_frame now s)
    as (Hres & Hp & _ & Hc & _ & _ & _ & Hlen & _).
  fold s' in Hp, Hc, Hlen.
  assert (Hf : fields_ok s' = true).
  { unfold fields_ok. rewrite Hp. apply forallb_forall. intros [k p] Hin.
    apply (proj2 Hreg k p). apply In_assoc; [apply Hreg | exact Hin]. }
  destruct (nth_error (maps s') (current_map s')) as [m |] eqn:Hm.
  2: { apply nth_error_None in Hm. lia. }
  destruct (broadcast_tasks_spec s' m (players s') Hf Hm) as (gs & Hrun & Hall).
  { intros k p Hin. apply In_assoc; [rewrite Hp; apply Hreg | exact Hin]. }
  exists gs. split; [| split; [exact Hall | split; [exact Hp |]]].
  - unfold broadcast_game_state, bind at 1.
    rewrite (run_eq (check_snowflake_respawn now) s), Hres. fold s'.
    unfold bind at 1, get_state. unfold bind at 1. rewrite Hrun.
    rewrite for_each_emit, Hp. reflexivity.
  - unfold effects. rewrite check_snowflake_respawn_eq.
    destruct (respawn_due now s); [| reflexivity].
    destruct (0 <? count_true (pass_dots s) + count_true (pass_icicles s)); reflexivity.
Qed.




Lemma reachable_current s :
  reachable s ->
  exists m g gs,
    nth_error (maps s) (current_map s) = Some m /\ m_ghost_spawns m = g :: gs.
Proof.
  intros Hs. destruct (reachable_arenas s Hs) as [c Ha]. eapply arenas_current; eauto.
Qed.







(** X6 -- the closing broadcast.  In a well-formed state whose active
    arena exists, [broadcast_game_state] returns; its only state change is
    the one of the respawn pass; and it writes exactly one [game_state]
    message per registered player, in the order of the registry, each to
    that player's own socket and holding the snapshot made for that player:
    the views of all the players, only the items that are not eaten, the
    active arena, the recipient's id and role and the hunter's id. *)
Theorem broadcast_one_snapshot_each now s :
  wf s = true ->
  (current_map s < List.length (maps s))%nat ->
  let s' := post (broadcast_game_state now) s in
  result (broadcast_game_state now) s = Ok tt
  /\ s' = post (check_snowflake_respawn now) s
  /\ players s' = players s
  /\ exists gs,
       sends (effects (broadcast_game_state now) s)
       = map (fun kg => Send (p_websocket (snd (fst kg))) (game_state (snd kg)))
             (combine (players s') gs)
       /\ Forall2 (fun kp g => snapshot_for s' (fst kp) (snd kp) g) (players s') gs.
Proof.
  intros Hwf Hcm s'. pose proof (wf_WF s Hwf) as [Hreg _].
  destruct (broadcast_game_state_spec now s Hreg Hcm) as (gs & Hrun & Hall & Hp & Hlog).
  unfold s', result, post, effects. rewrite Hrun. simpl.
  split; [reflexivity |]. split; [reflexivity |]. split; [exact Hp |].
  exists gs. split; [| exact Hall].
  rewrite sends_app, Hlog, sends_all, Hp. reflexivity.
Qed.

Lemma broadcast_one_snapshot_each_witness :
  let s := run [Register 1%nat; Register 2%nat] server0 in
  wf s = true /\ (current_map s < List.length (maps s))%nat
  /\ result (broadcast_game_state 0) s = Ok tt
  /\ players (post (broadcast_game_state 0) s) = players s.
Proof.
  intros s.
  assert (Hwf : wf s = true) by (vm_compute; reflexivity).
  assert (Hcm : (current_map s < List.length (maps s))%nat) by (vm_compute; lia).
  split; [exact Hwf |]. split; [exact Hcm |].
  destruct (broadcast_one_snapshot_each 0 s Hwf Hcm) as (Hres & _ & Hp & _).
  split; [exact Hres | exact Hp].
Defined.






(** ** Collisions with items *)

Lemma set_nth_set_nth {A : Type} (f g : A -> A) (l : list A) :
  (forall a, f (g a) = f a) ->
  forall n, set_nth n f (set_nth n g l) = set_nth n f l.
Proof.
  intros H. induction l as [| a l IH]; intros [| n]; simpl; rewrite ?H, ?IH; reflexivity.
Qed.

Lemma set_nth_id {A : Type} (f : A -> A) (l : list A) :
  forall n, (forall a, nth_error l n = Some a -> f a = a) -> set_nth n f l = l.
Proof.
  induction l as [| a l IH]; intros [| n] H; simpl; try reflexivity.
  - rewrite (H a eq_refl). reflexivity.
  - rewrite IH; [reflexivity |]. intros b Hb. apply H. exact Hb.
Qed.

Lemma set_maps_same s : set_maps (maps s) s = s.
Proof. destruct s; reflexivity. Qed.

Lemma set_dots_set_dots v w s : set_dots v (set_dots w s) = set_dots v s.
Proof.
  unfold set_dots. simpl. rewrite set_nth_set_nth; [reflexivity |].
  intros m. reflexivity.
Qed.

Lemma set_dots_same s : set_dots (dots s) s = s.
Proof.
  unfold set_dots. rewrite set_nth_id; [apply set_maps_same |].
  intros m Hm. unfold dots. rewrite (cur_nth_error s m Hm). destruct m; reflexivity.
Qed.

Lemma set_power_pellets_set_power_pellets v w s :
  set_power_pellets v (set_power_pellets w s) = set_power_pellets v s.
Proof.
  unfold set_power_pellets. simpl. rewrite set_nth_set_nth; [reflexivity |].
  intros m. reflexivity.
Qed.

Lemma set_power_pellets_same s : set_power_pellets (power_pellets s) s = s.
Proof.
  unfold set_power_pellets. rewrite set_nth_id; [apply set_maps_same |].
  intros m Hm. unfold power_pellets. rewrite (cur_nth_error s m Hm).
  destruct m; reflexivity.
Qed.

Lemma dots_set_dots_map (f : Dot -> Dot) s :
  dots (set_dots (map f (dots s)) s) = map f (dots s).
Proof.
  destruct (Nat.lt_ge_cases (current_map s) (List.length (maps s))) as [Hl | Hl].
  - apply dots_set_dots. exact Hl.
  - unfold set_dots. rewrite set_nth_overflow by exact Hl. rewrite set_maps_same.
    unfold dots, cur. rewrite nth_overflow by exact Hl. reflexivity.
Qed.

Lemma power_pellets_set_power_pellets_map (f : Icicle -> Icicle) s :
  power_pellets (set_power_pellets (map f (power_pellets s)) s)
  = map f (power_pellets s).
Proof.
  destruct (Nat.lt_ge_cases (current_map s) (List.length (maps s))) as [Hl | Hl].
  - apply power_pellets_set_power_pellets. exact Hl.
  - unfold set_power_pellets. rewrite set_nth_overflow by exact Hl.
    rewrite set_maps_same.
    unfold power_pellets, cur. rewrite nth_overflow by exact Hl. reflexivity.
Qed.

Lemma set_nth_app {A : Type} (f : A -> A) (l1 : list A) a l2 :
  set_nth (List.length l1) f (l1 ++ a :: l2) = l1 ++ f a :: l2.
Proof. induction l1 as [| b l1 IH]; simpl; [reflexivity | rewrite IH; reflexivity]. Qed.

Lemma nth_error_middle {A : Type} (l1 : list A) a l2 :
  nth_error (l1 ++ a :: l2) (List.length l1) = Some a.
Proof. induction l1 as [| b l1 IH]; simpl; [reflexivity | exact IH]. Qed.

Lemma set_score_set_score a b p : set_score b (set_score a p) = set_score b p.
Proof. reflexivity. Qed.

Lemma set_score_same p sc : p_score p = Some sc -> set_score (Some sc) p = p.
Proof. destruct p. simpl. intros ->. reflexivity. Qed.

Lemma add_score_run pid points s p sc :
  assoc pid (players s) = Some p -> p_score p = Some sc ->
  add_score pid points s
  = (Ok tt, set_players (upd pid (set_score (Some (sc + points))) (players s)) s, []).
Proof.
  intros Hp Hsc. unfold add_score.
  rewrite (bind_run _ _ _ _ _ _ (get_player_run s pid p Hp)). rewrite Hsc.
  unfold field. rewrite ret_bind. rewrite (update_player_run s pid _ p Hp). reflexivity.
Qed.

Lemma check_snowflake_collision_eq pid x y s :
  check_snowflake_collision pid x y s
  = for_each (seq 0 (List.length (dots s))) (snowflake_body pid x y) s.
Proof.
  change (check_snowflake_collision pid x y s)
    with ((s0 <- get_state ;;
           for_each (seq 0 (List.length (dots s0))) (snowflake_body pid x y)) s).
  unfold bind at 1, get_state at 1.
  destruct (for_each (seq 0 (List.length (dots s))) (snowflake_body pid x y) s)
    as [[r s2] e2].
  reflexivity.
Qed.

Lemma snowflake_step pid x y i s d p sc :
  nth_error (dots s) i = Some d ->
  assoc pid (players s) = Some p -> p_score p = Some sc ->
  snowflake_body pid x y i s
  = if collectable x y d then
      (Ok tt,
       set_players
         (upd pid (set_score (Some (sc + points_of (d_type d)))) (players s))
         (set_dots (set_nth i (with_eaten true) (dots s)) s),
       [Log info])
    else (Ok tt, s, []).
Proof.
  intros Hnth Hp Hsc. unfold snowflake_body, bind at 1, get_state.
  rewrite Hnth. fold (collectable x y d). destruct (collectable x y d); [| reflexivity].
  unfold when, bind at 1, modify.
  set (s1 := set_dots (set_nth i (with_eaten true) (dots s)) s).
  assert (Hp1 : assoc pid (players s1) = Some p) by exact Hp.
  unfold bind at 1. rewrite (add_score_run pid _ s1 p sc Hp1 Hsc). reflexivity.
Qed.

Lemma snowflake_loop pid x y : forall todo done s p sc,
  dots s = done ++ todo ->
  assoc pid (players s) = Some p -> p_score p = Some sc ->
  for_each (seq (List.length done) (List.length todo)) (snowflake_body pid x y) s
  = (Ok tt,
     set_players
       (upd pid (set_score (Some (sc + points_collected x y todo))) (players s))
       (set_dots (done ++ map (collect x y) todo) s),
     repeat (Log info) (List.length (filter (collectable x y) todo))).
Proof.
  induction todo as [| d todo IH]; intros done s p sc Hdots Hp Hsc.
  - simpl. unfold ret. rewrite <- Hdots, set_dots_same.
    unfold points_collected. simpl. rewrite Z.add_0_r.
    rewrite upd_id; [rewrite set_players_same; reflexivity |].
    intros q Hq. assert (q = p) by congruence. subst q. apply set_score_same. exact Hsc.
  - assert (Hnth : nth_error (dots s) (List.length done) = Some d)
      by (rewrite Hdots; apply nth_error_middle).
    pose proof (in_range_of_dot s _ d Hnth) as Hcm.
    cbn [List.length seq for_each]. unfold bind.
    rewrite (snowflake_step pid x y _ s d p sc Hnth Hp Hsc).
    cbn [filter map]. unfold collect at 1, points_collected. cbn [filter].
    destruct (collectable x y d) eqn:Hc.
    + set (s1 := set_dots (set_nth (List.length done) (with_eaten true) (dots s)) s).
      set (s2 := set_players
                   (upd pid (set_score (Some (sc + points_of (d_type d)))) (players s)) s1).
      assert (Hd2 : dots s2 = (done ++ [with_eaten true d]) ++ todo).
      { change (dots s2) with (dots s1). unfold s1. rewrite dots_set_dots by exact Hcm.
        rewrite Hdots, set_nth_app, <- app_assoc. reflexivity. }
      assert (Hp2 : assoc pid (players s2)
                    = Some (set_score (Some (sc + points_of (d_type d))) p)).
      { unfold s2. simpl. rewrite assoc_upd_eq, Hp. reflexivity. }
      pose proof (IH (done ++ [with_eaten true d]) s2 _ _ Hd2 Hp2 eq_refl) as Hloop.
      rewrite length_app, Nat.add_1_r in Hloop.
      rewrite Hloop. cbn [map fold_right List.length repeat app].
      f_equal. f_equal.
      unfold s2, s1. simpl players.
      rewrite upd_upd.
      change (set_dots ?v (set_players ?d ?t)) with (set_players d (set_dots v t)).
      rewrite set_dots_set_dots.
      change (set_players ?a (set_players ?b ?t)) with (set_players a t).
      rewrite <- app_assoc. simpl app.
      f_equal. apply upd_ext. intros q _. rewrite set_score_set_score.
      unfold points_collected. rewrite Z.add_assoc. reflexivity.
    + assert (Hd1 : dots s = (done ++ [d]) ++ todo)
        by (rewrite <- app_assoc; exact Hdots).
      pose proof (IH (done ++ [d]) s p sc Hd1 Hp Hsc) as Hloop.
      rewrite length_app, Nat.add_1_r in Hloop.
      rewrite Hloop. cbn [app]. rewrite <- app_assoc. reflexivity.
Qed.

Lemma check_snowflake_collision_run s pid p sc x y :
  assoc pid (players s) = Some p -> p_score p = Some sc ->
  check_snowflake_collision pid x y s
  = (Ok tt,
     set_players
       (upd pid (set_score (Some (sc + points_collected x y (dots s)))) (players s))
       (set_dots (map (collect x y) (dots s)) s),
     repeat (Log info) (List.length (filter (collectable x y) (dots s)))).
Proof.
  intros Hp Hsc. rewrite check_snowflake_collision_eq.
  apply (snowflake_loop pid x y (dots s) [] s p sc eq_refl Hp Hsc).
Qed.

(** X9 -- collecting snowflakes.  For a registered player whose dict
    has a score, [check_snowflake_collision] at [(x, y)] returns; every
    snowflake of the active arena that was not eaten and whose box meets the
    30-pixel box of the player is marked eaten and no other changes; the
    player's score grows by the points of the snowflakes just marked (10 for
    a regular one, 15 for a crystal, 20 for a star); one line is logged per
    snowflake; nothing else in the server changes. *)
Theorem snowflake_collision_collects s pid p sc x y :
  assoc pid (players s) = Some p -> p_score p = Some sc ->
  let s' := post (check_snowflake_collision pid x y) s in
  check_snowflake_collision pid x y s
  = (Ok tt,
     set_players
       (upd pid (set_score (Some (sc + points_collected x y (dots s)))) (players s))
       (set_dots (map (collect x y) (dots s)) s),
     repeat (Log info) (List.length (filter (collectable x y) (dots s))))
  /\ dots s' = map (collect x y) (dots s)
  /\ assoc pid (players s')
     = Some (set_score (Some (sc + points_collected x y (dots s))) p)
  /\ (forall k, k <> pid -> assoc k (players s') = assoc k (players s))
  /\ power_pellets s' = power_pellets s.
Proof.
  intros Hp Hsc s'.
  pose proof (check_snowflake_collision_run s pid p sc x y Hp Hsc) as Hrun.
  split; [exact Hrun |].
  unfold s', post. rewrite Hrun. simpl snd. simpl fst.
  split; [apply dots_set_dots_map |].
  split; [simpl; rewrite assoc_upd_eq, Hp; reflexivity |].
  split; [intros k Hk; simpl; apply assoc_upd_neq; exact Hk |].
  apply power_pellets_set_dots.
Qed.

Lemma snowflake_collision_collects_witness :
  let s := run [Register 1%nat] server0 in
  let s' := post (check_snowflake_collision "1" 400 500) s in
  List.length (filter (collectable 400 500) (dots s)) = 120%nat
  /\ forallb get_eaten (dots s') = true
  /\ option_map p_score (assoc "1" (players s')) = Some (Some 1200).
Proof.
  intros s s'.
  destruct (snowflake_collision_collects s "1"
              (mkPlayer 400 500 pacman (Some [255; 255; 0]) (Some 0) false 0 (Some 3)
                 1%nat (Some (JStr "Player1")) (JBool true) (JBool false) 0 0 0)
              0 400 500) as (_ & Hdots & Hp & _); [vm_compute; reflexivity | reflexivity |].
  fold s' in Hdots, Hp.
  split; [vm_compute; reflexivity |].
  split; [rewrite Hdots; vm_compute; reflexivity |].
  rewrite Hp. vm_compute. reflexivity.
Defined.

Lemma check_icicle_collision_eq pid x y s :
  check_icicle_collision pid x y s
  = for_each (seq 0 (List.length (power_pellets s))) (icicle_body pid x y) s.
Proof.
  change (check_icicle_collision pid x y s)
    with ((s0 <- get_state ;;
           for_each (seq 0 (List.length (power_pellets s0))) (icicle_body pid x y)) s).
  unfold bind at 1, get_state at 1.
  destruct (for_each (seq 0 (List.length (power_pellets s))) (icicle_body pid x y) s)
    as [[r s2] e2].
  reflexivity.
Qed.

Lemma icicle_step pid x y i s d p :
  nth_error (power_pellets s) i = Some d ->
  assoc pid (players s) = Some p ->
  icicle_body pid x y i s
  = if breakable x y d then
      (Ok tt,
       set_players (upd pid (set_power true 300) (players s))
         (set_power_pellets (set_nth i (with_i_eaten true) (power_pellets s)) s),
       [Log info])
    else (Ok tt, s, []).
Proof.
  intros Hnth Hp. unfold icicle_body, bind at 1, get_state.
  rewrite Hnth. fold (breakable x y d). destruct (breakable x y d); [| reflexivity].
  unfold when, bind at 1, modify.
  set (s1 := set_power_pellets (set_nth i (with_i_eaten true) (power_pellets s)) s).
  assert (Hp1 : assoc pid (players s1) = Some p) by exact Hp.
  unfold bind at 1. rewrite (update_player_run s1 pid _ p Hp1). reflexivity.
Qed.

Lemma icicle_loop pid x y : forall todo done s p,
  power_pellets s = done ++ todo ->
  assoc pid (players s) = Some p ->
  for_each (seq (List.length done) (List.length todo)) (icicle_body pid x y) s
  = (Ok tt,
     set_players
       (if existsb (breakable x y) todo
        then upd pid (set_power true 300) (players s) else players s)
       (set_power_pellets (done ++ map (break x y) todo) s),
     repeat (Log info) (List.length (filter (breakable x y) todo))).
Proof.
  induction todo as [| d todo IH]; intros done s p Hpp Hp.
  - simpl. unfold ret. rewrite <- Hpp, set_power_pellets_same, set_players_same.
    reflexivity.
  - assert (Hnth : nth_error (power_pellets s) (List.length done) = Some d)
      by (rewrite Hpp; apply nth_error_middle).
    pose proof (in_range_of_icicle s _ d Hnth) as Hcm.
    cbn [List.length seq for_each]. unfold bind.
    rewrite (icicle_step pid x y _ s d p Hnth Hp).
    cbn [filter map existsb]. unfold break at 1.
    destruct (breakable x y d) eqn:Hc.
    + set (s1 := set_power_pellets
                   (set_nth (List.length done) (with_i_eaten true) (power_pellets s)) s).
      set (s2 := set_players (upd pid (set_power true 300) (players s)) s1).
      assert (Hd2 : power_pellets s2 = (done ++ [with_i_eaten true d]) ++ todo).
      { change (power_pellets s2) with (power_pellets s1). unfold s1.
        rewrite power_pellets_set_power_pellets by exact Hcm.
        rewrite Hpp, set_nth_app, <- app_assoc. reflexivity. }
      assert (Hp2 : assoc pid (players s2) = Some (set_power true 300 p)).
      { unfold s2. simpl. rewrite assoc_upd_eq, Hp. reflexivity. }
      pose proof (IH (done ++ [with_i_eaten true d]) s2 _ Hd2 Hp2) as Hloop.
      rewrite length_app, Nat.add_1_r in Hloop.
      rewrite Hloop. cbn [orb List.length repeat app].
      f_equal. f_equal.
      unfold s2, s1. simpl players.
      change (set_power_pellets ?v (set_players ?d ?t))
        with (set_players d (set_power_pellets v t)).
      rewrite set_power_pellets_set_power_pellets.
      change (set_players ?a (set_players ?b ?t)) with (set_players a t).
      rewrite <- app_assoc. simpl app.
      f_equal. destruct (existsb (breakable x y) todo); [| reflexivity].
      rewrite upd_upd. apply upd_ext. intros q _. reflexivity.
    + assert (Hd1 : power_pellets s = (done ++ [d]) ++ todo)
        by (rewrite <- app_assoc; exact Hpp).
      pose proof (IH (done ++ [d]) s p Hd1 Hp) as Hloop.
      rewrite length_app, Nat.add_1_r in Hloop.
      rewrite Hloop. cbn [app orb]. rewrite <- app_assoc. reflexivity.
Qed.

Lemma check_icicle_collision_run s pid p x y :
  assoc pid (players s) = Some p ->
  check_icicle_collision pid x y s
  = (Ok tt,
     set_players
       (if existsb (breakable x y) (power_pellets s)
        then upd pid (set_power true 300) (players s) else players s)
       (set_power_pellets (map (break x y) (power_pellets s)) s),
     repeat (Log info) (List.length (filter (breakable x y) (power_pellets s)))).
Proof.
  intros Hp. rewrite check_icicle_collision_eq.
  apply (icicle_loop pid x y (power_pellets s) [] s p eq_refl Hp).
Qed.

(** X10 -- breaking icicles.  For a registered player,
    [check_icicle_collision] at [(x, y)] returns; every icicle of the active
    arena that was not eaten and whose 10-pixel box meets the 30-pixel box of
    the player is marked eaten and no other changes; if there is such an
    icicle the player is put in power mode with the timer at 300, whatever
    the timer was, and otherwise its dict is untouched; nothing else in the
    server changes. *)
Theorem icicle_collision_powers_up s pid p x y :
  assoc pid (players s) = Some p ->
  let s' := post (check_icicle_collision pid x y) s in
  check_icicle_collision pid x y s
  = (Ok tt,
     set_players
       (if existsb (breakable x y) (power_pellets s)
        then upd pid (set_power true 300) (players s) else players s)
       (set_power_pellets (map (break x y) (power_pellets s)) s),
     repeat (Log info) (List.length (filter (breakable x y) (power_pellets s))))
  /\ power_pellets s' = map (break x y) (power_pellets s)
  /\ assoc pid (players s')
     = Some (if existsb (breakable x y) (power_pellets s)
             then set_power true 300 p else p)
  /\ (forall k, k <> pid -> assoc k (players s') = assoc k (players s))
  /\ dots s' = dots s.
Proof.
  intros Hp s'.
  pose proof (check_icicle_collision_run s pid p x y Hp) as Hrun.
  split; [exact Hrun |].
  unfold s', post. rewrite Hrun. simpl snd. simpl fst.
  split; [apply power_pellets_set_power_pellets_map |].
  split.
  { simpl. destruct (existsb (breakable x y) (power_pellets s));
      [rewrite assoc_upd_eq, Hp; reflexivity | exact Hp]. }
  split.
  { intros k Hk. simpl. destruct (existsb (breakable x y) (power_pellets s));
      [apply assoc_upd_neq; exact Hk | reflexivity]. }
  apply dots_set_power_pellets.
Qed.

Lemma icicle_collision_powers_up_witness :
  let s := run [Register 1%nat] server0 in
  let s' := post (check_icicle_collision "1" 120 120) s in
  map i_eaten (power_pellets s') = [true; false; false; false]
  /\ option_map (fun p => (p_power_mode p, p_power_timer p)) (assoc "1" (players s'))
     = Some (true, 300).
Proof.
  intros s s'.
  destruct (icicle_collision_powers_up s "1"
              (mkPlayer 400 500 pacman (Some [255; 255; 0]) (Some 0) false 0 (Some 3)
                 1%nat (Some (JStr "Player1")) (JBool true) (JBool false) 0 0 0)
              120 120) as (_ & Hpp & Hp & _); [vm_compute; reflexivity |].
  fold s' in Hpp, Hp.
  split; [rewrite Hpp; vm_compute; reflexivity |].
  rewrite Hp. vm_compute. reflexivity.
Defined.

(** X11 -- role assignment never resets lives or score.  For a registered
    player whose dict has lives and a score, [assign_roles] returns and the
    player is still registered with the same lives and the same score,
    whatever role it gets: the initial values 3 and 0 are written only into
    a dict that lacks the key, so a former hunter selected again keeps the
    lives (even 0) and the score it had. *)
Theorem assign_roles_keeps_lives_and_score s k p l sc :
  assoc k (players s) = Some p -> p_lives p = Some l -> p_score p = Some sc ->
  result assign_roles s = Ok tt
  /\ exists p', assoc k (players (post assign_roles s)) = Some p'
                /\ p_lives p' = Some l /\ p_score p' = Some sc.
Proof.
  intros Hp Hl Hsc.
  destruct (assign_roles_spec s) as (s' & e & Hrun & _ & _ & _ & Hall & _).
  unfold result, post. rewrite Hrun. simpl. split; [reflexivity |].
  destruct (Hall k p Hp) as (p' & Hp' & Hre). exists p'. split; [exact Hp' |].
  destruct Hre as (_ & _ & _ & _ & _ & _ & _ & _ & Hlives & Hscore & _).
  rewrite Hlives, Hscore by congruence. auto.
Qed.

Lemma assign_roles_keeps_lives_and_score_witness :
  let s := set_pacman_player_id None
             (set_players
                [("1", mkPlayer 400 300 ghost (Some [255; 182; 193]) (Some 1200) false 0
                         (Some 0) 1%nat (Some (JStr "Player1")) (JBool true)
                         (JBool false) 0 0 0)] server0) in
  result assign_roles s = Ok tt
  /\ exists p', assoc "1" (players (post assign_roles s)) = Some p'
                /\ p_lives p' = Some 0 /\ p_score p' = Some 1200.
Proof.
  intros s.
  apply (assign_roles_keeps_lives_and_score s "1"
           (mkPlayer 400 300 ghost (Some [255; 182; 193]) (Some 1200) false 0
              (Some 0) 1%nat (Some (JStr "Player1")) (JBool true) (JBool false) 0 0 0));
    reflexivity.
Defined.


(** ** Position messages *)

Lemma move_player_exact s pid data position new_x new_y p :
  subscript data "position" = Ok position ->
  subscript position "x" = Ok (JInt new_x) ->
  subscript position "y" = Ok (JInt new_y) ->
  assoc pid (players s) = Some p ->
  let v := get_valid_position (walls s) (p_x p) (p_y p) new_x new_y 30 in
  move_player pid data s
  = (Ok v,
     set_players
       (upd pid (fun q => set_pos (fst v) (snd v) (renamed position q)) (players s)) s,
     []).
Proof.
  intros Hpos Hx Hy Hp v. unfold move_player.
  rewrite Hpos, lift_ok, Hx, lift_ok, Hy, lift_ok.
  destruct position as [| | | | | d]; try discriminate.
  unfold key_in, renamed. simpl in Hx, Hy.
  destruct (assoc "name" d) as [name |] eqn:Hname.
  - unfold when.
    set (s1 := set_players (upd pid (set_name (Some name)) (players s)) s).
    assert (H1 : (name <- lift (subscript (JDict d) "name") ;;
                  update_player pid (set_name (Some name))) s = (Ok tt, s1, [])).
    { simpl subscript. rewrite Hname, lift_ok, (update_player_run s pid _ p Hp).
      reflexivity. }
    rewrite (bind_run _ _ _ _ _ _ H1).
    assert (Hp1 : assoc pid (players s1) = Some (set_name (Some name) p))
      by (unfold s1; simpl; rewrite assoc_upd_eq, Hp; reflexivity).
    rewrite (bind_run _ _ _ _ _ _ (get_player_run s1 pid _ Hp1)).
    simpl as_int. rewrite !lift_ok. unfold bind at 1, get_state at 1.
    rewrite (bind_run _ _ _ _ _ _ (update_player_run s1 pid _ _ Hp1)).
    unfold ret. simpl. unfold s1. simpl. rewrite upd_upd. reflexivity.
  - unfold when. rewrite ret_bind.
    rewrite (bind_run _ _ _ _ _ _ (get_player_run s pid _ Hp)).
    simpl as_int. rewrite !lift_ok. unfold bind at 1, get_state at 1.
    rewrite (bind_run _ _ _ _ _ _ (update_player_run s pid _ _ Hp)).
    reflexivity.
Qed.

Lemma tick_run pid s p :
  assoc pid (players s) = Some p ->
  (p <- get_player pid ;;
   when (p_power_mode p)
     (update_player pid (set_power true (p_power_timer p - 1)) ;;
      when (p_power_timer p - 1 <=? 0)
        (update_player pid (set_power false (p_power_timer p - 1))))) s
  = (Ok tt, set_players (upd pid tick (players s)) s, []).
Proof.
  intros Hp. rewrite (bind_run _ _ _ _ _ _ (get_player_run s pid p Hp)).
  destruct (p_power_mode p) eqn:Hpm; unfold when.
  - rewrite (bind_run _ _ _ _ _ _ (update_player_run s pid _ p Hp)).
    set (s1 := set_players (upd pid (set_power true (p_power_timer p - 1)) (players s)) s).
    assert (Hp1 : assoc pid (players s1) = Some (set_power true (p_power_timer p - 1) p))
      by (unfold s1; simpl; rewrite assoc_upd_eq, Hp; reflexivity).
    destruct (p_power_timer p - 1 <=? 0) eqn:Ht.
    + rewrite (update_player_run s1 pid _ _ Hp1). unfold s1. simpl players.
      change (set_players ?a (set_players ?b ?t)) with (set_players a t).
      rewrite upd_upd. rewrite (upd_ext pid _ tick); [reflexivity |].
      intros q Hq. assert (q = p) by congruence. subst q.
      unfold tick. rewrite Hpm, Ht. reflexivity.
    + unfold ret, s1. rewrite (upd_ext pid _ tick); [reflexivity |].
      intros q Hq. assert (q = p) by congruence. subst q.
      unfold tick. rewrite Hpm, Ht. reflexivity.
  - unfold ret. simpl. rewrite upd_id; [rewrite set_players_same; reflexivity |].
    intros q Hq. assert (q = p) by congruence. subst q. unfold tick. rewrite Hpm.
    reflexivity.
Qed.

Lemma dispatch_position pid data s :
  subscript data "type" = Ok (JStr "position") ->
  dispatch pid data s = handle_position pid data s.
Proof.
  intros Ht. unfold dispatch. rewrite Ht, lift_ok. simpl.
  destruct (handle_position pid data s) as [[r s2] e2]. reflexivity.
Qed.

Lemma renamed_frame position p :
  p_role (renamed position p) = p_role p
  /\ p_score (renamed position p) = p_score p
  /\ p_power_mode (renamed position p) = p_power_mode p
  /\ p_power_timer (renamed position p) = p_power_timer p
  /\ p_x (renamed position p) = p_x p /\ p_y (renamed position p) = p_y p.
Proof.
  unfold renamed. destruct position; try (repeat split; reflexivity).
  destruct (assoc "name" d); repeat split; reflexivity.
Qed.

(** X13 -- an evader's position message.  For a registered evader and a
    [position] message with integer coordinates, the handler returns without
    any effect and changes nothing but the evader's own dict: the name, if
    the message has one; the position, clamped against the walls; and, in
    power mode, the timer, which goes down by one, the mode ending when the
    timer reaches zero.  No item is eaten, no score changes, no other player
    moves. *)
Theorem evader_position_update s pid data position new_x new_y p :
  subscript data "type" = Ok (JStr "position") ->
  subscript data "position" = Ok position ->
  subscript position "x" = Ok (JInt new_x) ->
  subscript position "y" = Ok (JInt new_y) ->
  assoc pid (players s) = Some p -> p_role p = ghost ->
  let v := get_valid_position (walls s) (p_x p) (p_y p) new_x new_y 30 in
  dispatch pid data s
  = (Ok tt,
     set_players
       (upd pid (fun q => tick (set_pos (fst v) (snd v) (renamed position q)))
            (players s)) s,
     []).
Proof.
  intros Ht Hpos Hx Hy Hp Hrole v.
  rewrite (dispatch_position pid data s Ht). unfold handle_position.
  rewrite (bind_run _ _ _ _ _ _ (move_player_exact s pid data position new_x new_y p
                                   Hpos Hx Hy Hp)).
  fold v.
  set (s1 := set_players
               (upd pid (fun q => set_pos (fst v) (snd v) (renamed position q))
                    (players s)) s).
  assert (Hp1 : assoc pid (players s1)
                = Some (set_pos (fst v) (snd v) (renamed position p)))
    by (unfold s1; simpl; rewrite assoc_upd_eq, Hp; reflexivity).
  rewrite (bind_run _ _ _ _ _ _ (get_player_run s1 pid _ Hp1)).
  destruct (renamed_frame position p) as (Hr & _).
  change (p_role (set_pos (fst v) (snd v) (renamed position p)))
    with (p_role (renamed position p)).
  rewrite Hr, Hrole. change (Role_eqb ghost pacman) with false.
  unfold when at 1. rewrite ret_bind.
  rewrite (tick_run pid s1 _ Hp1). unfold s1. simpl. rewrite upd_upd. reflexivity.
Qed.

Lemma evader_position_update_witness :
  let s := run [Register 1%nat; Register 2%nat] server0 in
  let data := JDict [("type", JStr "position");
                     ("position", JDict [("x", JInt 350); ("y", JInt 470);
                                         ("name", JStr "Frost")])] in
  dispatch "2" data s
  = (Ok tt,
     set_players
       (upd "2" (fun q => tick (set_pos 350 500 (set_name (Some (JStr "Frost")) q)))
            (players s)) s,
     []).
Proof.
  intros s data.
  apply (evader_position_update s "2" data
           (JDict [("x", JInt 350); ("y", JInt 470); ("name", JStr "Frost")])
           350 470
           (mkPlayer 400 500 ghost (Some [255; 182; 193]) (Some 0) false 0 (Some 3)
              2%nat (Some (JStr "Player2")) (JBool true) (JBool false) 0 0 0));
    try reflexivity.
Defined.

Lemma check_ghost_collision_skip pid x y s p :
  assoc pid (players s) = Some p ->
  (forall k q, k <> pid -> assoc k (players s) = Some q -> p_role q = ghost ->
     ghost_hit x y q = false) ->
  check_ghost_collision pid x y s = (Ok tt, s, []).
Proof.
  intros Hp Hfree. unfold check_ghost_collision.
  rewrite (bind_run _ _ _ _ _ _ (get_player_run s pid p Hp)).
  unfold bind at 1, get_state at 1.
  rewrite ghost_collision_skip_all; [reflexivity |].
  intros k Hk. apply has_key_In in Hk. apply has_key_assoc in Hk.
  destruct Hk as [q Hq]. exists q. split; [exact Hq |].
  destruct (string_dec k pid) as [-> | Hne]; [left; reflexivity | right].
  destruct (p_role q) eqn:Hr; [right; eapply Hfree; eauto | left; discriminate].
Qed.

(** X14 -- the hunter's position message when it touches no evader.
    For the registered hunter and a [position] message with integer
    coordinates such that no evader's box meets the hunter's box at the
    stored position, the handler returns and composes, in this order: the
    rename and the clamped move; the collection of the snowflakes met there,
    with their points; the icicles met there, which start power mode at 300;
    and the tick of the power timer, so that a power mode started by this
    message ends the message at 299.  Nothing else changes and the only
    effects are the log lines of the items. *)
Theorem hunter_position_update s pid data position new_x new_y p sc :
  subscript data "type" = Ok (JStr "position") ->
  subscript data "position" = Ok position ->
  subscript position "x" = Ok (JInt new_x) ->
  subscript position "y" = Ok (JInt new_y) ->
  assoc pid (players s) = Some p -> p_role p = pacman -> p_score p = Some sc ->
  let v := get_valid_position (walls s) (p_x p) (p_y p) new_x new_y 30 in
  (forall k q, k <> pid -> assoc k (players s) = Some q -> p_role q = ghost ->
     ghost_hit (fst v) (snd v) q = false) ->
  dispatch pid data s
  = (Ok tt,
     set_players
       (upd pid
          (fun q =>
             tick ((if existsb (breakable (fst v) (snd v)) (power_pellets s)
                    then set_power true 300 else fun q' => q')
                     (set_score
                        (Some (sc + points_collected (fst v) (snd v) (dots s)))
                        (set_pos (fst v) (snd v) (renamed position q)))))
          (players s))
       (set_power_pellets (map (break (fst v) (snd v)) (power_pellets s))
          (set_dots (map (collect (fst v) (snd v)) (dots s)) s)),
     repeat (Log info)
       (List.length (filter (collectable (fst v) (snd v)) (dots s))
        + List.length (filter (breakable (fst v) (snd v)) (power_pellets s)))).
Proof.
  intros Ht Hpos Hx Hy Hp Hrole Hsc v Hfree.
  rewrite (dispatch_position pid data s Ht). unfold handle_position.
  rewrite (bind_run _ _ _ _ _ _ (move_player_exact s pid data position new_x new_y p
                                   Hpos Hx Hy Hp)).
  fold v.
  set (M := fun q => set_pos (fst v) (snd v) (renamed position q)).
  set (s1 := set_players (upd pid M (players s)) s).
  assert (Hp1 : assoc pid (players s1) = Some (M p))
    by (unfold s1; simpl; rewrite assoc_upd_eq, Hp; reflexivity).
  rewrite (bind_run _ _ _ _ _ _ (get_player_run s1 pid _ Hp1)).
  destruct (renamed_frame position p) as (Hr & Hs & _).
  change (p_role (M p)) with (p_role (renamed position p)).
  rewrite Hr, Hrole. change (Role_eqb pacman pacman) with true. unfold when at 1.
  assert (Hsc1 : p_score (M p) = Some sc) by (unfold M; simpl; rewrite Hs; exact Hsc).
  pose proof (check_snowflake_collision_run s1 pid (M p) sc (fst v) (snd v) Hp1 Hsc1)
    as Hsnow.
  change (dots s1) with (dots s) in Hsnow. change (players s1) with (upd pid M (players s)) in Hsnow.
  set (s2 := set_players
               (upd pid (set_score (Some (sc + points_collected (fst v) (snd v) (dots s))))
                  (upd pid M (players s)))
               (set_dots (map (collect (fst v) (snd v)) (dots s)) s1)) in Hsnow.
  set (S := set_score (Some (sc + points_collected (fst v) (snd v) (dots s)))) in *.
  assert (Hp2 : assoc pid (players s2) = Some (S (M p)))
    by (unfold s2; simpl; rewrite !assoc_upd_eq, Hp; reflexivity).
  pose proof (check_icicle_collision_run s2 pid _ (fst v) (snd v) Hp2) as Hice.
  assert (Hpp2 : power_pellets s2 = power_pellets s).
  { unfold s2. change (power_pellets (set_players ?d ?t)) with (power_pellets t).
    rewrite power_pellets_set_dots. reflexivity. }
  rewrite Hpp2 in Hice.
  set (P := if existsb (breakable (fst v) (snd v)) (power_pellets s)
            then set_power true 300 else fun q' : Player => q').
  set (s3 := set_players
               (if existsb (breakable (fst v) (snd v)) (power_pellets s)
                then upd pid (set_power true 300) (players s2) else players s2)
               (set_power_pellets (map (break (fst v) (snd v)) (power_pellets s)) s2))
    in Hice.
  assert (Hpl3 : players s3 = upd pid (fun q => P (S (M q))) (players s)).
  { unfold s3, P. simpl players.
    destruct (existsb (breakable (fst v) (snd v)) (power_pellets s));
      unfold s2; simpl players; rewrite !upd_upd; reflexivity. }
  assert (Hp3 : assoc pid (players s3) = Some (P (S (M p))))
    by (rewrite Hpl3, assoc_upd_eq, Hp; reflexivity).
  assert (Hghost : check_ghost_collision pid (fst v) (snd v) s3 = (Ok tt, s3, [])).
  { apply (check_ghost_collision_skip pid (fst v) (snd v) s3 _ Hp3).
    intros k q Hne Hq. rewrite Hpl3, assoc_upd_neq in Hq by exact Hne.
    exact (Hfree k q Hne Hq). }
  assert (Hchecks : (check_snowflake_collision pid (fst v) (snd v) ;;
                     check_icicle_collision pid (fst v) (snd v) ;;
                     check_ghost_collision pid (fst v) (snd v)) s1
                    = (Ok tt, s3,
                       repeat (Log info)
                         (List.length (filter (collectable (fst v) (snd v)) (dots s))
                          + List.length (filter (breakable (fst v) (snd v))
                                           (power_pellets s))))).
  { rewrite (bind_run _ _ _ _ _ _ Hsnow), (bind_run _ _ _ _ _ _ Hice), Hghost.
    rewrite app_nil_r, repeat_app. reflexivity. }
  rewrite (bind_run _ _ _ _ _ _ Hchecks).
  rewrite (tick_run pid s3 _ Hp3). rewrite Hpl3, upd_upd.
  unfold s3, s2, s1. simpl. rewrite app_nil_r. reflexivity.
Qed.

Lemma hunter_position_update_witness :
  let s := run [Register 1%nat] server0 in
  let data := JDict [("type", JStr "position");
                     ("position", JDict [("x", JInt 120); ("y", JInt 120)])] in
  option_map (fun p => (p_x p, p_y p, p_score p, p_power_mode p, p_power_timer p))
             (assoc "1" (players (post (dispatch "1" data) s)))
  = Some (120, 120, Some 0, true, 299).
Proof.
  intros s data.
  assert (H : forall k q, k <> "1" -> assoc k (players s) = Some q ->
                p_role q = ghost -> ghost_hit 120 120 q = false).
  { intros k q Hne Hq. exfalso.
    set (d := players s) in Hq. vm_compute in d. subst d. unfold assoc in Hq.
    destruct (String.eqb k "1") eqn:E; [apply String.eqb_eq in E; contradiction |].
    discriminate. }
  pose proof (hunter_position_update s "1" data
                (JDict [("x", JInt 120); ("y", JInt 120)]) 120 120
                (mkPlayer 400 500 pacman (Some [255; 255; 0]) (Some 0) false 0 (Some 3)
                   1%nat (Some (JStr "Player1")) (JBool true) (JBool false) 0 0 0)
                0 eq_refl eq_refl eq_refl eq_refl eq_refl eq_refl eq_refl H) as Hrun.
  unfold post. rewrite Hrun. vm_compute. reflexivity.
Defined.

(** ** Scores never decrease, lives never increase *)

Section Bounds.

Variables (k : string) (sc l : Z).

Let J : Server -> Prop := score_lives_bound k sc l.

Lemma bound_ext s s' : players s' = players s -> J s -> J s'.
Proof. unfold J, score_lives_bound. intros ->. auto. Qed.

Lemma bound_upd s a f :
  (forall p, p_score (f p) = p_score p) -> (forall p, p_lives (f p) = p_lives p) ->
  J s -> J (set_players (upd a f (players s)) s).
Proof.
  intros Hs Hl HJ p. simpl. rewrite assoc_upd. destruct (String.eqb k a).
  - destruct (assoc k (players s)) as [q |] eqn:Hq; [| discriminate].
    simpl. intros [= <-]. rewrite Hs, Hl. apply HJ. exact Hq.
  - apply HJ.
Qed.

Lemma bound_set_rnd s t : J s -> J (set_rnd t s).
Proof. apply bound_ext. reflexivity. Qed.

Lemma keeps_get_ghost_color_bound : keeps J get_ghost_color.
Proof.
  intros s Hs. destruct (get_ghost_color_frame s) as (c & s1 & Hrun & _ & Hp & _).
  rewrite Hrun. eapply bound_ext; eauto.
Qed.

Lemma keeps_assign_roles_bound : keeps J assign_roles.
Proof.
  intros s Hs.
  destruct (assign_roles_spec s) as (s' & e & Hrun & Hkeys & _ & _ & Hall & _).
  rewrite Hrun. intros p' Hp'.
  assert (Hk : has_key k (players s) = true).
  { apply has_key_In. rewrite <- Hkeys. apply has_key_In. apply has_key_assoc. eauto. }
  apply has_key_assoc in Hk. destruct Hk as [p Hp].
  destruct (Hall k p Hp) as (q & Hq & Hre). assert (q = p') by congruence. subst q.
  destruct (Hs p Hp) as (sc' & l' & Hsc & Hle & Hl & Hle').
  destruct Hre as (_ & _ & _ & _ & _ & _ & _ & _ & Hlives & Hscore & _).
  exists sc', l'. rewrite Hlives, Hscore by congruence. auto.
Qed.

Lemma keeps_add_score_bound pid points :
  0 <= points -> keeps J (add_score pid points).
Proof.
  intros Hpts s Hs. unfold add_score, bind, get_player.
  destruct (assoc pid (players s)) as [p |] eqn:Hp; [| exact Hs].
  unfold field. destruct (p_score p) as [v |] eqn:Hv; [| exact Hs].
  simpl. rewrite (update_player_run s pid _ p Hp). simpl.
  intros q. simpl. rewrite assoc_upd. destruct (String.eqb k pid) eqn:E; [| apply Hs].
  apply String.eqb_eq in E. subst pid. rewrite Hp. simpl. intros [= <-].
  destruct (Hs p Hp) as (sc' & l' & Hsc & Hle & Hl & Hle').
  exists (v + points), l'. simpl. repeat split; auto. assert (v = sc') by congruence. lia.
Qed.

Lemma points_of_nonneg t : 0 <= points_of t.
Proof. destruct t; simpl; lia. Qed.

Ltac keeps_bound :=
  repeat first
    [ apply keeps_add_score_bound; first [apply points_of_nonneg | lia]
    | keeps_step
    | apply keeps_random_random; exact bound_set_rnd
    | apply keeps_random_choice; exact bound_set_rnd
    | apply keeps_get_ghost_color_bound
    | apply keeps_assign_roles_bound
    | apply keeps_modify; intros ? ?; eapply bound_ext; [| eassumption]; reflexivity
    | apply keeps_update_player; intros ? ? ? ?; apply bound_upd;
      [ reflexivity | reflexivity | assumption ] ].

Lemma keeps_pacman_died_bound pid : keeps J (pacman_died pid).
Proof. unfold pacman_died. keeps_bound. Qed.

(** The hunter is caught: the lives it has go down by one. *)
Lemma keeps_lose_life_bound pid (rest : Z -> M unit) :
  (forall lives, keeps J (rest lives)) ->
  keeps J (p <- get_player pid ;;
           lives <- field (p_lives p) ;;
           update_player pid (set_lives (Some (lives - 1))) ;;
           rest lives).
Proof.
  intros Hrest s Hs. unfold bind at 1, get_player.
  destruct (assoc pid (players s)) as [p |] eqn:Hp; [| exact Hs].
  unfold bind at 1, field. destruct (p_lives p) as [v |] eqn:Hv; [| exact Hs].
  unfold ret. unfold bind at 1. rewrite (update_player_run s pid _ p Hp).
  assert (HJ : J (set_players (upd pid (set_lives (Some (v - 1))) (players s)) s)).
  { intros q. simpl. rewrite assoc_upd. destruct (String.eqb k pid) eqn:E; [| apply Hs].
    apply String.eqb_eq in E. subst pid. rewrite Hp. simpl. intros [= <-].
    destruct (Hs p Hp) as (sc' & l' & Hsc & Hle & Hl & Hle').
    exists sc', (v - 1). simpl. repeat split; auto. assert (v = l') by congruence. lia. }
  specialize (Hrest v _ HJ).
  destruct (rest v (set_players (upd pid (set_lives (Some (v - 1))) (players s)) s))
    as [[[a | x] s2] e2]; exact Hrest.
Qed.

Lemma keeps_ghost_collision_bound pid x y power_mode ghost_id :
  keeps J (ghost_collision pid x y power_mode ghost_id).
Proof.
  unfold ghost_collision. apply keeps_bind; [keeps_bound | intros ghost_data].
  apply keeps_when. destruct power_mode; [keeps_bound |].
  apply keeps_bind; [keeps_bound | intros _].
  apply (keeps_lose_life_bound pid
           (fun lives =>
              if lives - 1 <=? 0 then pacman_died pid
              else current_map <- current_map_data ;;
                   update_player pid
                     (set_pos (fst (m_pacman_spawn current_map))
                              (snd (m_pacman_spawn current_map))) ;;
                   emit (Log info))).
  intros lives. destruct (lives - 1 <=? 0); [apply keeps_pacman_died_bound | keeps_bound].
Qed.

Lemma keeps_dispatch_bound pid data : keeps J (dispatch pid data).
Proof.
  unfold dispatch, handle_position, move_player, check_snowflake_collision,
    check_icicle_collision, check_ghost_collision,
    handle_voice_chat, handle_voice_audio, broadcast_voice_audio,
    handle_mute_player, handle_change_map, respawn_player, handle_get_leaderboard,
    handle_get_player_stats, send_leaderboard, send_player_stats.
  repeat first [apply keeps_ghost_collision_bound | keeps_bound].
Qed.

Lemma keeps_handle_message_bound pid message now :
  keeps J (handle_message pid message now).
Proof.
  unfold handle_message. destruct message.
  - keeps_bound.
  - apply keeps_bind; [apply keeps_dispatch_bound |].
    intros ?. unfold broadcast_game_state, check_snowflake_respawn, respawn_snowflake,
      respawn_icicle, prepare_game_state.
    keeps_bound.
Qed.

End Bounds.

Lemma reassigned_score_lives p p' scv lv :
  reassigned p p' -> p_score p = Some scv -> p_lives p = Some lv ->
  p_score p' = Some scv /\ p_lives p' = Some lv.
Proof.
  intros (_ & _ & _ & _ & _ & _ & _ & _ & Hl & Hs & _) Hsc Hlv.
  rewrite Hs, Hl by congruence. auto.
Qed.

(** X15 -- scores never decrease and lives never increase.  From a
    reachable state, whatever event comes next (a registration, a message of
    any player, a disconnection), a player registered before and after it
    has a score at least as high and at most as many lives as before: no
    code path resets a score or restores a life, not even when a former
    hunter is selected again. *)
Theorem scores_never_decrease s e k p p' :
  reachable s ->
  assoc k (players s) = Some p ->
  assoc k (players (post (step e) s)) = Some p' ->
  exists sc sc' l l',
    p_score p = Some sc /\ p_score p' = Some sc' /\ sc <= sc'
    /\ p_lives p = Some l /\ p_lives p' = Some l' /\ l' <= l.
Proof.
  intros Hs Hp Hp'.
  pose proof (reachable_WF s Hs) as HWF. pose proof HWF as [Hreg _].
  destruct (registry_ok_complete s k p Hreg Hp) as (c & sc & l & nm & _ & Hsc & Hl & _).
  exists sc.
  assert (Hgoal : exists sc' l', p_score p' = Some sc' /\ sc <= sc'
                                 /\ p_lives p' = Some l' /\ l' <= l).
  { destruct e as [websocket | pid message now | pid].
    - rewrite post_step_register in Hp'.
      destruct (reachable_current s Hs) as (m & g & gs & Hm & _).
      destruct (register_spec websocket s m Hm)
        as (col & s' & e & Hrun & _ & _ & _ & _ & _ & _ & _ & _ & _ & Hall).
      unfold post in Hp'. rewrite Hrun in Hp'. simpl in Hp'.
      assert (Hk : assoc k (dict_set (str (S (player_counter s)))
                              (new_player m col websocket (str (S (player_counter s))))
                              (players s)) = Some p).
      { rewrite assoc_dict_set. destruct (String.eqb k (str (S (player_counter s)))) eqn:E;
          [| exact Hp].
        apply String.eqb_eq in E. subst k. pose proof (reachable_fresh s Hs) as Hf.
        unfold has_key in Hf. rewrite Hp in Hf. discriminate. }
      destruct (Hall k p Hk) as (q & Hq & Hre). assert (q = p') by congruence. subst q.
      destruct (reassigned_score_lives p p' sc l Hre Hsc Hl) as [-> ->].
      exists sc, l. repeat split; auto; lia.
    - simpl in Hp'.
      assert (HJ : score_lives_bound k sc l s).
      { intros q Hq. assert (q = p) by congruence. subst q.
        exists sc, l. repeat split; auto; lia. }
      apply (keeps_post _ _ s (keeps_handle_message_bound k sc l pid message now) HJ).
      exact Hp'.
    - simpl in Hp'. destruct (assoc pid (players s)) as [q |] eqn:Hq.
      + destruct (cleanup_player_after s pid q Hreg Hq)
          as (nm' & sc0 & c0 & s' & e & _ & _ & _ & Hrun & _ & Hkeys & Hall & _).
        unfold post in Hp'. rewrite Hrun in Hp'. simpl in Hp'.
        assert (Hne : k <> pid).
        { intros ->. assert (Hk : has_key pid (players s') = true)
            by (apply has_key_assoc; eauto).
          apply has_key_In in Hk. rewrite Hkeys in Hk. apply filter_In in Hk.
          destruct Hk as [_ Hk]. rewrite String.eqb_refl in Hk. discriminate. }
        destruct (Hall k p Hne Hp) as (q' & Hq' & Hre).
        assert (q' = p') by congruence. subst q'.
        destruct (reassigned_score_lives p p' sc l Hre Hsc Hl) as [-> ->].
        exists sc, l. repeat split; auto; lia.
      + unfold post in Hp'. rewrite cleanup_player_absent in Hp'
          by (unfold has_key; rewrite Hq; reflexivity).
        simpl in Hp'. assert (p' = p) by congruence. subst p'.
        exists sc, l. repeat split; auto; lia. }
  destruct Hgoal as (sc' & l' & H1 & H2 & H3 & H4).
  exists sc', l, l'. repeat split; auto.
Qed.

Lemma scores_never_decrease_witness :
  let s := server_after_death in
  let p := mkPlayer 400 300 ghost (Some [152; 251; 152]) (Some 1200) false 0 (Some 0)
             1%nat (Some (JStr "Player1")) (JBool true) (JBool false) 0 0 0 in
  let p' := mkPlayer 400 300 pacman (Some [255; 255; 0]) (Some 1200) false 0 (Some 0)
              1%nat (Some (JStr "Player1")) (JBool true) (JBool false) 0 0 0 in
  reachable s
  /\ assoc "1" (players s) = Some p
  /\ assoc "1" (players (post (step (Unregister "2")) s)) = Some p'
  /\ exists sc sc' l l',
       p_score p = Some sc /\ p_score p' = Some sc' /\ sc <= sc'
       /\ p_lives p = Some l /\ p_lives p' = Some l' /\ l' <= l.
Proof.
  intros s p p'.
  assert (Hs : reachable s).
  { apply (reachable_run [Dispatch "1" (position_message 400 500) 0]).
    apply reach_rnd. apply (reachable_run _ server0). apply reach_init. }
  assert (Hp : assoc "1" (players s) = Some p) by (vm_compute; reflexivity).
  assert (Hp' : assoc "1" (players (post (step (Unregister "2")) s)) = Some p')
    by (vm_compute; reflexivity).
  split; [exact Hs |]. split; [exact Hp |]. split; [exact Hp' |].
  exact (scores_never_decrease s (Unregister "2") "1" p p' Hs Hp Hp').
Defined.

(** ** The session loop *)








(** ** The hunter in power mode *)







(** ** A snowflake counts once *)

Lemma collectable_collect x y d : collectable x y (collect x y d) = false.
Proof.
  unfold collect. destruct (collectable x y d) eqn:Hc; [| exact Hc].
  unfold collectable. reflexivity.
Qed.

Lemma collect_collect x y ds :
  map (collect x y) (map (collect x y) ds) = map (collect x y) ds.
Proof.
  rewrite map_map. apply map_ext. intros d. unfold collect at 1.
  rewrite collectable_collect. reflexivity.
Qed.

Lemma filter_collectable_collect x y ds :
  filter (collectable x y) (map (collect x y) ds) = [].
Proof.
  induction ds as [| d ds IH]; [reflexivity |]. simpl.
  rewrite collectable_collect. exact IH.
Qed.

(** X19 -- a snowflake counts once.  After [check_snowflake_collision]
    has run for a player at [(x, y)], running it again at the same place
    changes nothing at all, neither the score nor an item, and logs
    nothing: what was collected is marked eaten and is not collected a
    second time. *)
Theorem snowflakes_count_once s pid p sc x y :
  assoc pid (players s) = Some p -> p_score p = Some sc ->
  let s' := post (check_snowflake_collision pid x y) s in
  check_snowflake_collision pid x y s' = (Ok tt, s', []).
Proof.
  intros Hp Hsc s'.
  pose proof (check_snowflake_collision_run s pid p sc x y Hp Hsc) as Hrun.
  assert (Hdots : dots s' = map (collect x y) (dots s)).
  { unfold s', post. rewrite Hrun. simpl snd. apply dots_set_dots_map. }
  assert (Hp' : assoc pid (players s')
                = Some (set_score (Some (sc + points_collected x y (dots s))) p)).
  { unfold s', post. rewrite Hrun. simpl. rewrite assoc_upd_eq, Hp. reflexivity. }
  assert (Hnone : filter (collectable x y) (dots s') = [])
    by (rewrite Hdots; apply filter_collectable_collect).
  assert (Hzero : points_collected x y (dots s') = 0)
    by (unfold points_collected; rewrite Hnone; reflexivity).
  assert (Hmap : map (collect x y) (dots s') = dots s')
    by (rewrite Hdots; apply collect_collect).
  rewrite (check_snowflake_collision_run s' pid _ _ x y Hp' eq_refl).
  rewrite Hnone, Hzero, Hmap, set_dots_same, Z.add_0_r.
  rewrite upd_id, set_players_same; [reflexivity |].
  intros q Hq. rewrite Hp' in Hq. injection Hq as <-. reflexivity.
Qed.

Lemma snowflakes_count_once_witness :
  let s := run [Register 1%nat] server0 in
  let s' := post (check_snowflake_collision "1" 400 500) s in
  option_map p_score (assoc "1" (players s')) = Some (Some 1200)
  /\ check_snowflake_collision "1" 400 500 s' = (Ok tt, s', []).
Proof.
  intros s s'. split; [vm_compute; reflexivity |].
  apply (snowflakes_count_once s "1"
           (mkPlayer 400 500 pacman (Some [255; 255; 0]) (Some 0) false 0 (Some 3)
              1%nat (Some (JStr "Player1")) (JBool true) (JBool false) 0 0 0)
           0 400 500); [vm_compute; reflexivity | reflexivity].
Defined.

(** X20 -- a [change_map] message with an index out of range.  In a
    reachable state there are five arenas; a [change_map] message whose
    [map_id] is an integer below 0 or above 4 is handled without any effect:
    the active arena, the players and their positions stay as they are and
    nothing is logged (the closing broadcast of [handle_message] still
    follows). *)
Theorem change_map_out_of_range s pid data j n :
  reachable s ->
  subscript data "type" = Ok (JStr "change_map") ->
  subscript data "map_id" = Ok j -> as_int j = Ok n ->
  n < 0 \/ 4 < n ->
  dispatch pid data s = (Ok tt, s, [])
  /\ forall now, handle_message pid (Decoded data) now s = broadcast_game_state now s.
Proof.
  intros Hs Ht Hj Hn Hout.
  destruct (reachable_arenas s Hs) as [c Ha].
  pose proof (length_layout c s Ha) as Hlen.
  assert (Hd : dispatch pid data s = (Ok tt, s, [])).
  { unfold dispatch. rewrite Ht, lift_ok. simpl.
    unfold handle_change_map. rewrite Hj, lift_ok, Hn, lift_ok.
    unfold bind at 1, get_state at 1. rewrite Hlen.
    assert (Hc : (0 <=? n) && (n <? Z.of_nat 5) = false).
    { destruct Hout as [H | H].
      - apply andb_false_iff. left. apply Z.leb_gt. exact H.
      - apply andb_false_iff. right. apply Z.ltb_ge. lia. }
    rewrite Hc. reflexivity. }
  split; [exact Hd |].
  intros now. unfold handle_message. rewrite (bind_run _ _ _ _ _ _ Hd).
  destruct (broadcast_game_state now s) as [[r s2] e2]. reflexivity.
Qed.

Lemma change_map_out_of_range_witness :
  let s := run [Register 1%nat] server0 in
  dispatch "1" (JDict [("type", JStr "change_map"); ("map_id", JInt 5)]) s
  = (Ok tt, s, []).
Proof.
  intros s.
  assert (Hs : reachable s) by (apply (reachable_run _ server0); apply reach_init).
  apply (change_map_out_of_range s "1"
           (JDict [("type", JStr "change_map"); ("map_id", JInt 5)]) (JInt 5) 5 Hs);
    [reflexivity | reflexivity | reflexivity | right; lia].
Defined.
